(** * statistical-aggregation: a shallow embedding of [aggregate]

    The repository holds two editions of one engine:

    - [src/aggregate.ts] calculates with plain JavaScript numbers, puts a
      value into the first bucket whose endpoint is strictly greater
      ([value < endpoint]) and labels the lowest bucket ["<b"];
    - [src/unnamed/part_000] calculates with bignumber.js, uses
      [value <= endpoint] and labels the lowest bucket ["<=b"].

    Everything else is shared line by line, so the embedding is written once
    and takes the edition as a parameter ([variant]); every place where the two
    files differ is a [match] on it.

    Modelling decisions, all stated where they are made:

    - numbers are exact rationals extended with [NaN] and the two infinities;
      [+], [-], [*] are exact, [/] and [sqrt] round to 20 decimal places half
      up, which is bignumber.js under its default configuration.  The rounding
      of IEEE doubles (and the final [toNumber()] of part_000) is not
      modelled, and neither is the sign of zero;
    - a record is a JavaScript object: an insertion-ordered list of
      properties, plus the value of the reserved property
      [_aggregationMetadata], which is kept typed ([IAggregationData], the
      interface of the source) and apart from the caller's properties;
    - [console.log] is a log of diagnostics threaded through the computation,
      [throw] is an outcome. *)

From Stdlib Require Import ZArith QArith List String Ascii Bool Lia Sorted.
From Stdlib Require Import Permutation DecimalPos.
From Stdlib Require Import DecimalString.
Import ListNotations.

Set Warnings "-register-all".

Local Open Scope list_scope.
Local Open Scope string_scope.
Local Open Scope Z_scope.

(* ================================================================= *)
(** ** Numbers *)

(** A JavaScript number or a BigNumber: not-a-number, the infinities, or a
    finite value kept in lowest terms. *)
Inductive num : Type :=
| NaN
| NegInfinity
| Infinity
| Fin (q : Q).

Definition fin (q : Q) : num := Fin (Qred q).
Definition ofZ (z : Z) : num := Fin (inject_Z z).
Definition zero : num := ofZ 0.
Definition one : num := ofZ 1.

(** Sign of a rational: [Lt] negative, [Eq] zero, [Gt] positive. *)
Definition Qsign (q : Q) : comparison := (Qnum q ?= 0).

Definition signed_inf (c : comparison) : num :=
  match c with Lt => NegInfinity | Eq => NaN | Gt => Infinity end.

Definition neg (a : num) : num :=
  match a with
  | NaN => NaN
  | NegInfinity => Infinity
  | Infinity => NegInfinity
  | Fin q => fin (- q)
  end.

Definition add (a b : num) : num :=
  match a, b with
  | NaN, _ | _, NaN => NaN
  | Infinity, NegInfinity | NegInfinity, Infinity => NaN
  | Infinity, _ | _, Infinity => Infinity
  | NegInfinity, _ | _, NegInfinity => NegInfinity
  | Fin x, Fin y => fin (x + y)
  end.

Definition sub (a b : num) : num := add a (neg b).

Definition mul (a b : num) : num :=
  match a, b with
  | NaN, _ | _, NaN => NaN
  | Fin x, Fin y => fin (x * y)
  | Fin x, Infinity | Infinity, Fin x => signed_inf (Qsign x)
  | Fin x, NegInfinity | NegInfinity, Fin x => signed_inf (CompOpp (Qsign x))
  | Infinity, Infinity | NegInfinity, NegInfinity => Infinity
  | Infinity, NegInfinity | NegInfinity, Infinity => NegInfinity
  end.

(** bignumber.js: [DECIMAL_PLACES = 20], [ROUNDING_MODE = ROUND_HALF_UP]
    (to the nearest, ties away from zero). *)
Definition DECIMAL_PLACES : Z := 20.

Definition round_half_up (q : Q) : Q :=
  let scale := 10 ^ DECIMAL_PLACES in
  let n := Z.abs (Qnum q) * scale in
  let d := Zpos (Qden q) in
  let r := (2 * n + d) / (2 * d) in
  Qred ((Z.sgn (Qnum q) * r) # (Z.to_pos scale)).

Definition div (a b : num) : num :=
  match a, b with
  | NaN, _ | _, NaN => NaN
  | Fin x, Fin y =>
      match Qsign y with
      | Eq => signed_inf (Qsign x)
      | _ => Fin (round_half_up (x / y))
      end
  | Fin _, _ => zero
  | Infinity, Fin y => match Qsign y with Lt => NegInfinity | _ => Infinity end
  | NegInfinity, Fin y => match Qsign y with Lt => Infinity | _ => NegInfinity end
  | _, _ => NaN
  end.

(** Square root of a non-negative rational, correctly rounded to
    [DECIMAL_PLACES] places. *)
Definition Qsqrt_rounded (q : Q) : Q :=
  let scale := 10 ^ DECIMAL_PLACES in
  let n := Qnum q * scale * scale in
  let d := Zpos (Qden q) in
  let s := Z.sqrt (n / d) in
  let r := if (2 * s + 1) * (2 * s + 1) * d <=? 4 * n then s + 1 else s in
  Qred (r # (Z.to_pos scale)).

(** [Math.sqrt] and [BigNumber.prototype.sqrt]: not-a-number below zero. *)
Definition sqrt (a : num) : num :=
  match a with
  | NaN | NegInfinity => NaN
  | Infinity => Infinity
  | Fin q => match Qsign q with Lt => NaN | _ => Fin (Qsqrt_rounded q) end
  end.

Definition Qltb (x y : Q) : bool := negb (Qle_bool y x).

(** The relational operators: every comparison with [NaN] is false. *)
Definition lt (a b : num) : bool :=
  match a, b with
  | NaN, _ | _, NaN => false
  | Fin x, Fin y => Qltb x y
  | _, NegInfinity => false
  | NegInfinity, _ => true
  | Infinity, _ => false
  | _, Infinity => true
  end.

Definition le (a b : num) : bool :=
  match a, b with
  | NaN, _ | _, NaN => false
  | Fin x, Fin y => Qle_bool x y
  | NegInfinity, _ => true
  | _, NegInfinity => false
  | _, Infinity => true
  | Infinity, _ => false
  end.

Definition gt (a b : num) : bool := lt b a.

(** [===] on numbers. *)
Definition num_eqb (a b : num) : bool :=
  match a, b with
  | Fin x, Fin y => Qeq_bool x y
  | Infinity, Infinity | NegInfinity, NegInfinity => true
  | _, _ => false
  end.

(* ----------------------------------------------------------------- *)
(** *** Numbers and strings *)

Definition Z_to_string (z : Z) : string := NilZero.string_of_int (Z.to_int z).

Definition digit_char (d : Z) : ascii := ascii_of_nat (48 + Z.to_nat d).

(** The digits after the decimal point of [r / d], for [0 <= r < d]. *)
Fixpoint fraction_digits (fuel : nat) (r d : Z) : string :=
  match fuel with
  | O => ""
  | S fuel' =>
      if r =? 0 then ""
      else String (digit_char (r * 10 / d))
                  (fraction_digits fuel' (r * 10 mod d) d)
  end.

(** [String(n)]: the decimal numeral of an integer, the decimal expansion of
    a fraction (cut after 20 places; JavaScript prints the shortest numeral
    that reads back as the same double). *)
Definition num_toString (n : num) : string :=
  match n with
  | NaN => "NaN"
  | Infinity => "Infinity"
  | NegInfinity => "-Infinity"
  | Fin q =>
      let d := Zpos (Qden q) in
      let a := Z.abs (Qnum q) in
      (if Qnum q <? 0 then "-" else "")
        ++ Z_to_string (a / d)
        ++ (if a mod d =? 0 then ""
            else "." ++ fraction_digits 20 (a mod d) d)
  end.

Definition is_digit (c : ascii) : bool :=
  ((48 <=? nat_of_ascii c) && (nat_of_ascii c <=? 57))%nat.

(** Reads the leading digits of [s]: their value, how many, and the rest. *)
Fixpoint scan_digits (s : string) (acc : Z) (cnt : nat) : Z * nat * string :=
  match s with
  | String c rest =>
      if is_digit c
      then scan_digits rest (acc * 10 + Z.of_nat (nat_of_ascii c - 48)) (S cnt)
      else (acc, cnt, s)
  | EmptyString => (acc, cnt, s)
  end.

Definition parse_unsigned (s : string) : option Q :=
  let '(i, ni, rest) := scan_digits s 0 0%nat in
  match rest with
  | EmptyString => if (ni =? 0)%nat then None else Some (inject_Z i)
  | String "."%char rest' =>
      let '(f, nf, rest'') := scan_digits rest' 0 0%nat in
      match rest'' with
      | EmptyString =>
          if (ni + nf =? 0)%nat then None
          else Some (inject_Z i + (f # Z.to_pos (10 ^ Z.of_nat nf)))%Q
      | _ => None
      end
  | _ => None
  end.

(** [Number(s)] for the strings this program builds: the empty string is 0,
    a signed decimal numeral is its value, ["Infinity"] is itself, anything
    else is [NaN].  (Surrounding blanks, exponents and radix prefixes are not
    modelled.) *)
Definition Number (s : string) : num :=
  if (s =? "")%string then zero
  else
    let '(negative, body) :=
      match s with
      | String "-"%char r => (true, r)
      | String "+"%char r => (false, r)
      | _ => (false, s)
      end in
    if (body =? "Infinity")%string
    then (if negative then NegInfinity else Infinity)
    else match parse_unsigned body with
         | Some q => fin (if negative then (- q)%Q else q)
         | None => NaN
         end.

(** [s.split(sep)] for a one-character separator. *)
Fixpoint split_on (sep : ascii) (s : string) (cur : string) : list string :=
  match s with
  | EmptyString => [cur]
  | String c rest =>
      if Ascii.eqb c sep then cur :: split_on sep rest ""
      else split_on sep rest (cur ++ String c "")
  end.

Definition split (sep : ascii) (s : string) : list string := split_on sep s "".

Definition startsWith (s p : string) : bool := String.prefix p s.

Definition last_char (s : string) : option ascii :=
  String.get (String.length s - 1) s.

Definition endsWith_char (s : string) (c : ascii) : bool :=
  match s with
  | EmptyString => false
  | _ => match last_char s with Some c' => Ascii.eqb c' c | None => false end
  end.

(** [s.slice(1)] and [s.slice(0, -1)]. *)
Definition slice_from_1 (s : string) : string :=
  match s with String _ r => r | EmptyString => "" end.

Definition slice_drop_last (s : string) : string :=
  String.substring 0 (String.length s - 1) s.

(* ================================================================= *)
(** ** Values and objects *)

(** What a record can hold ([any]). *)
Inductive value : Type :=
| VUndefined
| VNull
| VBool (b : bool)
| VNum (n : num)
| VStr (s : string)
| VArr (l : list value)
| VObj (o : list (string * value)).

(** Stable insertion sort: [x] goes before the first element that is not
    strictly smaller. *)
Section Sorting.
Context {A : Type} (ltb : A -> A -> bool).

Fixpoint insert_sorted (x : A) (l : list A) : list A :=
  match l with
  | [] => [x]
  | y :: l' => if ltb y x then y :: insert_sorted x l' else x :: l
  end.

Definition stable_sort (l : list A) : list A :=
  fold_right insert_sorted [] l.
End Sorting.

(** An array index: ["0"] or a numeral without leading zero, below 2^32 - 1. *)
Definition canonical_index (k : string) : option Z :=
  match k with
  | EmptyString => None
  | String c r =>
      let '(v, _, rest) := scan_digits k 0 0%nat in
      if (rest =? "")%string
         && negb (Ascii.eqb c "0" && negb (r =? "")%string)
         && (v <? 4294967295)
      then Some v else None
  end.

Definition is_index (k : string) : bool :=
  match canonical_index k with Some _ => true | None => false end.

Definition index_ltb (k1 k2 : string) : bool :=
  match canonical_index k1, canonical_index k2 with
  | Some i, Some j => i <? j
  | _, _ => false
  end.

(** A JavaScript object used as a map: its own properties in insertion
    order. *)
Section Objects.
Context {A : Type}.

Fixpoint obj_get (o : list (string * A)) (k : string) : option A :=
  match o with
  | [] => None
  | (k', v) :: o' => if (k' =? k)%string then Some v else obj_get o' k
  end.

(** [o[k] = v]: an existing property keeps its place, a new one goes last. *)
Fixpoint obj_set (o : list (string * A)) (k : string) (v : A)
  : list (string * A) :=
  match o with
  | [] => [(k, v)]
  | (k', v') :: o' =>
      if (k' =? k)%string then (k, v) :: o' else (k', v') :: obj_set o' k v
  end.

(** [delete o[k]]. *)
Definition obj_delete (o : list (string * A)) (k : string)
  : list (string * A) :=
  filter (fun kv => negb (fst kv =? k)%string) o.

(** The order of [Object.keys], [Object.values] and [for ... in]: array
    indices ascending, then the other keys as they were inserted. *)
Definition obj_entries (o : list (string * A)) : list (string * A) :=
  (stable_sort (fun a b => index_ltb (fst a) (fst b))
               (filter (fun kv => is_index (fst kv)) o)
     ++ filter (fun kv => negb (is_index (fst kv))) o)%list.

Definition obj_keys (o : list (string * A)) : list string :=
  map fst (obj_entries o).

Definition obj_values (o : list (string * A)) : list A :=
  map snd (obj_entries o).
End Objects.

(** [Array.prototype.join]: [undefined] and [null] print as nothing. *)
Fixpoint ToString (v : value) : string :=
  match v with
  | VUndefined => "undefined"
  | VNull => "null"
  | VBool b => if b then "true" else "false"
  | VNum n => num_toString n
  | VStr s => s
  | VArr l =>
      String.concat ","
        (map (fun x => match x with
                       | VUndefined | VNull => ""
                       | _ => ToString x
                       end) l)
  | VObj _ => "[object Object]"
  end.

Definition join (sep : string) (l : list value) : string :=
  String.concat sep
    (map (fun x => match x with
                   | VUndefined | VNull => ""
                   | _ => ToString x
                   end) l).

(** [ToNumber], as the arithmetic and relational operators apply it. *)
Definition ToNumber (v : value) : num :=
  match v with
  | VUndefined => NaN
  | VNull => zero
  | VBool b => if b then one else zero
  | VNum n => n
  | VStr s => Number s
  | VArr _ | VObj _ => Number (ToString v)
  end.

(** [new BigNumber(v)]: a number is itself, anything else goes through its
    string, and a string that is no plain decimal numeral is [NaN]. *)
Definition toBigNumber (v : value) : num :=
  match v with
  | VNum n => n
  | _ =>
      let s := ToString v in
      if (s =? "")%string || startsWith s "+" then NaN else Number s
  end.

(** [a < b] and [a <= b]: two strings compare by code units, everything else
    as numbers. *)
Definition js_lt (a b : value) : bool :=
  match a, b with
  | VStr s, VStr t => String.ltb s t
  | _, _ => lt (ToNumber a) (ToNumber b)
  end.

Definition js_le (a b : value) : bool :=
  match a, b with
  | VStr s, VStr t => String.leb s t
  | _, _ => le (ToNumber a) (ToNumber b)
  end.

Definition isObject (v : value) : bool :=
  match v with VArr _ | VObj _ => true | _ => false end.

Definition nullish (v : value) : bool :=
  match v with VUndefined | VNull => true | _ => false end.

(** [v[k]] for [v] that is neither [undefined] nor [null]. *)
Definition prop (v : value) (k : string) : value :=
  match v with
  | VObj o => match obj_get o k with Some x => x | None => VUndefined end
  | VArr l =>
      match canonical_index k with
      | Some i => nth (Z.to_nat i) l VUndefined
      | None =>
          if (k =? "length")%string then VNum (ofZ (Z.of_nat (List.length l)))
          else VUndefined
      end
  | VStr s =>
      match canonical_index k with
      | Some i =>
          match String.get (Z.to_nat i) s with
          | Some c => VStr (String c "")
          | None => VUndefined
          end
      | None =>
          if (k =? "length")%string
          then VNum (ofZ (Z.of_nat (String.length s)))
          else VUndefined
      end
  | _ => VUndefined
  end.

(** [l[i] = v] on an array: holes are [undefined]. *)
Fixpoint set_nth (l : list value) (i : nat) (v : value) : list value :=
  match i, l with
  | O, [] => [v]
  | O, _ :: l' => v :: l'
  | S i', [] => VUndefined :: set_nth [] i' v
  | S i', x :: l' => x :: set_nth l' i' v
  end.

(** [target[k] = v].  A named (non-index) property of an array has no place in
    a list and is dropped. *)
Definition assignValue (target : value) (k : string) (v : value) : value :=
  match target with
  | VObj o => VObj (obj_set o k v)
  | VArr l =>
      match canonical_index k with
      | Some i => VArr (set_nth l (Z.to_nat i) v)
      | None => target
      end
  | _ => target
  end.

(* ----------------------------------------------------------------- *)
(** *** lodash: paths, [_.get], [_.set] *)

Definition is_path_separator (c : ascii) : bool :=
  Ascii.eqb c "." || Ascii.eqb c "[" || Ascii.eqb c "]".

Definition flush_segment (cur : string) : list string :=
  if (cur =? "")%string then [] else [cur].

Fixpoint scan_path (s : string) (cur : string) : list string :=
  match s with
  | EmptyString => flush_segment cur
  | String c rest =>
      if is_path_separator c
      then (flush_segment cur ++ scan_path rest "")%list
      else scan_path rest (cur ++ String c "")
  end.

(** [_.toPath] for dotted paths with bracketed indices: ["a[0].b.c"] is
    [a], [0], [b], [c]; a leading dot gives a leading empty key.  (Quoted keys
    inside brackets are not modelled.) *)
Definition stringToPath (s : string) : list string :=
  ((if startsWith s "." then [""] else []) ++ scan_path s "")%list.

Fixpoint contains_char (c : ascii) (s : string) : bool :=
  match s with
  | EmptyString => false
  | String c' r => Ascii.eqb c' c || contains_char c r
  end.

(** lodash [isKey]: a string without a dot and without brackets is one key,
    and so is a string that names a property of the object as it stands. *)
Definition isKey (path : string) (object : value) : bool :=
  negb (contains_char "." path || contains_char "[" path)
  || match object with
     | VObj o => match obj_get o path with Some _ => true | None => false end
     | _ => false
     end.

(** lodash [castPath]; a path that is [undefined] is the key ["undefined"]. *)
Definition castPath (path : option string) (object : value) : list string :=
  match path with
  | None => ["undefined"]
  | Some p => if isKey p object then [p] else stringToPath p
  end.

Fixpoint baseGet (keys : list string) (v : value) : value :=
  match keys with
  | [] => v
  | k :: ks => if nullish v then VUndefined else baseGet ks (prop v k)
  end.

(** [_.get(object, path)]. *)
Definition get (object : value) (path : option string) : value :=
  if nullish object then VUndefined else baseGet (castPath path object) object.

Definition unsafe_key (k : string) : bool :=
  (k =? "__proto__")%string || (k =? "constructor")%string
  || (k =? "prototype")%string.

(** lodash [isIndex] on a key. *)
Definition isIndex (k : string) : bool :=
  match k with
  | EmptyString => false
  | String c r =>
      let '(v, _, rest) := scan_digits k 0 0%nat in
      (rest =? "")%string && negb (Ascii.eqb c "0" && negb (r =? "")%string)
      && (v <=? 9007199254740990)
  end.

(** lodash [baseSet]: missing intermediate containers are created, an array
    when the next key is an index and an object otherwise. *)
Fixpoint baseSet (keys : list string) (v : value) (target : value) : value :=
  match keys with
  | [] => target
  | k :: rest =>
      if unsafe_key k then target
      else
        match rest with
        | [] => assignValue target k v
        | k' :: _ =>
            let objValue := prop target k in
            let child :=
              if isObject objValue then objValue
              else if isIndex k' then VArr [] else VObj [] in
            assignValue target k (baseSet rest v child)
        end
  end.

(** [_.set(object, path, value)]. *)
Definition set (object : value) (path : string) (v : value) : value :=
  if isObject object then baseSet (castPath (Some path) object) v object
  else object.

(** [_.uniq] and [_.uniqBy]: the first occurrence of each key stays. *)
Fixpoint uniqBy {A : Type} (key : A -> string) (l : list A) (seen : list string)
  : list A :=
  match l with
  | [] => []
  | x :: l' =>
      if existsb (String.eqb (key x)) seen then uniqBy key l' seen
      else x :: uniqBy key l' (key x :: seen)
  end.

Definition uniq (l : list string) : list string := uniqBy (fun s => s) l [].

(** [_.difference(a, b)]. *)
Definition difference (a b : list string) : list string :=
  filter (fun x => negb (existsb (String.eqb x) b)) a.

(* ================================================================= *)
(** ** The data model of the engine *)

(** The two editions of the source. *)
Inductive variant : Type :=
| Numbers      (* src/aggregate.ts: JavaScript numbers, [value < endpoint] *)
| BigNumbers.  (* src/unnamed/part_000: bignumber.js, [value <= endpoint] *)

Module AggregationTypes.
Inductive t : Type :=
| min | max | count | sum | average | standardDeviation | weightedAverage.

Definition eqb (a b : t) : bool :=
  match a, b with
  | min, min | max, max | count, count | sum, sum | average, average
  | standardDeviation, standardDeviation
  | weightedAverage, weightedAverage => true
  | _, _ => false
  end.
End AggregationTypes.

(** The state kept per metric key; every member is optional in the source
    ([sum?: number], ...), [None] is [undefined]. *)
Record SourceState : Type := mkSourceState {
  METADATA_SUM_FIELD : option num;
  METADATA_SUM_OF_SQUARES_FIELD : option num;
  METADATA_MIN_FIELD : option num;
  METADATA_MAX_FIELD : option num;
  METADATA_WEIGHTED_SUM_FIELD : option num;
  METADATA_TOTAL_WEIGHT_FIELD : option num
}.

Record IAggregationData : Type := mkAggregationData {
  METADATA_MATCH_KEYS_FIELD : list string;
  METADATA_COUNT_FIELD : num;
  METADATA_SOURCES_FIELD : list (string * SourceState)
}.

(** A record: the caller's properties and what it has under the reserved key
    ["_aggregationMetadata"] ([None]: the key is absent).  Paths are resolved
    in [properties]; the specification forbids caller paths that collide with
    the reserved key. *)
Record record : Type := mkRecord {
  properties : list (string * value);
  AGG_METADATA_FIELD : option IAggregationData
}.

Record IAggregationField : Type := mkField {
  method : AggregationTypes.t;
  sourceField : option string;
  weightField : option string
}.

Definition BucketEndpoints : Type := list num.
Definition IBuckets : Type := list (string * BucketEndpoints).

(** The options of [aggregate]; [matchKeys] absent is [[]],
    [noAggregateMetadata] absent is [false]. *)
Record IAggregationParams : Type := mkParams {
  records : list record;
  matchKeys : list string;
  buckets : option IBuckets;
  fields : list (string * IAggregationField);
  noAggregateMetadata : bool;
  sortBy : option (list string)
}.

(** The value of the constant [AGG_METADATA_FIELD]. *)
Definition reserved_key : string := "_aggregationMetadata".

(** What [console.log] is called with. *)
Inductive diagnostic : Type :=
| DifferentMatchKeys (onRecord current : list string) (r : record)
| MissingSourceField (sourceField : string) (r : record)
| MissingWeightedAverage (sourceField weightField : option string) (r : record).

Inductive error : Type :=
| Error (message : string)   (* [throw new Error(message)] *)
| TypeError.                 (* a property of [undefined] was read *)

Inductive outcome (A : Type) : Type :=
| Ok (a : A)
| Throw (e : error).
Arguments Ok {A} a.
Arguments Throw {A} e.

Definition obind {A B : Type} (m : outcome A) (k : A -> outcome B) : outcome B :=
  match m with Ok a => k a | Throw e => Throw e end.

(** Computations that log and may throw. *)
Definition M (A : Type) : Type := list diagnostic -> outcome A * list diagnostic.

Definition ret {A : Type} (a : A) : M A := fun l => (Ok a, l).

Definition bind {A B : Type} (m : M A) (k : A -> M B) : M B :=
  fun l => match m l with
           | (Ok a, l') => k a l'
           | (Throw e, l') => (Throw e, l')
           end.

Definition throw {A : Type} (e : error) : M A := fun l => (Throw e, l).

Definition console_log (d : diagnostic) : M unit :=
  fun l => (Ok tt, (l ++ [d])%list).

Definition lift {A : Type} (o : outcome A) : M A := fun l => (o, l).

Declare Scope js_scope.
Delimit Scope js_scope with js.
Notation "x <- m ;; k" := (bind m (fun x => k))
  (at level 100, m at next level, right associativity) : js_scope.
Notation "m ;;; k" := (bind m (fun _ => k))
  (at level 100, right associativity) : js_scope.
Notation "'let?' x := m 'in' k" := (obind m (fun x => k))
  (at level 100, x name, m at next level, right associativity) : js_scope.
Local Open Scope js_scope.

(** [list.forEach(body)] over a state that the body updates. *)
Fixpoint forEach {A S : Type} (l : list A) (body : A -> S -> M S) (s : S) : M S :=
  match l with
  | [] => ret s
  | x :: l' => s' <- body x s ;; forEach l' body s'
  end.

Definition run {A : Type} (m : M A) : outcome A * list diagnostic := m [].

(* ================================================================= *)
(** ** The helpers of the source *)

Definition exists_ {A : Type} (input : option A) : bool :=
  match input with Some _ => true | None => false end.

(** A template literal prints [undefined] as the word. *)
Definition template (s : option string) : string :=
  match s with Some x => x | None => "undefined" end.

Definition getWeightedAverageMetadataKey (sourceField weightField : option string)
  : string :=
  let separator := "," in
  "weightedAverage" ++ separator ++ template sourceField
    ++ separator ++ template weightField.

Definition isSubset (subset superset : list string) : bool :=
  (List.length (difference subset superset) =? 0)%nat.

Definition optnum (o : option num) : num :=
  match o with Some n => n | None => NaN end.

(** [getMin] and [getMax] of src/aggregate.ts; a comparison with [undefined]
    is false. *)
Definition opt_lt (a b : option num) : bool :=
  match a, b with Some x, Some y => lt x y | _, _ => false end.

Definition getMin (value1 value2 : option num) : option num :=
  if opt_lt value2 value1 then value2 else value1.

Definition getMax (value1 value2 : option num) : option num :=
  if opt_lt value1 value2 then value2 else value1.

(** [BigNumber.min] and [BigNumber.max]: [NaN] if an argument is [NaN]. *)
Definition BigNumber_min (a b : num) : num :=
  match a, b with
  | NaN, _ | _, NaN => NaN
  | _, _ => if gt a b then b else a
  end.

Definition BigNumber_max (a b : num) : num :=
  match a, b with
  | NaN, _ | _, NaN => NaN
  | _, _ => if lt a b then b else a
  end.

(** [bucketEndpoints.sort()]: without a compare function the elements are
    ordered by their strings. *)
Definition Array_sort (l : list num) : list num :=
  stable_sort (fun a b => String.ltb (num_toString a) (num_toString b)) l.

(** The comparison of the loop and the prefix of the lowest label. *)
Definition below (v : variant) (value : value) (endpoint : num) : bool :=
  match v with
  | Numbers => js_lt value (VNum endpoint)
  | BigNumbers => js_le value (VNum endpoint)
  end.

Definition lowest_prefix (v : variant) : string :=
  match v with Numbers => "<" | BigNumbers => "<=" end.

(** The [for ... of] loop of [getFieldHashKey]. *)
Fixpoint bucket_label (v : variant) (value : value) (endpoints : list num)
  (previousEndpoint : option num) : string :=
  match endpoints with
  | [] => template (option_map num_toString previousEndpoint) ++ "+"
  | endpoint :: rest =>
      if below v value endpoint then
        match previousEndpoint with
        | None => lowest_prefix v ++ num_toString endpoint
        | Some previous => join "-" [VNum previous; VNum endpoint]
        end
      else bucket_label v value rest (Some endpoint)
  end.

Definition getFieldHashKey (v : variant) (r : record) (matchKey : string)
  (bucketEndpoints : option BucketEndpoints) : value :=
  let value := get (VObj (properties r)) (Some matchKey) in
  match bucketEndpoints with
  | None => value
  | Some endpoints => VStr (bucket_label v value (Array_sort endpoints) None)
  end.

Definition parseBucketString (v : variant) (bucketString : string) : list num :=
  if startsWith bucketString (lowest_prefix v)
  then [NegInfinity; Number (slice_from_1 bucketString)]
  else if endsWith_char bucketString "+"
  then [Number (slice_drop_last bucketString); Infinity]
  else map Number (split "-" bucketString).

(** [buckets?.[key]]. *)
Definition bucket_of (buckets : option IBuckets) (key : string)
  : option BucketEndpoints :=
  match buckets with Some b => obj_get b key | None => None end.

(** What [transformSortKeyForSort] returns: the key itself, or the function
    that reads the start of the bucket off the label. *)
Inductive iteratee : Type :=
| ByPath (sortKey : string)
| ByBucketStart (sortKey : string).

Definition transformSortKeyForSort (sortKey : string) (buckets : option IBuckets)
  : iteratee :=
  if negb (exists_ (bucket_of buckets sortKey)) then ByPath sortKey
  else ByBucketStart sortKey.

(* ================================================================= *)
(** ** Derived outputs: [aggregationFunctions] *)

(** [sources[key]] followed by a member access: a [TypeError] when the key is
    absent. *)
Definition source_state (aggregationData : IAggregationData) (key : string)
  : outcome SourceState :=
  match obj_get (METADATA_SOURCES_FIELD aggregationData) key with
  | Some s => Ok s
  | None => Throw TypeError
  end.

(** A member that is about to be used as a number: in src/aggregate.ts
    [undefined] becomes [NaN] in arithmetic, in part_000 calling a method of
    [undefined] throws. *)
Definition member (v : variant) (o : option num) : outcome num :=
  match v, o with
  | _, Some n => Ok n
  | Numbers, None => Ok NaN
  | BigNumbers, None => Throw TypeError
  end.

(** A member that is returned as it is ([.toNumber()] in part_000). *)
Definition returned (v : variant) (o : option num) : outcome value :=
  match v, o with
  | _, Some n => Ok (VNum n)
  | Numbers, None => Ok VUndefined
  | BigNumbers, None => Throw TypeError
  end.

(** The [variance] of the [standardDeviation] function. *)
Definition variance (sumOfSquares sum count : num) : num :=
  let average := div sum count in
  sub (div sumOfSquares count) (mul average average).

Definition aggregationFunctions (v : variant) (m : AggregationTypes.t)
  (aggregationData : IAggregationData) (sourceField weightField : option string)
  : outcome value :=
  match m with
  | AggregationTypes.min =>
      let? s := source_state aggregationData (template sourceField) in
      returned v (METADATA_MIN_FIELD s)
  | AggregationTypes.max =>
      let? s := source_state aggregationData (template sourceField) in
      returned v (METADATA_MAX_FIELD s)
  | AggregationTypes.sum =>
      let? s := source_state aggregationData (template sourceField) in
      returned v (METADATA_SUM_FIELD s)
  | AggregationTypes.count =>
      Ok (VNum (METADATA_COUNT_FIELD aggregationData))
  | AggregationTypes.average =>
      let? s := source_state aggregationData (template sourceField) in
      let? sum := member v (METADATA_SUM_FIELD s) in
      Ok (VNum (div sum (METADATA_COUNT_FIELD aggregationData)))
  | AggregationTypes.standardDeviation =>
      let count := METADATA_COUNT_FIELD aggregationData in
      let? s := source_state aggregationData (template sourceField) in
      let? sum := member v (METADATA_SUM_FIELD s) in
      let? s' := source_state aggregationData (template sourceField) in
      let? sumOfSquares := member v (METADATA_SUM_OF_SQUARES_FIELD s') in
      Ok (VNum (sqrt (variance sumOfSquares sum count)))
  | AggregationTypes.weightedAverage =>
      let metadataKey := getWeightedAverageMetadataKey sourceField weightField in
      let? s := source_state aggregationData metadataKey in
      let? weightedSum := member v (METADATA_WEIGHTED_SUM_FIELD s) in
      let? s' := source_state aggregationData metadataKey in
      let? totalWeight := member v (METADATA_TOTAL_WEIGHT_FIELD s') in
      Ok (VNum (div weightedSum totalWeight))
  end.

(* ================================================================= *)
(** ** The grouping engine: [aggregateInternal] *)

(** [Object.values(fields)] filtered and deduplicated, as the loop body
    computes them for every record. *)
Definition standardSourceFields (fields : list (string * IAggregationField))
  : list string :=
  uniq
    (flat_map (fun f => match sourceField f with Some s => [s] | None => [] end)
       (filter (fun f => negb (AggregationTypes.eqb (method f)
                                 AggregationTypes.weightedAverage))
          (obj_values fields))).

Definition weightedAvgFields (fields : list (string * IAggregationField))
  : list IAggregationField :=
  uniqBy (fun f => getWeightedAverageMetadataKey (sourceField f) (weightField f))
    (filter (fun f => AggregationTypes.eqb (method f)
                        AggregationTypes.weightedAverage)
       (obj_values fields))
    [].

Definition has_source (md : IAggregationData) (key : string) : bool :=
  exists_ (obj_get (METADATA_SOURCES_FIELD md) key).

(** The two [if (record[AGG_METADATA_FIELD])] blocks: the value of
    [isAggregatedRecord] after them ([false] also stands for the variable
    never having been assigned). *)
Definition isAggregatedRecord (p : IAggregationParams) (r : record) : M bool :=
  match AGG_METADATA_FIELD r with
  | None => ret false
  | Some md =>
      a0 <- (if negb (isSubset (matchKeys p) (METADATA_MATCH_KEYS_FIELD md))
             then console_log
                    (DifferentMatchKeys (METADATA_MATCH_KEYS_FIELD md)
                       (matchKeys p) r) ;;; ret false
             else ret true) ;;
      a1 <- forEach (standardSourceFields (fields p))
              (fun sourceField a =>
                 if negb (has_source md sourceField)
                 then console_log (MissingSourceField sourceField r) ;;; ret false
                 else ret a) a0 ;;
      forEach (weightedAvgFields (fields p))
        (fun f a =>
           if negb (has_source md (template (sourceField f)))
           then console_log
                  (MissingWeightedAverage (sourceField f) (weightField f) r)
                  ;;; ret false
           else ret a) a1
  end.

(** [matchKeys.map(getFieldHashKey).join("")]. *)
Definition hashKey_of (v : variant) (p : IAggregationParams) (r : record)
  : string :=
  join ""
    (map (fun matchKey =>
            getFieldHashKey v r matchKey (bucket_of (buckets p) matchKey))
       (matchKeys p)).

(** [_.set] on a record. *)
Definition set_record (r : record) (path : string) (x : value) : record :=
  match set (VObj (properties r)) path x with
  | VObj o => mkRecord o (AGG_METADATA_FIELD r)
  | _ => r
  end.

(** [_.get] on a record. *)
Definition get_record (r : record) (path : option string) : value :=
  get (VObj (properties r)) path.

(** The record of a group when its key is seen for the first time. *)
Definition new_group (v : variant) (p : IAggregationParams) (r : record)
  : record :=
  fold_left
    (fun g matchKey =>
       set_record g matchKey
         (getFieldHashKey v r matchKey (bucket_of (buckets p) matchKey)))
    (matchKeys p)
    (mkRecord [] (Some (mkAggregationData (matchKeys p) zero []))).

(** The names every object inherits from [Object.prototype]: for these
    [recordsHash[hashKey]] is truthy before any group was stored. *)
Definition Object_prototype_keys : list string :=
  ["constructor"; "__proto__"; "hasOwnProperty"; "isPrototypeOf";
   "propertyIsEnumerable"; "toLocaleString"; "toString"; "valueOf";
   "__defineGetter__"; "__defineSetter__"; "__lookupGetter__";
   "__lookupSetter__"].

(** A raw value as an operand: [+] and [*] of JavaScript, or the BigNumber
    constructor.  (What [+] does with a string operand, concatenation, is not
    modelled.) *)
Definition operand (v : variant) (x : value) : num :=
  match v with Numbers => ToNumber x | BigNumbers => toBigNumber x end.

(** [isAggregatedRecord ? metadataOnRecord[member] : raw]. *)
Definition contribution (isAgg : bool) (metadataOnRecord : option SourceState)
  (member_of : SourceState -> option num) (raw : num) : outcome num :=
  if isAgg then
    match metadataOnRecord with
    | Some s => Ok (optnum (member_of s))
    | None => Throw TypeError
    end
  else Ok raw.

(** [target += x] and [target = target.plus(x)]. *)
Definition plus_assign (v : variant) (target : option num) (x : num)
  : outcome (option num) :=
  let? old := member v target in Ok (Some (add old x)).

Definition min_assign (v : variant) (target : option num) (x : num)
  : option num :=
  match v with
  | Numbers => getMin target (Some x)
  | BigNumbers => Some (BigNumber_min (optnum target) x)
  end.

Definition max_assign (v : variant) (target : option num) (x : num)
  : option num :=
  match v with
  | Numbers => getMax target (Some x)
  | BigNumbers => Some (BigNumber_max (optnum target) x)
  end.

Definition fresh_standard : SourceState :=
  mkSourceState (Some zero) (Some zero) (Some Infinity) (Some NegInfinity)
    None None.

Definition fresh_weighted : SourceState :=
  mkSourceState None None None None (Some zero) (Some zero).

(** [record[AGG_METADATA_FIELD]?.[METADATA_SOURCES_FIELD][key]]. *)
Definition metadataOnRecord_of (r : record) (key : string) : option SourceState :=
  match AGG_METADATA_FIELD r with
  | Some md => obj_get (METADATA_SOURCES_FIELD md) key
  | None => None
  end.

(** One turn of [standardSourceFields.forEach]. *)
Definition fold_standard (v : variant) (r : record) (isAgg : bool)
  (sourceField : string) (sources : list (string * SourceState))
  : outcome (list (string * SourceState)) :=
  let metadataInHash :=
    match obj_get sources sourceField with
    | Some s => s
    | None => fresh_standard
    end in
  let newValue := operand v (get_record r (Some sourceField)) in
  let metadataOnRecord := metadataOnRecord_of r sourceField in
  let? c_sum := contribution isAgg metadataOnRecord METADATA_SUM_FIELD newValue in
  let? sum' := plus_assign v (METADATA_SUM_FIELD metadataInHash) c_sum in
  let? c_sq := contribution isAgg metadataOnRecord
                 METADATA_SUM_OF_SQUARES_FIELD (mul newValue newValue) in
  let? sq' := plus_assign v (METADATA_SUM_OF_SQUARES_FIELD metadataInHash) c_sq in
  let? c_min := contribution isAgg metadataOnRecord METADATA_MIN_FIELD newValue in
  let min' := min_assign v (METADATA_MIN_FIELD metadataInHash) c_min in
  let? c_max := contribution isAgg metadataOnRecord METADATA_MAX_FIELD newValue in
  let max' := max_assign v (METADATA_MAX_FIELD metadataInHash) c_max in
  Ok (obj_set sources sourceField
        (mkSourceState sum' sq' min' max'
           (METADATA_WEIGHTED_SUM_FIELD metadataInHash)
           (METADATA_TOTAL_WEIGHT_FIELD metadataInHash))).

(** One turn of [weightedAvgFields.forEach]. *)
Definition fold_weighted (v : variant) (r : record) (isAgg : bool)
  (f : IAggregationField) (sources : list (string * SourceState))
  : outcome (list (string * SourceState)) :=
  if negb (exists_ (weightField f))
  then Throw (Error "weightedAverage aggregations must specify a weightField")
  else
    let sourceValue := operand v (get_record r (sourceField f)) in
    let weightValue := operand v (get_record r (weightField f)) in
    let metadataKey :=
      getWeightedAverageMetadataKey (sourceField f) (weightField f) in
    let metadataInHash :=
      match obj_get sources metadataKey with
      | Some s => s
      | None => fresh_weighted
      end in
    let metadataOnRecord := metadataOnRecord_of r metadataKey in
    let? c_w := contribution isAgg metadataOnRecord
                  METADATA_TOTAL_WEIGHT_FIELD weightValue in
    let? tw' := plus_assign v (METADATA_TOTAL_WEIGHT_FIELD metadataInHash) c_w in
    let? c_s := contribution isAgg metadataOnRecord
                  METADATA_WEIGHTED_SUM_FIELD (mul sourceValue weightValue) in
    let? ws' := plus_assign v (METADATA_WEIGHTED_SUM_FIELD metadataInHash) c_s in
    Ok (obj_set sources metadataKey
          (mkSourceState (METADATA_SUM_FIELD metadataInHash)
             (METADATA_SUM_OF_SQUARES_FIELD metadataInHash)
             (METADATA_MIN_FIELD metadataInHash)
             (METADATA_MAX_FIELD metadataInHash) ws' tw')).

(** The count a record brings: its stored count when it is taken as an
    aggregate, 1 otherwise. *)
Definition count_contribution (isAgg : bool) (r : record) : outcome num :=
  if isAgg then
    match AGG_METADATA_FIELD r with
    | Some md => Ok (METADATA_COUNT_FIELD md)
    | None => Throw TypeError
    end
  else Ok one.

(** The body of [for (const record of records)]. *)
Definition fold_record (v : variant) (p : IAggregationParams)
  (r : record) (recordsHash : list (string * record))
  : M (list (string * record)) :=
  isAgg <- isAggregatedRecord p r ;;
  let hashKey := hashKey_of v p r in
  group <- match obj_get recordsHash hashKey with
           | Some g => ret g
           | None =>
               if existsb (String.eqb hashKey) Object_prototype_keys
               then throw TypeError
               else ret (new_group v p r)
           end ;;
  md <- match AGG_METADATA_FIELD group with
        | Some md => ret md
        | None => throw TypeError
        end ;;
  c <- lift (count_contribution isAgg r) ;;
  let count' := add (METADATA_COUNT_FIELD md) c in
  sources1 <- forEach (standardSourceFields (fields p))
                (fun sourceField s => lift (fold_standard v r isAgg sourceField s))
                (METADATA_SOURCES_FIELD md) ;;
  sources2 <- forEach (weightedAvgFields (fields p))
                (fun f s => lift (fold_weighted v r isAgg f s)) sources1 ;;
  ret (obj_set recordsHash hashKey
         (mkRecord (properties group)
            (Some (mkAggregationData (METADATA_MATCH_KEYS_FIELD md)
                     count' sources2)))).

(** The whole loop. *)
Definition accumulate (v : variant) (p : IAggregationParams)
  : M (list (string * record)) :=
  forEach (records p) (fold_record v p) [].

(** [Object.keys(fields).forEach(...)] for one group. *)
Definition derive_fields (v : variant) (p : IAggregationParams) (group : record)
  : M record :=
  g <- forEach (obj_keys (fields p))
         (fun outputField g =>
            match obj_get (fields p) outputField with
            | None => throw TypeError
            | Some f =>
                match AGG_METADATA_FIELD g with
                | None => throw TypeError
                | Some md =>
                    x <- lift (aggregationFunctions v (method f) md
                                 (sourceField f) (weightField f)) ;;
                    ret (set_record g outputField x)
                end
            end) group ;;
  ret (if noAggregateMetadata p
       then mkRecord (obj_delete (properties g) reserved_key) None
       else g).

(* ----------------------------------------------------------------- *)
(** *** lodash [_.sortBy] *)

Definition is_NaN (x : value) : bool :=
  match x with VNum NaN => true | _ => false end.

(** [===] on what a sort criterion can be; two objects are never the same
    object here. *)
Definition strict_eq (a b : value) : bool :=
  match a, b with
  | VUndefined, VUndefined | VNull, VNull => true
  | VBool x, VBool y => Bool.eqb x y
  | VNum x, VNum y => num_eqb x y
  | VStr x, VStr y => (x =? y)%string
  | _, _ => false
  end.

(** lodash [compareAscending] (symbols left out). *)
Definition compareAscending (value other : value) : comparison :=
  if strict_eq value other then Eq
  else
    let valIsDefined := negb (match value with VUndefined => true | _ => false end) in
    let valIsNull := match value with VNull => true | _ => false end in
    let valIsReflexive := negb (is_NaN value) in
    let othIsDefined := negb (match other with VUndefined => true | _ => false end) in
    let othIsNull := match other with VNull => true | _ => false end in
    let othIsReflexive := negb (is_NaN other) in
    if (negb othIsNull && js_lt other value)
       || (valIsNull && othIsDefined && othIsReflexive)
       || (negb valIsDefined && othIsReflexive)
       || negb valIsReflexive
    then Gt
    else if (negb valIsNull && js_lt value other)
            || (othIsNull && valIsDefined && valIsReflexive)
            || (negb othIsDefined && valIsReflexive)
            || negb othIsReflexive
    then Lt
    else Eq.

(** lodash [compareMultiple] with every order ascending; a tie is left to
    the position, which the stable sort keeps. *)
Fixpoint compareMultiple (a b : list value) : comparison :=
  match a, b with
  | x :: a', y :: b' =>
      match compareAscending x y with
      | Eq => compareMultiple a' b'
      | c => c
      end
  | _, _ => Eq
  end.

Definition apply_iteratee (v : variant) (it : iteratee) (r : record)
  : outcome value :=
  match it with
  | ByPath sortKey => Ok (get_record r (Some sortKey))
  | ByBucketStart sortKey =>
      match obj_get (properties r) sortKey with
      | Some (VStr bucketString) =>
          match parseBucketString v bucketString with
          | bucketStart :: _ => Ok (VNum bucketStart)
          | [] => Ok VUndefined
          end
      | _ => Throw TypeError
      end
  end.

Fixpoint criteria_of (v : variant) (its : list iteratee) (r : record)
  : outcome (list value) :=
  match its with
  | [] => Ok []
  | it :: its' =>
      let? x := apply_iteratee v it r in
      let? xs := criteria_of v its' r in
      Ok (x :: xs)
  end.

Fixpoint with_criteria (v : variant) (its : list iteratee) (l : list record)
  : outcome (list (list value * record)) :=
  match l with
  | [] => Ok []
  | r :: l' =>
      let? c := criteria_of v its r in
      let? rest := with_criteria v its l' in
      Ok ((c, r) :: rest)
  end.

Definition sortBy_ (v : variant) (l : list record) (its : list iteratee)
  : outcome (list record) :=
  let? keyed := with_criteria v its l in
  Ok (map snd
        (stable_sort
           (fun a b => match compareMultiple (fst a) (fst b) with
                       | Lt => true
                       | _ => false
                       end) keyed)).

Definition aggregateInternal (v : variant) (p : IAggregationParams)
  : M (list record) :=
  recordsHash <- accumulate v p ;;
  aggregatedRecords <- forEach (obj_entries recordsHash)
                         (fun entry done =>
                            g <- derive_fields v p (snd entry) ;;
                            ret (done ++ [g])%list) [] ;;
  match sortBy p with
  | Some keys =>
      lift (sortBy_ v aggregatedRecords
              (map (fun sortKey => transformSortKeyForSort sortKey (buckets p))
                 keys))
  | None => ret aggregatedRecords
  end.

(* ================================================================= *)
(** ** The entry point: [aggregate] *)

Record result : Type := mkResult {
  aggregatedRecords : list record;
  totals : option record          (* [None]: [undefined] *)
}.

(** [delete record[AGG_METADATA_FIELD]]. *)
Definition delete_metadata (r : record) : record :=
  mkRecord (obj_delete (properties r) reserved_key) None.

Definition aggregate (v : variant) (p : IAggregationParams) : M result :=
  aggregatedRecords <-
    aggregateInternal v
      (mkParams (records p) (matchKeys p) (buckets p) (fields p) false (sortBy p)) ;;
  totalsList <-
    aggregateInternal v
      (mkParams (records p) [] None (fields p) false (sortBy p)) ;;
  let totals := hd_error totalsList in
  if noAggregateMetadata p then
    let stripped := map delete_metadata aggregatedRecords in
    match totals with
    | Some t => ret (mkResult stripped (Some (delete_metadata t)))
    | None => throw TypeError
    end
  else ret (mkResult aggregatedRecords totals).

(* ================================================================= *)
(** ** Reading results, and the inputs of the examples *)

Definition raw (o : list (string * value)) : record := mkRecord o None.

Definition int (z : Z) : value := VNum (ofZ z).

(** A record carries the reserved key. *)
Definition carries_metadata (r : record) : bool :=
  exists_ (AGG_METADATA_FIELD r)
  || exists_ (obj_get (properties r) reserved_key).

(** The grouped records of a run, [[]] if it threw. *)
Definition grouped (o : outcome result * list diagnostic) : list record :=
  match fst o with
  | Ok res => aggregatedRecords res
  | Throw _ => []
  end.

(** The caller-visible properties of the grouped records of a run. *)
Definition grouped_properties (o : outcome result * list diagnostic)
  : outcome (list (list (string * value))) :=
  match fst o with
  | Ok res => Ok (map properties (aggregatedRecords res))
  | Throw e => Throw e
  end.

(** Two chunks of customers of one region, with revenue and days active. *)
Definition chunk1 : list record :=
  [raw [("region", VStr "m"); ("revenue", int 10); ("days", int 1)];
   raw [("region", VStr "m"); ("revenue", int 20); ("days", int 3)]].

Definition chunk2 : list record :=
  [raw [("region", VStr "m"); ("revenue", int 30); ("days", int 4)]].

(** A request whose only field is a weighted average. *)
Definition weighted_only (rs : list record) : IAggregationParams :=
  mkParams rs ["region"] None
    [("wavg", mkField AggregationTypes.weightedAverage
                (Some "revenue") (Some "days"))]
    false None.

(** A request whose only field is a sum. *)
Definition sum_only (rs : list record) : IAggregationParams :=
  mkParams rs ["region"] None
    [("total", mkField AggregationTypes.sum (Some "revenue") None)]
    false None.

(** The aggregate of [chunk1] under [weighted_only]: its metadata has the
    state of the metric key the request needs. *)
Definition chunk1_weighted : record :=
  mkRecord [("region", VStr "m"); ("wavg", VNum (Fin (35 # 2)))]
    (Some (mkAggregationData ["region"] (ofZ 2)
             [("weightedAverage,revenue,days",
               mkSourceState None None None None
                 (Some (ofZ 70)) (Some (ofZ 4)))])).

(** The aggregate of [chunk1] under [sum_only]: its metadata has the state
    of [revenue], and none for the weighted average. *)
Definition chunk1_summed : record :=
  mkRecord [("region", VStr "m"); ("total", int 30)]
    (Some (mkAggregationData ["region"] (ofZ 2)
             [("revenue",
               mkSourceState (Some (ofZ 30)) (Some (ofZ 500))
                 (Some (ofZ 10)) (Some (ofZ 20)) None None)])).

(** The same request as [sum_only], stripping the metadata. *)
Definition sum_only_stripped (rs : list record) : IAggregationParams :=
  mkParams rs ["region"] None
    [("total", mkField AggregationTypes.sum (Some "revenue") None)]
    true None.

(** A sum and a weighted average of the same source field, as in the tests
    of the repository. *)
Definition sum_and_weighted (rs : list record) : IAggregationParams :=
  mkParams rs ["region"] None
    [("total", mkField AggregationTypes.sum (Some "revenue") None);
     ("wavg", mkField AggregationTypes.weightedAverage
                (Some "revenue") (Some "days"))]
    false None.

(** Counting by price bucket (breakpoints 0, 10, 20), unsorted. *)
Definition count_by_price (rs : list record) : IAggregationParams :=
  mkParams rs ["price"] (Some [("price", [ofZ 0; ofZ 10; ofZ 20])])
    [("n", mkField AggregationTypes.count None None)]
    false None.

Definition priced (prices : list Z) : list record :=
  map (fun z => raw [("price", int z)]) prices.

(** A weighted average that lacks its [weightField]. *)
Definition missing_weightField (rs : list record) : IAggregationParams :=
  mkParams rs ["region"] None
    [("wavg", mkField AggregationTypes.weightedAverage (Some "revenue") None)]
    false None.

(** Counting by price bucket, sorted by the bucketed key. *)
Definition by_price (endpoints : list Z) (prices : list Z) : IAggregationParams :=
  mkParams (map (fun z => raw [("price", int z)]) prices)
    ["price"] (Some [("price", map ofZ endpoints)])
    [("n", mkField AggregationTypes.count None None)]
    false (Some ["price"]).

(** Three measurements, the last one 1.00000000002. *)
Definition measurements : list record :=
  [raw [("x", int 1)]; raw [("x", int 1)];
   raw [("x", VNum (fin (100000000002 # 100000000000)))]].

Definition deviation_of_x (rs : list record) : IAggregationParams :=
  mkParams rs [] None
    [("sd", mkField AggregationTypes.standardDeviation (Some "x") None)]
    false None.

(** Grouping on two keys, counting. *)
Definition two_keys (rs : list record) : IAggregationParams :=
  mkParams rs ["first"; "second"] None
    [("n", mkField AggregationTypes.count None None)]
    false None.

Definition a_bc : record := raw [("first", VStr "a"); ("second", VStr "bc")].
Definition ab_c : record := raw [("first", VStr "ab"); ("second", VStr "c")].

(** A path that is the reserved key or goes through it. *)
Definition through_reserved_key (path : option string) : bool :=
  match path with
  | None => false
  | Some p =>
      (p =? reserved_key)%string
      || match stringToPath p with
         | k :: _ => (k =? reserved_key)%string
         | [] => false
         end
  end.

(** The condition of the specification (section 6) on a request: no path
    chosen by the caller collides with the reserved key.  The embedding keeps
    the metadata apart from the properties, and is the code for such
    requests. *)
Definition respects_reserved_key (p : IAggregationParams) : bool :=
  forallb (fun k => negb (through_reserved_key (Some k))) (matchKeys p)
  && forallb (fun kf =>
                negb (through_reserved_key (Some (fst kf)))
                && negb (through_reserved_key (sourceField (snd kf)))
                && negb (through_reserved_key (weightField (snd kf))))
       (fields p)
  && match sortBy p with
     | Some keys => forallb (fun k => negb (through_reserved_key (Some k))) keys
     | None => true
     end.

(** The test that [isAggregatedRecord] comes to, in closed form: the match
    keys are contained, every standard source field has a state, and for
    every weighted average the state looked up is the one of its
    [sourceField] (not of its metric key). *)
Definition classified_as_aggregate (p : IAggregationParams) (r : record) : bool :=
  match AGG_METADATA_FIELD r with
  | None => false
  | Some md =>
      isSubset (matchKeys p) (METADATA_MATCH_KEYS_FIELD md)
      && forallb (has_source md) (standardSourceFields (fields p))
      && forallb (fun f => has_source md (template (sourceField f)))
           (weightedAvgFields (fields p))
  end.

(** A computation that throws whatever the log is. *)
Definition throws {A : Type} (m : M A) : Prop :=
  forall l, exists e l', m l = (Throw e, l').

(** The counts of the groups agree with the number of times each key was
    met. *)
Definition counts_agree (keys : list string) (h : list (string * record)) : Prop :=
  forall key,
    match obj_get h key with
    | Some g =>
        exists md, AGG_METADATA_FIELD g = Some md
                   /\ METADATA_COUNT_FIELD md
                      = ofZ (Z.of_nat (count_occ string_dec keys key))
    | None => count_occ string_dec keys key = 0%nat
    end.

(** Breakpoints in strictly ascending numeric order. *)
Definition ascending (l : list num) : Prop :=
  StronglySorted (fun a b => lt a b = true) l.

(* ================================================================= *)
(** ** Notions used by the further properties *)

(** [forEach] whose body only computes (no log): the fold in [outcome]. *)
Fixpoint foldM {A S : Type} (F : A -> S -> outcome S) (l : list A) (s : S)
  : outcome S :=
  match l with
  | [] => Ok s
  | x :: l' => obind (F x s) (foldM F l')
  end.

(** The metric keys a request keeps a state for. *)
Definition metric_keys (p : IAggregationParams) : list string :=
  (standardSourceFields (fields p)
     ++ map (fun f => getWeightedAverageMetadataKey (sourceField f) (weightField f))
          (weightedAvgFields (fields p)))%list.

(** The request of the totals: the second call in [aggregate]. *)
Definition totals_request (p : IAggregationParams) : IAggregationParams :=
  mkParams (records p) [] None (fields p) false (sortBy p).

(** The request of the grouped records: the first call in [aggregate]. *)
Definition grouped_request (p : IAggregationParams) : IAggregationParams :=
  mkParams (records p) (matchKeys p) (buckets p) (fields p) false (sortBy p).

(** What one turn of the loop makes of the hash, the diagnostics left out:
    [fold_record] with [isAggregatedRecord] in its closed form. *)
Definition fold_record_value (v : variant) (p : IAggregationParams)
  (r : record) (recordsHash : list (string * record))
  : outcome (list (string * record)) :=
  let isAgg := classified_as_aggregate p r in
  let hashKey := hashKey_of v p r in
  let? group := match obj_get recordsHash hashKey with
                | Some g => Ok g
                | None =>
                    if existsb (String.eqb hashKey) Object_prototype_keys
                    then Throw TypeError
                    else Ok (new_group v p r)
                end in
  let? md := match AGG_METADATA_FIELD group with
             | Some md => Ok md
             | None => Throw TypeError
             end in
  let? c := count_contribution isAgg r in
  let? sources1 := foldM (fold_standard v r isAgg)
                     (standardSourceFields (fields p))
                     (METADATA_SOURCES_FIELD md) in
  let? sources2 := foldM (fold_weighted v r isAgg)
                     (weightedAvgFields (fields p)) sources1 in
  Ok (obj_set recordsHash hashKey
        (mkRecord (properties group)
           (Some (mkAggregationData (METADATA_MATCH_KEYS_FIELD md)
                    (add (METADATA_COUNT_FIELD md) c) sources2)))).

(** One turn of [Object.keys(fields).forEach] in [derive_fields]. *)
Definition derive_field (v : variant) (p : IAggregationParams)
  (outputField : string) (g : record) : outcome record :=
  match obj_get (fields p) outputField with
  | None => Throw TypeError
  | Some f =>
      match AGG_METADATA_FIELD g with
      | None => Throw TypeError
      | Some md =>
          let? x := aggregationFunctions v (method f) md
                      (sourceField f) (weightField f) in
          Ok (set_record g outputField x)
      end
  end.

(** [derive_fields] without the log. *)
Definition derive_group (v : variant) (p : IAggregationParams) (g : record)
  : outcome record :=
  let? g' := foldM (derive_field v p) (obj_keys (fields p)) g in
  Ok (if noAggregateMetadata p
      then mkRecord (obj_delete (properties g') reserved_key) None
      else g').

Fixpoint mapM {A B : Type} (F : A -> outcome B) (l : list A) : outcome (list B) :=
  match l with
  | [] => Ok []
  | x :: l' => let? y := F x in let? ys := mapM F l' in Ok (y :: ys)
  end.

(** The outcome of [aggregateInternal], the diagnostics left out. *)
Definition aggregateInternal_value (v : variant) (p : IAggregationParams)
  : outcome (list record) :=
  let? recordsHash := foldM (fold_record_value v p) (records p) [] in
  let? aggregatedRecords :=
    mapM (fun entry => derive_group v p (snd entry)) (obj_entries recordsHash) in
  match sortBy p with
  | Some keys =>
      sortBy_ v aggregatedRecords
        (map (fun sortKey => transformSortKeyForSort sortKey (buckets p)) keys)
  | None => Ok aggregatedRecords
  end.

(** The outcome of [aggregate], the diagnostics left out. *)
Definition aggregate_value (v : variant) (p : IAggregationParams)
  : outcome result :=
  let? aggregatedRecords := aggregateInternal_value v (grouped_request p) in
  let? totalsList := aggregateInternal_value v (totals_request p) in
  let totals := hd_error totalsList in
  if noAggregateMetadata p then
    match totals with
    | Some t => Ok (mkResult (map delete_metadata aggregatedRecords)
                      (Some (delete_metadata t)))
    | None => Throw TypeError
    end
  else Ok (mkResult aggregatedRecords totals).

(** A group as the loop keeps it: metadata with the match keys of the
    request and a state for exactly the metric keys of the request. *)
Definition group_ok (p : IAggregationParams) (g : record) : Prop :=
  exists md,
    AGG_METADATA_FIELD g = Some md
    /\ METADATA_MATCH_KEYS_FIELD md = matchKeys p
    /\ forall k, In k (map fst (METADATA_SOURCES_FIELD md)) <-> In k (metric_keys p).

(** A request with its [sortBy] taken away. *)
Definition unsorted_request (p : IAggregationParams) : IAggregationParams :=
  mkParams (records p) (matchKeys p) (buckets p) (fields p)
    (noAggregateMetadata p) None.

(** A request with other records. *)
Definition with_records (p : IAggregationParams) (rs : list record)
  : IAggregationParams :=
  mkParams rs (matchKeys p) (buckets p) (fields p) (noAggregateMetadata p)
    (sortBy p).

(** What a record brings to a member of the state under [key]: the member
    of its own state when it is taken as an aggregate, the value otherwise. *)
Definition share (p : IAggregationParams) (r : record) (key : string)
  (member_of : SourceState -> option num) (raw : num) : num :=
  if classified_as_aggregate p r
  then optnum match metadataOnRecord_of r key with
              | Some s => member_of s
              | None => None
              end
  else raw.

Definition share_state (v : variant) (p : IAggregationParams) (r : record)
  (key : string) : SourceState :=
  let newValue := operand v (get_record r (Some key)) in
  mkSourceState
    (Some (share p r key METADATA_SUM_FIELD newValue))
    (Some (share p r key METADATA_SUM_OF_SQUARES_FIELD (mul newValue newValue)))
    (Some (share p r key METADATA_MIN_FIELD newValue))
    (Some (share p r key METADATA_MAX_FIELD newValue))
    None None.

(** [getMin] and [BigNumber.min], [getMax] and [BigNumber.max] on numbers. *)
Definition smaller (v : variant) (m x : num) : num :=
  match v with
  | Numbers => if lt x m then x else m
  | BigNumbers => BigNumber_min m x
  end.

Definition larger (v : variant) (m x : num) : num :=
  match v with
  | Numbers => if lt m x then x else m
  | BigNumbers => BigNumber_max m x
  end.

(** The four assignments of [standardSourceFields.forEach], on two states. *)
Definition join_states (v : variant) (inHash onRecord : SourceState)
  : SourceState :=
  mkSourceState
    (Some (add (optnum (METADATA_SUM_FIELD inHash))
             (optnum (METADATA_SUM_FIELD onRecord))))
    (Some (add (optnum (METADATA_SUM_OF_SQUARES_FIELD inHash))
             (optnum (METADATA_SUM_OF_SQUARES_FIELD onRecord))))
    (Some (smaller v (optnum (METADATA_MIN_FIELD inHash))
             (optnum (METADATA_MIN_FIELD onRecord))))
    (Some (larger v (optnum (METADATA_MAX_FIELD inHash))
             (optnum (METADATA_MAX_FIELD onRecord))))
    (METADATA_WEIGHTED_SUM_FIELD inHash)
    (METADATA_TOTAL_WEIGHT_FIELD inHash).

Definition absorb_standard (v : variant) (p : IAggregationParams) (r : record)
  (kv : string * SourceState) : string * SourceState :=
  (fst kv, join_states v (snd kv) (share_state v p r (fst kv))).

Definition count_share (p : IAggregationParams) (r : record) : num :=
  if classified_as_aggregate p r
  then match AGG_METADATA_FIELD r with
       | Some md => METADATA_COUNT_FIELD md
       | None => one
       end
  else one.

(** One turn of the loop on the metadata of the one group of a request
    without match keys and without weighted averages. *)
Definition absorb (v : variant) (p : IAggregationParams)
  (md : IAggregationData) (r : record) : IAggregationData :=
  mkAggregationData (METADATA_MATCH_KEYS_FIELD md)
    (add (METADATA_COUNT_FIELD md) (count_share p r))
    (map (absorb_standard v p r) (METADATA_SOURCES_FIELD md)).

(** The metadata of that group before any record. *)
Definition empty_totals (p : IAggregationParams) : IAggregationData :=
  mkAggregationData [] zero
    (map (fun key => (key, fresh_standard)) (standardSourceFields (fields p))).

(** A state with its four members, the sums in lowest terms. *)
Definition settled (kv : string * SourceState) : Prop :=
  exists s q mn mx ws tw,
    snd kv = mkSourceState (Some s) (Some q) (Some mn) (Some mx) ws tw
    /\ add s zero = s /\ add q zero = q.

Definition settled_totals (p : IAggregationParams) (md : IAggregationData)
  : Prop :=
  METADATA_MATCH_KEYS_FIELD md = []
  /\ add (METADATA_COUNT_FIELD md) zero = METADATA_COUNT_FIELD md
  /\ map fst (METADATA_SOURCES_FIELD md) = standardSourceFields (fields p)
  /\ Forall settled (METADATA_SOURCES_FIELD md).

(** The totals of [chunk1] under [sum_only] in part_000. *)
Definition chunk1_totals : record :=
  mkRecord [("total", int 30)]
    (Some (mkAggregationData [] (ofZ 2)
             [("revenue",
               mkSourceState (Some (ofZ 30)) (Some (ofZ 500))
                 (Some (ofZ 10)) (Some (ofZ 20)) None None)])).

(** A name that [_.set] takes as one key and does write: no dot, no
    bracket, none of the three keys lodash refuses. *)
Definition plain_key (k : string) : bool :=
  negb (contains_char "." k || contains_char "[" k) && negb (unsafe_key k).

(** A value that the loop takes as the number [operand] makes of it.  In
    src/aggregate.ts that is a number or [undefined]: [+=] concatenates a
    string (and an object or an array, that becomes one), and [getMin] and
    [getMax] keep [null] and the booleans as they are.  part_000 hands every
    value to the BigNumber constructor. *)
Definition taken_as_number (v : variant) (x : value) : bool :=
  match v, x with
  | Numbers, (VNum _ | VUndefined) => true
  | Numbers, _ => false
  | BigNumbers, _ => true
  end.

(** The metric key of a weighted average. *)
Definition metric_key (f : IAggregationField) : string :=
  getWeightedAverageMetadataKey (sourceField f) (weightField f).

(** One turn of [standardSourceFields.forEach] for a raw record, on the
    state of its source field. *)
Definition standard_turn (v : variant) (r : record) (sourceField : string)
  (metadataInHash : SourceState) : SourceState :=
  let newValue := operand v (get_record r (Some sourceField)) in
  mkSourceState
    (Some (add (optnum (METADATA_SUM_FIELD metadataInHash)) newValue))
    (Some (add (optnum (METADATA_SUM_OF_SQUARES_FIELD metadataInHash))
             (mul newValue newValue)))
    (min_assign v (METADATA_MIN_FIELD metadataInHash) newValue)
    (max_assign v (METADATA_MAX_FIELD metadataInHash) newValue)
    (METADATA_WEIGHTED_SUM_FIELD metadataInHash)
    (METADATA_TOTAL_WEIGHT_FIELD metadataInHash).

(** One turn of [weightedAvgFields.forEach] for a raw record, on the state
    of its metric key. *)
Definition weighted_turn (v : variant) (r : record) (f : IAggregationField)
  (metadataInHash : SourceState) : SourceState :=
  let sourceValue := operand v (get_record r (sourceField f)) in
  let weightValue := operand v (get_record r (weightField f)) in
  mkSourceState
    (METADATA_SUM_FIELD metadataInHash)
    (METADATA_SUM_OF_SQUARES_FIELD metadataInHash)
    (METADATA_MIN_FIELD metadataInHash)
    (METADATA_MAX_FIELD metadataInHash)
    (Some (add (optnum (METADATA_WEIGHTED_SUM_FIELD metadataInHash))
             (mul sourceValue weightValue)))
    (Some (add (optnum (METADATA_TOTAL_WEIGHT_FIELD metadataInHash))
             weightValue)).

(** The state of a metric key in an object of states, [fresh] when there
    is none yet. *)
Definition state_in (sources : list (string * SourceState)) (key : string)
  (fresh : SourceState) : SourceState :=
  match obj_get sources key with Some s => s | None => fresh end.

(** The state of a metric key in the group of a request without match
    keys. *)
Definition state_of_totals (recordsHash : list (string * record))
  (key : string) (fresh : SourceState) : SourceState :=
  match obj_get recordsHash "" with
  | Some g =>
      match AGG_METADATA_FIELD g with
      | Some md => state_in (METADATA_SOURCES_FIELD md) key fresh
      | None => fresh
      end
  | None => fresh
  end.

(** A number that is a number. *)
Definition is_number (x : num) : bool :=
  match x with NaN => false | _ => true end.

(** What the classification of a record prints. *)
Definition warnings (p : IAggregationParams) (r : record) : list diagnostic :=
  snd (run (isAggregatedRecord p r)).

(** The metadata of a group that was just made, with the states the first
    record will find fresh. *)
Definition empty_group (p : IAggregationParams) : IAggregationData :=
  mkAggregationData (matchKeys p) zero
    (map (fun key => (key, fresh_standard)) (standardSourceFields (fields p))).

(** The metadata of a group as the loop of a request without weighted
    averages keeps it: a count in lowest terms and a settled state for each
    standard source field, in their order. *)
Definition settled_group (p : IAggregationParams) (md : IAggregationData)
  : Prop :=
  add (METADATA_COUNT_FIELD md) zero = METADATA_COUNT_FIELD md
  /\ map fst (METADATA_SOURCES_FIELD md) = standardSourceFields (fields p)
  /\ Forall settled (METADATA_SOURCES_FIELD md).

Definition settled_hash (p : IAggregationParams) (h : list (string * record))
  : Prop :=
  Forall (fun e => exists md, AGG_METADATA_FIELD (snd e) = Some md
                              /\ settled_group p md) h.

(** The number a decimal numeral stands for, read digit by digit from
    [acc]. *)
Fixpoint uint_value (d : Decimal.uint) (acc : Z) : Z :=
  match d with
  | Decimal.Nil => acc
  | Decimal.D0 l => uint_value l (acc * 10 + 0)
  | Decimal.D1 l => uint_value l (acc * 10 + 1)
  | Decimal.D2 l => uint_value l (acc * 10 + 2)
  | Decimal.D3 l => uint_value l (acc * 10 + 3)
  | Decimal.D4 l => uint_value l (acc * 10 + 4)
  | Decimal.D5 l => uint_value l (acc * 10 + 5)
  | Decimal.D6 l => uint_value l (acc * 10 + 6)
  | Decimal.D7 l => uint_value l (acc * 10 + 7)
  | Decimal.D8 l => uint_value l (acc * 10 + 8)
  | Decimal.D9 l => uint_value l (acc * 10 + 9)
  end.

(** A string of decimal digits. *)
Fixpoint all_digits (s : string) : bool :=
  match s with
  | EmptyString => true
  | String c r => is_digit c && all_digits r
  end.

(** One turn of the loop on the group of the record, when it does not
    throw: the group as it is afterwards. *)
Definition group_turn (v : variant) (p : IAggregationParams) (r : record)
  (group : option record) : record :=
  match group with
  | Some g =>
      mkRecord (properties g)
        (Some (absorb v p
                 (match AGG_METADATA_FIELD g with
                  | Some md => md
                  | None => empty_group p
                  end) r))
  | None =>
      mkRecord (properties (new_group v p r))
        (Some (absorb v p (empty_group p) r))
  end.

(** The records of a list that fall into the group of [key]. *)
Definition records_of (v : variant) (p : IAggregationParams) (key : string)
  (rs : list record) : list record :=
  filter (fun r => (hashKey_of v p r =? key)%string) rs.

(** Records of two regions, for the examples. *)
Definition two_regions : list record :=
  [raw [("region", VStr "n"); ("revenue", int 5)];
   raw [("region", VStr "m"); ("revenue", int 10)];
   raw [("region", VStr "n"); ("revenue", int 7)]].

(** A request as [sum_only], the grouped records sorted by their sum. *)
Definition sum_sorted (rs : list record) : IAggregationParams :=
  mkParams rs ["region"] None
    [("total", mkField AggregationTypes.sum (Some "revenue") None)]
    false (Some ["total"]).

(** The grouped record of a region under [sum_only] or [sum_sorted]. *)
Definition summed (region : string) (count sum sumOfSquares min max : Z)
  : record :=
  mkRecord [("region", VStr region); ("total", int sum)]
    (Some (mkAggregationData ["region"] (ofZ count)
             [("revenue",
               mkSourceState (Some (ofZ sum)) (Some (ofZ sumOfSquares))
                 (Some (ofZ min)) (Some (ofZ max)) None None)])).

(** The totals under [sum_only] or [sum_sorted]. *)
Definition summed_totals (count sum sumOfSquares min max : Z) : record :=
  mkRecord [("total", int sum)]
    (Some (mkAggregationData [] (ofZ count)
             [("revenue",
               mkSourceState (Some (ofZ sum)) (Some (ofZ sumOfSquares))
                 (Some (ofZ min)) (Some (ofZ max)) None None)])).

(** A group on its way through the loop: none yet, or one whose metadata
    are settled. *)
Definition settled_turn (p : IAggregationParams) (group : option record)
  : Prop :=
  match group with
  | Some g =>
      exists md, AGG_METADATA_FIELD g = Some md /\ settled_group p md
  | None => True
  end.

(* ================================================================= *)
(** * Facts *)

(** ** The monad *)

Lemma bind_Ok_inv {A B : Type} (m : M A) (k : A -> M B) l b l' :
  bind m k l = (Ok b, l') ->
  exists a l1, m l = (Ok a, l1) /\ k a l1 = (Ok b, l').
Proof.
  unfold bind. destruct (m l) as [[a | e] l1]; intros H.
  - exists a, l1. split; [reflexivity | exact H].
  - discriminate H.
Qed.

Lemma throws_bind_l {A B : Type} (m : M A) (k : A -> M B) :
  throws m -> throws (bind m k).
Proof.
  intros Hm l. destruct (Hm l) as (e & l' & E).
  exists e, l'. unfold bind. now rewrite E.
Qed.

Lemma throws_bind_r {A B : Type} (m : M A) (k : A -> M B) :
  (forall a, throws (k a)) -> throws (bind m k).
Proof.
  intros Hk l. unfold bind. destruct (m l) as [[a | e] l1].
  - apply Hk.
  - now exists e, l1.
Qed.

Lemma throws_lift_Throw {A : Type} (e : error) : throws (@lift A (Throw e)).
Proof. intros l. now exists e, l. Qed.

Lemma forEach_throws {A S : Type} (body : A -> S -> M S) (x : A) (l : list A) :
  In x l ->
  (forall s, throws (body x s)) ->
  forall s, throws (forEach l body s).
Proof.
  induction l as [| y l IH]; intros Hin Hx s; [destruct Hin |].
  cbn [forEach]. destruct Hin as [-> | Hin].
  - apply throws_bind_l, Hx.
  - apply throws_bind_r. intros s'. now apply IH.
Qed.

(** ** Objects *)

Lemma obj_get_set_same {A : Type} (o : list (string * A)) k x :
  obj_get (obj_set o k x) k = Some x.
Proof.
  induction o as [| [k' y] o IH]; cbn.
  - now rewrite String.eqb_refl.
  - destruct (String.eqb_spec k' k) as [-> | Hne]; cbn.
    + now rewrite String.eqb_refl.
    + destruct (String.eqb_spec k' k); [contradiction | exact IH].
Qed.

Lemma obj_get_set_other {A : Type} (o : list (string * A)) k k' x :
  k <> k' -> obj_get (obj_set o k x) k' = obj_get o k'.
Proof.
  intros Hne. induction o as [| [k0 y] o IH]; cbn.
  - destruct (String.eqb_spec k k'); [contradiction | reflexivity].
  - destruct (String.eqb_spec k0 k) as [-> | Hk]; cbn.
    + destruct (String.eqb_spec k k'); [contradiction | reflexivity].
    + destruct (String.eqb_spec k0 k'); [reflexivity | exact IH].
Qed.

Lemma insert_sorted_length {A : Type} (ltb : A -> A -> bool) x l :
  List.length (insert_sorted ltb x l) = S (List.length l).
Proof.
  induction l as [| y l IH]; cbn; [reflexivity |].
  destruct (ltb y x); cbn; [now rewrite IH | reflexivity].
Qed.

Lemma stable_sort_length {A : Type} (ltb : A -> A -> bool) l :
  List.length (stable_sort ltb l) = List.length l.
Proof.
  unfold stable_sort.
  induction l as [| x l IH]; cbn; [reflexivity |].
  now rewrite insert_sorted_length, IH.
Qed.

Lemma filter_split_length {A : Type} (f : A -> bool) l :
  (List.length (filter f l) + List.length (filter (fun x => negb (f x)) l)
   = List.length l)%nat.
Proof.
  induction l as [| x l IH]; cbn; [reflexivity |].
  destruct (f x); cbn; lia.
Qed.

Lemma obj_entries_length {A : Type} (o : list (string * A)) :
  List.length (obj_entries o) = List.length o.
Proof.
  unfold obj_entries. rewrite length_app, stable_sort_length.
  apply (filter_split_length (fun kv => is_index (fst kv))).
Qed.

(** ** Numbers *)

Lemma Qred_inject_Z z : Qred (inject_Z z) = inject_Z z.
Proof.
  unfold Qred, inject_Z.
  pose proof (Z.ggcd_gcd z 1) as Hg.
  pose proof (Z.ggcd_correct_divisors z 1) as Hd.
  destruct (Z.ggcd z 1) as [g [aa bb]]. cbn in Hg.
  rewrite Z.gcd_1_r in Hg. subst g. destruct Hd as [Ha Hb].
  rewrite Z.mul_1_l in Ha, Hb. now subst.
Qed.

Lemma add_ofZ a b : add (ofZ a) (ofZ b) = ofZ (a + b).
Proof.
  unfold add, ofZ, fin. f_equal.
  rewrite <- inject_Z_plus. apply Qred_inject_Z.
Qed.

Lemma lt_zero_sign q : lt (Fin q) zero = true -> Qsign q = Lt.
Proof.
  unfold lt, zero, ofZ, Qltb, Qsign. intros H.
  apply negb_true_iff in H.
  destruct (Qnum q ?= 0) eqn:E; [| reflexivity |].
  - apply Z.compare_eq in E.
    assert (Hle : Qle_bool (inject_Z 0) q = true).
    { apply Qle_bool_iff. unfold Qle. cbn. lia. }
    congruence.
  - apply Z.compare_gt_iff in E.
    assert (Hle : Qle_bool (inject_Z 0) q = true).
    { apply Qle_bool_iff. unfold Qle. cbn. lia. }
    congruence.
Qed.

(** The square root of a negative number is not a number: nothing clamps. *)
Lemma sqrt_negative x : lt x zero = true -> sqrt x = NaN.
Proof.
  destruct x as [| | | q]; intros H.
  - reflexivity.
  - reflexivity.
  - discriminate H.
  - unfold sqrt. now rewrite (lt_zero_sign q H).
Qed.

(** ** The fold of one record *)

Lemma bind_Ok_eq {A B : Type} (m : M A) (k : A -> M B) l a l1 :
  m l = (Ok a, l1) -> bind m k l = k a l1.
Proof. intros E. unfold bind. now rewrite E. Qed.

Lemma forEach_flag {A : Type} (c : A -> bool) (w : A -> diagnostic) l :
  forall a0 lg,
  exists lg',
    forEach l (fun x a => if negb (c x)
                          then console_log (w x) ;;; ret false
                          else ret a) a0 lg
    = (Ok (a0 && forallb c l), lg').
Proof.
  induction l as [| x l IH]; intros a0 lg; cbn [forEach forallb].
  - exists lg. now rewrite andb_true_r.
  - destruct (c x) eqn:E; cbn [negb].
    + destruct (IH a0 lg) as [lg' H]. exists lg'.
      rewrite (bind_Ok_eq _ _ lg a0 lg); [| reflexivity].
      now rewrite H.
    + destruct (IH false (lg ++ [w x])%list) as [lg' H]. exists lg'.
      rewrite (bind_Ok_eq _ _ lg false (lg ++ [w x])%list); [| reflexivity].
      rewrite H. now rewrite andb_false_r.
Qed.

(** What [isAggregatedRecord] ends up as. *)
Lemma isAggregatedRecord_value p r l :
  exists l', isAggregatedRecord p r l = (Ok (classified_as_aggregate p r), l').
Proof.
  unfold isAggregatedRecord, classified_as_aggregate.
  destruct (AGG_METADATA_FIELD r) as [md |]; [| now exists l].
  set (sub := isSubset (matchKeys p) (METADATA_MATCH_KEYS_FIELD md)).
  assert (H0 : exists l0,
             (if negb sub
              then console_log
                     (DifferentMatchKeys (METADATA_MATCH_KEYS_FIELD md)
                        (matchKeys p) r) ;;; ret false
              else ret true) l = (Ok sub, l0)).
  { destruct sub; cbn; eexists; reflexivity. }
  destruct H0 as [l0 H0]. rewrite (bind_Ok_eq _ _ _ _ _ H0).
  destruct (forEach_flag (has_source md) (fun sf => MissingSourceField sf r)
              (standardSourceFields (fields p)) sub l0) as [l1 H1].
  rewrite (bind_Ok_eq _ _ _ _ _ H1).
  destruct (forEach_flag (fun f => has_source md (template (sourceField f)))
              (fun f => MissingWeightedAverage (sourceField f) (weightField f) r)
              (weightedAvgFields (fields p))
              (sub && forallb (has_source md) (standardSourceFields (fields p)))
              l1) as [l2 H2].
  exists l2. exact H2.
Qed.

Lemma isAggregatedRecord_raw p r l :
  AGG_METADATA_FIELD r = None -> isAggregatedRecord p r l = (Ok false, l).
Proof. intros H. unfold isAggregatedRecord. now rewrite H. Qed.

Lemma set_record_metadata g path x :
  AGG_METADATA_FIELD (set_record g path x) = AGG_METADATA_FIELD g.
Proof. unfold set_record. now destruct (set _ _ _). Qed.

Lemma fold_set_record_metadata (F : string -> value) keys :
  forall g,
    AGG_METADATA_FIELD (fold_left (fun g k => set_record g k (F k)) keys g)
    = AGG_METADATA_FIELD g.
Proof.
  induction keys as [| k keys IH]; intros g; cbn [fold_left]; [reflexivity |].
  now rewrite IH, set_record_metadata.
Qed.

Lemma new_group_metadata v p r :
  AGG_METADATA_FIELD (new_group v p r)
  = Some (mkAggregationData (matchKeys p) zero []).
Proof.
  unfold new_group.
  apply (fold_set_record_metadata
           (fun k => getFieldHashKey v r k (bucket_of (buckets p) k))).
Qed.

Lemma forEach_lift_log {A S : Type} (F : A -> S -> outcome S) l :
  forall s lg s' lg',
    forEach l (fun x s => lift (F x s)) s lg = (Ok s', lg') -> lg' = lg.
Proof.
  induction l as [| x l IH]; intros s lg s' lg' H; cbn [forEach] in H.
  - now inversion H.
  - apply bind_Ok_inv in H as (a & l1 & H1 & H2).
    unfold lift in H1. inversion H1; subst. now apply IH in H2.
Qed.

(** What a successful turn of the loop does to the hash: the group found
    under the concatenated key (or a new one) gets the count of the record
    added, and is stored under that key. *)
Lemma fold_record_Ok v p r h l h' l' :
  fold_record v p r h l = (Ok h', l') ->
  exists group md c sources',
    (obj_get h (hashKey_of v p r) = Some group
     \/ (obj_get h (hashKey_of v p r) = None /\ group = new_group v p r))
    /\ AGG_METADATA_FIELD group = Some md
    /\ count_contribution (classified_as_aggregate p r) r = Ok c
    /\ h' = obj_set h (hashKey_of v p r)
              (mkRecord (properties group)
                 (Some (mkAggregationData (METADATA_MATCH_KEYS_FIELD md)
                          (add (METADATA_COUNT_FIELD md) c) sources')))
    /\ (AGG_METADATA_FIELD r = None -> l' = l).
Proof.
  intros H. unfold fold_record in H.
  apply bind_Ok_inv in H as (isAgg & l1 & Hagg & H).
  destruct (isAggregatedRecord_value p r l) as [l1' Hval].
  rewrite Hval in Hagg. inversion Hagg; subst isAgg l1'. clear Hagg.
  apply bind_Ok_inv in H as (group & l2 & Hgroup & H).
  apply bind_Ok_inv in H as (md & l3 & Hmd & H).
  apply bind_Ok_inv in H as (c & l4 & Hc & H).
  apply bind_Ok_inv in H as (s1 & l5 & Hs1 & H).
  apply bind_Ok_inv in H as (s2 & l6 & Hs2 & H).
  unfold ret in H. inversion H; subst h' l'. clear H.
  exists group, md, c, s2.
  assert (Hg : (obj_get h (hashKey_of v p r) = Some group
                \/ (obj_get h (hashKey_of v p r) = None
                    /\ group = new_group v p r)) /\ l2 = l1).
  { destruct (obj_get h (hashKey_of v p r)) as [g |].
    - unfold ret in Hgroup. inversion Hgroup. auto.
    - destruct (existsb _ _); [discriminate Hgroup |].
      unfold ret in Hgroup. inversion Hgroup. auto. }
  destruct Hg as [Hg ->].
  assert (Hm : AGG_METADATA_FIELD group = Some md /\ l3 = l1).
  { destruct (AGG_METADATA_FIELD group); [| discriminate Hmd].
    unfold ret in Hmd. inversion Hmd. auto. }
  destruct Hm as [Hm ->].
  unfold lift in Hc. inversion Hc; subst l4.
  apply forEach_lift_log in Hs1. apply forEach_lift_log in Hs2. subst l5 l6.
  repeat split; try assumption.
  intros Hraw. rewrite (isAggregatedRecord_raw p r l Hraw) in Hval.
  now inversion Hval.
Qed.

(** ** No records *)

Lemma aggregate_without_records v matchKeys buckets fields strip sortBy :
  run (aggregate v (mkParams [] matchKeys buckets fields strip sortBy))
  = if strip then (Throw TypeError, []) else (Ok (mkResult [] None), []).
Proof. destruct sortBy, strip; reflexivity. Qed.

(* ================================================================= *)
(** * The claims *)

(** ** C1 and C2: re-aggregation *)

(** C1, evaluated.  For a request whose only field is a weighted average,
    aggregating the two chunks at once gives 190/8 = 23.75; aggregating the
    aggregates of the chunks, or the aggregate of the first chunk with the
    records of the second, gives [NaN]: the aggregated records are taken as
    raw ones. *)
Theorem weighted_average_alone_does_not_compose :
  forall v,
    grouped_properties (run (aggregate v (weighted_only (chunk1 ++ chunk2))))
    = Ok [[("region", VStr "m"); ("wavg", VNum (Fin (95 # 4)))]]
    /\ grouped_properties
         (run (aggregate v
                 (weighted_only
                    (grouped (run (aggregate v (weighted_only chunk1)))
                     ++ grouped (run (aggregate v (weighted_only chunk2)))))))
       = Ok [[("region", VStr "m"); ("wavg", VNum NaN)]]
    /\ grouped_properties
         (run (aggregate v
                 (weighted_only
                    (grouped (run (aggregate v (weighted_only chunk1)))
                     ++ chunk2))))
       = Ok [[("region", VStr "m"); ("wavg", VNum NaN)]].
Proof. intros []; repeat split; vm_compute; reflexivity. Qed.

(** When the source field of the weighted average is also summed, its state
    is present under the name the loop looks for, and the same chunks
    compose: this is the shape of every composition in the tests. *)
Lemma weighted_average_with_a_sum_composes :
  forall v,
    grouped (run (aggregate v
                    (sum_and_weighted
                       (grouped (run (aggregate v (sum_and_weighted chunk1)))
                        ++ grouped (run (aggregate v (sum_and_weighted chunk2)))))))
    = grouped (run (aggregate v (sum_and_weighted (chunk1 ++ chunk2))))
    /\ grouped (run (aggregate v
                       (sum_and_weighted
                          (grouped (run (aggregate v (sum_and_weighted chunk1)))
                           ++ chunk2))))
       = grouped (run (aggregate v (sum_and_weighted (chunk1 ++ chunk2))))
    /\ grouped_properties (run (aggregate v (sum_and_weighted (chunk1 ++ chunk2))))
       = Ok [[("region", VStr "m"); ("total", int 60);
              ("wavg", VNum (Fin (95 # 4)))]].
Proof. intros []; repeat split; vm_compute; reflexivity. Qed.

(** A bucketed key does not compose either: an aggregated record holds the
    label of its bucket where a raw record holds the number, every comparison
    of a label with a breakpoint is false, and the record lands in the last
    bucket. *)
Lemma bucketed_aggregates_land_in_the_last_bucket :
  forall v lowest,
    lowest = match v with Numbers => "<0" | BigNumbers => "<=0" end ->
    grouped_properties (run (aggregate v (count_by_price (priced [-1; 5; 15]))))
    = Ok [[("price", VStr lowest); ("n", int 1)];
          [("price", VStr "0-10"); ("n", int 1)];
          [("price", VStr "10-20"); ("n", int 1)]]
    /\ grouped_properties
         (run (aggregate v
                 (count_by_price
                    (grouped (run (aggregate v (count_by_price (priced [-1; 5]))))
                     ++ priced [15]))))
       = Ok [[("price", VStr "20+"); ("n", int 2)];
             [("price", VStr "10-20"); ("n", int 1)]].
Proof. intros [] lowest ->; split; vm_compute; reflexivity. Qed.

Lemma chunk1_aggregates :
  forall v,
    grouped (run (aggregate v (weighted_only chunk1))) = [chunk1_weighted]
    /\ grouped (run (aggregate v (sum_only chunk1))) = [chunk1_summed].
Proof. intros []; split; vm_compute; reflexivity. Qed.

(** C2, evaluated.  Under [weighted_only] the record [chunk1_weighted] has
    the match keys and the metric state the request needs, and is classified
    as raw, with a diagnostic.  The record [chunk1_summed] lacks the metric
    state, is classified as an aggregate without any diagnostic, and the
    invocation throws. *)
Theorem weighted_metric_is_looked_up_by_sourceField :
  run (isAggregatedRecord (weighted_only []) chunk1_weighted)
  = (Ok false,
     [MissingWeightedAverage (Some "revenue") (Some "days") chunk1_weighted])
  /\ run (isAggregatedRecord (weighted_only []) chunk1_summed) = (Ok true, [])
  /\ forall v,
      run (aggregate v (weighted_only [chunk1_summed])) = (Throw TypeError, []).
Proof.
  split; [| split].
  - vm_compute. reflexivity.
  - vm_compute. reflexivity.
  - intros []; vm_compute; reflexivity.
Qed.

(** ** C3 and C6: bucket assignment *)

(** C3, evaluated.  In src/aggregate.ts a value on a breakpoint goes to the
    upper bucket: with breakpoints 0, 10, 20 the value 0 is labelled ["0-10"]
    and 10 is labelled ["10-20"].  part_000 gives ["<=0"] and ["0-10"] there,
    but for the ascending breakpoints 5, 10 (which [sort()] orders as the
    strings ["10"], ["5"]) it labels 7 as ["<=10"] and 12 as ["5+"]. *)
Theorem boundary_values_and_string_sorted_breakpoints :
  (getFieldHashKey Numbers (raw [("price", int 0)]) "price"
     (Some [ofZ 0; ofZ 10; ofZ 20]) = VStr "0-10"
   /\ getFieldHashKey Numbers (raw [("price", int 10)]) "price"
        (Some [ofZ 0; ofZ 10; ofZ 20]) = VStr "10-20")
  /\ (getFieldHashKey BigNumbers (raw [("price", int 0)]) "price"
        (Some [ofZ 0; ofZ 10; ofZ 20]) = VStr "<=0"
      /\ getFieldHashKey BigNumbers (raw [("price", int 10)]) "price"
           (Some [ofZ 0; ofZ 10; ofZ 20]) = VStr "0-10")
  /\ (getFieldHashKey BigNumbers (raw [("price", int 7)]) "price"
        (Some [ofZ 5; ofZ 10]) = VStr "<=10"
      /\ getFieldHashKey BigNumbers (raw [("price", int 12)]) "price"
           (Some [ofZ 5; ofZ 10]) = VStr "5+").
Proof. repeat split; vm_compute; reflexivity. Qed.

(** C6, evaluated.  [sort()] without a compare function orders the
    breakpoints as strings: 10 and 2 stay 10, 2, and so do 2 and 10.  The
    value 5 is then labelled ["<=10"] (["<10"] in src/aggregate.ts), while
    the loop over the ascending sequence 2, 10 gives ["2-10"]. *)
Theorem breakpoints_are_sorted_as_strings :
  Array_sort [ofZ 10; ofZ 2] = [ofZ 10; ofZ 2]
  /\ Array_sort [ofZ 2; ofZ 10] = [ofZ 10; ofZ 2]
  /\ getFieldHashKey BigNumbers (raw [("price", int 5)]) "price"
       (Some [ofZ 10; ofZ 2]) = VStr "<=10"
  /\ getFieldHashKey Numbers (raw [("price", int 5)]) "price"
       (Some [ofZ 10; ofZ 2]) = VStr "<10"
  /\ forall v, bucket_label v (int 5) [ofZ 2; ofZ 10] None = "2-10".
Proof.
  repeat split; try (vm_compute; reflexivity).
  intros []; vm_compute; reflexivity.
Qed.

(** Assignment is total: with breakpoints the result is always a label. *)
Lemma getFieldHashKey_total v r matchKey endpoints :
  exists label, getFieldHashKey v r matchKey (Some endpoints) = VStr label.
Proof. unfold getFieldHashKey. eexists. reflexivity. Qed.

(** *** The loop on ascending breakpoints

    What goes wrong in C3 and C6 is the order in which the loop gets the
    breakpoints (and, in src/aggregate.ts, the comparison).  On a sequence
    that is ascending the loop of part_000 meets the contract of the
    specification. *)

Lemma Qltb_lt x y : Qltb x y = true <-> (x < y)%Q.
Proof.
  unfold Qltb. rewrite negb_true_iff. split.
  - intros H. apply Qnot_le_lt. intros Hle.
    apply Qle_bool_iff in Hle. congruence.
  - intros H. destruct (Qle_bool y x) eqn:E; [| reflexivity].
    apply Qle_bool_iff in E. exfalso. exact (Qlt_not_le _ _ H E).
Qed.

Lemma lt_le_false a x : lt a x = true -> le x a = false.
Proof.
  destruct a as [| | | p], x as [| | | q]; cbn [lt le];
    try reflexivity; try discriminate.
  unfold Qltb. now rewrite negb_true_iff.
Qed.

Lemma lt_asym a x : lt a x = true -> lt x a = false.
Proof.
  destruct a as [| | | p], x as [| | | q]; cbn [lt];
    try reflexivity; try discriminate.
  intros H. apply Qltb_lt in H.
  destruct (Qltb q p) eqn:E; [| reflexivity].
  apply Qltb_lt in E. exfalso. exact (Qlt_irrefl _ (Qlt_trans _ _ _ H E)).
Qed.

Lemma lt_irrefl a : lt a a = false.
Proof.
  destruct (lt a a) eqn:E; [| reflexivity].
  pose proof (lt_asym _ _ E). congruence.
Qed.

Lemma lt_trans a b c : lt a b = true -> lt b c = true -> lt a c = true.
Proof.
  destruct a as [| | | p], b as [| | | q], c as [| | | r]; cbn [lt];
    try reflexivity; try discriminate.
  rewrite !Qltb_lt. apply Qlt_trans.
Qed.

Lemma ascending_before l1 a rest :
  ascending (l1 ++ a :: rest) -> Forall (fun e => lt e a = true) l1.
Proof.
  unfold ascending. induction l1 as [| e l1 IH]; cbn; intros H; [constructor |].
  inversion H as [| ? ? Hs Hall]; subst. constructor; [| now apply IH].
  rewrite Forall_forall in Hall. apply Hall, in_elt.
Qed.

Lemma ascending_after l1 rest : ascending (l1 ++ rest) -> ascending rest.
Proof.
  unfold ascending. induction l1 as [| e l1 IH]; cbn; intros H; [exact H |].
  inversion H; subst. now apply IH.
Qed.

Lemma bucket_label_skip v x l :
  forall prev a rest,
    Forall (fun e => below v x e = false) (l ++ [a]) ->
    bucket_label v x ((l ++ [a]) ++ rest) prev
    = bucket_label v x rest (Some a).
Proof.
  induction l as [| e l IH]; intros prev a rest H;
    inversion H as [| ? ? He Hl]; subst; cbn [app bucket_label]; rewrite He.
  - reflexivity.
  - now apply IH.
Qed.

(** part_000 on ascending breakpoints: at most the first gives ["<=b0"],
    above one and at most the next gives ["bi-bj"], above the last gives
    ["bn+"]. *)
Lemma part_000_loop_meets_the_contract (x : num) :
  (forall b rest,
      le x b = true ->
      bucket_label BigNumbers (VNum x) (b :: rest) None
      = "<=" ++ num_toString b)
  /\ (forall l1 a b l2,
        ascending (l1 ++ a :: b :: l2) ->
        lt a x = true -> le x b = true ->
        bucket_label BigNumbers (VNum x) (l1 ++ a :: b :: l2) None
        = num_toString a ++ "-" ++ num_toString b)
  /\ (forall l b,
        ascending (l ++ [b]) ->
        lt b x = true ->
        bucket_label BigNumbers (VNum x) (l ++ [b]) None
        = num_toString b ++ "+").
Proof.
  assert (Hskip : forall l a rest,
             ascending (l ++ a :: rest) -> lt a x = true ->
             Forall (fun e => below BigNumbers (VNum x) e = false) (l ++ [a])).
  { intros l a rest Hasc Hax. apply Forall_app. split.
    - apply ascending_before in Hasc.
      apply (Forall_impl _ (P := fun e => lt e a = true)); [| exact Hasc].
      intros e He. cbn. apply lt_le_false. now apply (lt_trans e a x).
    - constructor; [| constructor]. cbn. now apply lt_le_false. }
  split; [| split].
  - intros b rest Hle. cbn [bucket_label below js_le ToNumber lowest_prefix].
    now rewrite Hle.
  - intros l1 a b l2 Hasc Hax Hxb.
    replace (l1 ++ a :: b :: l2)%list with ((l1 ++ [a]) ++ b :: l2)%list
      by now rewrite <- app_assoc.
    rewrite bucket_label_skip by now apply (Hskip l1 a (b :: l2)).
    cbn [bucket_label below js_le ToNumber]. rewrite Hxb.
    cbn [join map ToString String.concat]. reflexivity.
  - intros l b Hasc Hbx.
    replace (l ++ [b])%list with ((l ++ [b]) ++ [])%list
      by now rewrite app_nil_r.
    rewrite bucket_label_skip by now apply (Hskip l b []).
    reflexivity.
Qed.

(** src/aggregate.ts on ascending breakpoints: a value that is a breakpoint
    (other than the last) is labelled with the bucket that starts there, the
    upper one. *)
Lemma aggregate_ts_loop_puts_a_breakpoint_in_the_upper_bucket l1 a b l2 :
  ascending (l1 ++ a :: b :: l2) ->
  bucket_label Numbers (VNum a) (l1 ++ a :: b :: l2) None
  = num_toString a ++ "-" ++ num_toString b.
Proof.
  intros Hasc.
  assert (Hab : lt a b = true).
  { pose proof (ascending_after _ _ Hasc) as Hrest.
    inversion Hrest as [| ? ? _ Hall]; subst. now inversion Hall. }
  replace (l1 ++ a :: b :: l2)%list with ((l1 ++ [a]) ++ b :: l2)%list
    by now rewrite <- app_assoc.
  rewrite bucket_label_skip.
  - cbn [bucket_label below js_lt ToNumber]. rewrite Hab.
    cbn [join map ToString String.concat]. reflexivity.
  - apply Forall_app. split.
    + apply ascending_before in Hasc.
      apply (Forall_impl _ (P := fun e => lt e a = true)); [| exact Hasc].
      intros e He. cbn. now apply lt_asym.
    + constructor; [| constructor]. cbn. apply lt_irrefl.
Qed.

(** ** C4: configuration errors *)


Lemma fold_weighted_without_weightField v r isAgg f s :
  weightField f = None ->
  fold_weighted v r isAgg f s
  = Throw (Error "weightedAverage aggregations must specify a weightField").
Proof. intros H. unfold fold_weighted. now rewrite H. Qed.

Lemma fold_record_throws v p r h f :
  In f (weightedAvgFields (fields p)) ->
  weightField f = None ->
  throws (fold_record v p r h).
Proof.
  intros Hin Hw. unfold fold_record.
  do 5 (apply throws_bind_r; intros ?).
  apply throws_bind_l.
  apply (forEach_throws _ f); [exact Hin |].
  intros s. rewrite (fold_weighted_without_weightField _ _ _ _ _ Hw).
  apply throws_lift_Throw.
Qed.



(** ** C5: stripped output is raw input *)

Lemma count_contribution_raw p r :
  AGG_METADATA_FIELD r = None ->
  count_contribution (classified_as_aggregate p r) r = Ok one.
Proof.
  intros H. unfold classified_as_aggregate. now rewrite H.
Qed.

Lemma fold_record_counts v p r h l h' l' done :
  AGG_METADATA_FIELD r = None ->
  counts_agree done h ->
  fold_record v p r h l = (Ok h', l') ->
  counts_agree (done ++ [hashKey_of v p r]) h' /\ l' = l.
Proof.
  intros Hraw Hinv H.
  apply fold_record_Ok in H
    as (group & md & c & sources' & Hg & Hm & Hc & -> & Hl).
  rewrite (count_contribution_raw p r Hraw) in Hc. inversion Hc; subst c.
  split; [| now apply Hl].
  intros key. rewrite count_occ_app. cbn [count_occ].
  destruct (string_dec (hashKey_of v p r) key) as [<- | Hne].
  - rewrite obj_get_set_same. eexists. split; [reflexivity |].
    cbn [METADATA_COUNT_FIELD].
    specialize (Hinv (hashKey_of v p r)).
    replace (Z.of_nat (count_occ string_dec done (hashKey_of v p r) + 1))
      with (Z.of_nat (count_occ string_dec done (hashKey_of v p r)) + 1) by lia.
    rewrite <- add_ofZ. fold one. f_equal.
    destruct Hg as [Hg | [Hg ->]]; rewrite Hg in Hinv.
    + destruct Hinv as (md' & Hmd' & Hcount). congruence.
    + rewrite new_group_metadata in Hm. inversion Hm; subst md.
      cbn [METADATA_COUNT_FIELD]. now rewrite Hinv.
  - rewrite (obj_get_set_other _ _ _ _ Hne), Nat.add_0_r. apply Hinv.
Qed.

Lemma forEach_counts v p rs :
  Forall (fun r => AGG_METADATA_FIELD r = None) rs ->
  forall h0 done l h l',
    counts_agree done h0 ->
    forEach rs (fold_record v p) h0 l = (Ok h, l') ->
    counts_agree (done ++ map (hashKey_of v p) rs) h /\ l' = l.
Proof.
  induction 1 as [| r rs Hr Hrs IH]; intros h0 done l h l' Hinv H;
    cbn [forEach map] in *.
  - unfold ret in H. inversion H; subst. now rewrite app_nil_r.
  - apply bind_Ok_inv in H as (h1 & l1 & H1 & H2).
    destruct (fold_record_counts _ _ _ _ _ _ _ _ Hr Hinv H1) as [Hinv1 ->].
    destruct (IH _ _ _ _ _ Hinv1 H2) as [Hinv2 ->].
    split; [| reflexivity].
    now rewrite <- app_assoc in Hinv2.
Qed.

Lemma obj_get_delete {A : Type} (o : list (string * A)) k :
  obj_get (obj_delete o k) k = None.
Proof.
  unfold obj_delete. induction o as [| [k' x] o IH]; cbn; [reflexivity |].
  destruct (String.eqb_spec k' k) as [-> | Hne]; cbn; [exact IH |].
  destruct (String.eqb_spec k' k); [contradiction | exact IH].
Qed.

Lemma delete_metadata_carries_none r :
  carries_metadata (delete_metadata r) = false.
Proof.
  unfold carries_metadata, delete_metadata. cbn.
  now rewrite obj_get_delete.
Qed.

(** The shape of what [aggregate] returns when it strips. *)
Lemma aggregate_stripped v p res log :
  noAggregateMetadata p = true ->
  run (aggregate v p) = (Ok res, log) ->
  exists rs t,
    res = mkResult (map delete_metadata rs) (Some (delete_metadata t)).
Proof.
  intros Hmeta H. unfold run, aggregate in H.
  apply bind_Ok_inv in H as (rs & l1 & _ & H).
  apply bind_Ok_inv in H as (ts & l2 & _ & H).
  rewrite Hmeta in H. destruct (hd_error ts) as [t |]; [| discriminate H].
  unfold ret in H. inversion H. now exists rs, t.
Qed.

(** C5.  When [noAggregateMetadata] is set, no record that [aggregate]
    returns (grouped or totals) carries the reserved key; and when records so
    returned are the records of another aggregation (with the same match keys
    or any other), each is folded as a raw record: no diagnostic is logged
    and the count of every group is the number of records that fell into it,
    whatever was counted before the stripping.  (Requests are those of the
    specification: their paths keep clear of the reserved key.) *)
Theorem stripped_output_counts_one_per_record v p res log :
  respects_reserved_key p = true ->
  noAggregateMetadata p = true ->
  run (aggregate v p) = (Ok res, log) ->
  (Forall (fun r => carries_metadata r = false) (aggregatedRecords res)
   /\ forall t, totals res = Some t -> carries_metadata t = false)
  /\ forall v' p' h log',
       respects_reserved_key p' = true ->
       Forall (fun r => In r (aggregatedRecords res) \/ totals res = Some r)
         (records p') ->
       run (accumulate v' p') = (Ok h, log') ->
       log' = []
       /\ counts_agree (map (hashKey_of v' p') (records p')) h.
Proof.
  intros _ Hmeta H.
  destruct (aggregate_stripped v p res log Hmeta H) as (rs & t & ->).
  cbn [aggregatedRecords totals].
  split; [split |].
  - apply Forall_forall. intros r Hin. apply in_map_iff in Hin as (r0 & <- & _).
    apply delete_metadata_carries_none.
  - intros t' Ht. inversion Ht. apply delete_metadata_carries_none.
  - intros v' p' h log' _ Hfrom Hacc.
    assert (Hraw : Forall (fun r => AGG_METADATA_FIELD r = None) (records p')).
    { apply (Forall_impl _ (P := fun r => In r (map delete_metadata rs)
                                          \/ Some (delete_metadata t) = Some r));
        [| exact Hfrom].
      intros r [Hin | Ht].
      - apply in_map_iff in Hin as (r0 & <- & _). reflexivity.
      - inversion Ht. reflexivity. }
    unfold run, accumulate in Hacc.
    apply (forEach_counts v' p' _ Hraw [] [] [] h log') in Hacc.
    + destruct Hacc as [Hcounts ->]. now split.
    + intros key. reflexivity.
Qed.

Lemma stripped_output_counts_one_per_record_witness :
  (Forall (fun r => carries_metadata r = false)
     [mkRecord [("region", VStr "m"); ("total", int 60)] None]
   /\ forall t,
        Some (mkRecord [("total", int 60)] None) = Some t ->
        carries_metadata t = false)
  /\ forall v' p' h log',
       respects_reserved_key p' = true ->
       Forall (fun r =>
                 In r [mkRecord [("region", VStr "m"); ("total", int 60)] None]
                 \/ Some (mkRecord [("total", int 60)] None) = Some r)
         (records p') ->
       run (accumulate v' p') = (Ok h, log') ->
       log' = [] /\ counts_agree (map (hashKey_of v' p') (records p')) h.
Proof.
  exact (stripped_output_counts_one_per_record Numbers
           (sum_only_stripped (chunk1 ++ chunk2)) _ [] eq_refl eq_refl eq_refl).
Defined.

(** The example of C5: the three customers of region m are stripped to one
    record; aggregating that record twice counts 2, not 6, and sums nothing
    ([revenue] is absent from the stripped record). *)
Lemma stripped_record_counts_once :
  forall v,
    grouped (run (aggregate v (sum_only_stripped (chunk1 ++ chunk2))))
    = [mkRecord [("region", VStr "m"); ("total", int 60)] None]
    /\ fst (run (aggregate v
                   (mkParams
                      (grouped (run (aggregate v
                                       (sum_only_stripped (chunk1 ++ chunk2))))
                       ++ grouped (run (aggregate v
                                          (sum_only_stripped (chunk1 ++ chunk2)))))
                      ["region"] None
                      [("n", mkField AggregationTypes.count None None)]
                      true None)))
       = Ok (mkResult [mkRecord [("region", VStr "m"); ("n", int 2)] None]
               (Some (mkRecord [("n", int 2)] None))).
Proof. intros []; split; vm_compute; reflexivity. Qed.

(** ** C7: the standard deviation *)

(** The state that [measurements] accumulate to. *)
Lemma measurements_state :
  fst (run (accumulate BigNumbers (deviation_of_x measurements)))
  = Ok [("", mkRecord []
               (Some (mkAggregationData [] (ofZ 3)
                  [("x", mkSourceState
                           (Some (Fin (150000000001 # 50000000000)))
                           (Some (Fin (7500000000100000000001
                                       # 2500000000000000000000)))
                           (Some (ofZ 1))
                           (Some (Fin (50000000001 # 50000000000)))
                           None None)])))].
Proof. vm_compute. reflexivity. Qed.




(** ** C8: sorting by a bucketed key *)

(** C8, evaluated.  With the breakpoints -10, -5 the label of the middle
    bucket is ["-10--5"]; splitting it at ["-"] gives four pieces, and the
    start read back is 0.  Prices -12, -7, -1 give the groups ["<=-10"],
    ["-10--5"], ["-5+"]; sorted by the key they come out with ["-5+"] before
    ["-10--5"]. *)
Theorem negative_breakpoints_sort_wrongly :
  (forall v, parseBucketString v "-10--5" = [ofZ 0; ofZ 10; ofZ 0; ofZ 5])
  /\ grouped_properties (run (aggregate BigNumbers (by_price [-10; -5] [-12; -7; -1])))
     = Ok [[("price", VStr "<=-10"); ("n", int 1)];
           [("price", VStr "-5+"); ("n", int 1)];
           [("price", VStr "-10--5"); ("n", int 1)]]
  /\ grouped_properties (run (aggregate Numbers (by_price [-10; -5] [-12; -7; -1])))
     = Ok [[("price", VStr "<-10"); ("n", int 1)];
           [("price", VStr "-5+"); ("n", int 1)];
           [("price", VStr "-10--5"); ("n", int 1)]].
Proof.
  repeat split; try (vm_compute; reflexivity).
  intros []; vm_compute; reflexivity.
Qed.

(** With breakpoints that are not negative the same request is sorted by
    the start of the bucket. *)
Lemma positive_breakpoints_sort_by_bucket_start :
  grouped_properties (run (aggregate BigNumbers (by_price [0; 10; 20] [23; 11; 5; -1])))
  = Ok [[("price", VStr "<=0"); ("n", int 1)];
        [("price", VStr "0-10"); ("n", int 1)];
        [("price", VStr "10-20"); ("n", int 1)];
        [("price", VStr "20+"); ("n", int 1)]].
Proof. vm_compute. reflexivity. Qed.

(** ** C9: the identity of a group *)

Lemma obj_set_In {A : Type} (o : list (string * A)) k x k' :
  In k' (map fst (obj_set o k x)) <-> In k' (map fst o) \/ k' = k.
Proof.
  induction o as [| [k0 y] o IH]; cbn.
  - intuition.
  - destruct (String.eqb_spec k0 k) as [-> | Hne]; cbn.
    + intuition.
    + rewrite IH. intuition.
Qed.

Lemma obj_set_NoDup {A : Type} (o : list (string * A)) k x :
  NoDup (map fst o) -> NoDup (map fst (obj_set o k x)).
Proof.
  induction o as [| [k0 y] o IH]; cbn; intros Hnd.
  - constructor; [intros [] | constructor].
  - inversion Hnd as [| ? ? Hnotin Hnd']; subst.
    destruct (String.eqb_spec k0 k) as [-> | Hne]; cbn.
    + now constructor.
    + constructor; [| now apply IH].
      rewrite obj_set_In. intros [H | H]; [contradiction | congruence].
Qed.

Lemma forEach_keys v p rs :
  forall h0 l h l',
    NoDup (map fst h0) ->
    forEach rs (fold_record v p) h0 l = (Ok h, l') ->
    NoDup (map fst h)
    /\ forall key, In key (map fst h)
                   <-> In key (map fst h0) \/ In key (map (hashKey_of v p) rs).
Proof.
  induction rs as [| r rs IH]; intros h0 l h l' Hnd H; cbn [forEach map] in *.
  - unfold ret in H. inversion H; subst. split; [assumption |].
    intros key. cbn. intuition.
  - apply bind_Ok_inv in H as (h1 & l1 & H1 & H2).
    apply fold_record_Ok in H1
      as (group & md & c & sources' & _ & _ & _ & -> & _).
    apply IH in H2; [| now apply obj_set_NoDup].
    destruct H2 as [Hnd' Hkeys]. split; [assumption |].
    intros key. rewrite Hkeys, obj_set_In. cbn. intuition.
Qed.

Lemma forEach_append_length {A B : Type} (F : A -> M B) l :
  forall acc lg out lg',
    forEach l (fun entry done => g <- F entry ;; ret (done ++ [g])%list) acc lg
    = (Ok out, lg') ->
    List.length out = (List.length acc + List.length l)%nat.
Proof.
  induction l as [| x l IH]; intros acc lg out lg' H; cbn [forEach] in H.
  - unfold ret in H. inversion H; subst. cbn. lia.
  - apply bind_Ok_inv in H as (acc1 & l1 & H1 & H2).
    apply bind_Ok_inv in H1 as (g & l2 & _ & H1).
    unfold ret in H1. inversion H1; subst acc1 l2.
    apply IH in H2. rewrite H2, length_app. cbn. lia.
Qed.

Lemma with_criteria_length v its l :
  forall keyed, with_criteria v its l = Ok keyed ->
                List.length keyed = List.length l.
Proof.
  induction l as [| r l IH]; intros keyed H; cbn in H.
  - now inversion H.
  - destruct (criteria_of v its r) as [c |]; [| discriminate H]. cbn in H.
    destruct (with_criteria v its l) as [rest |]; [| discriminate H].
    cbn in H. inversion H. cbn. f_equal. now apply IH.
Qed.

Lemma sortBy_length v l its out :
  sortBy_ v l its = Ok out -> List.length out = List.length l.
Proof.
  unfold sortBy_. intros H.
  destruct (with_criteria v its l) as [keyed |] eqn:E; [| discriminate H].
  cbn in H. inversion H.
  rewrite length_map, stable_sort_length. now apply with_criteria_length in E.
Qed.

Lemma same_members_same_length (l l' : list string) :
  NoDup l -> NoDup l' -> (forall x, In x l <-> In x l') ->
  List.length l = List.length l'.
Proof.
  intros Hl Hl' H. apply Nat.le_antisymm.
  - apply NoDup_incl_length; [assumption |]. intros x. apply H.
  - apply NoDup_incl_length; [assumption |]. intros x. apply H.
Qed.



(** ** C10: no records *)

(** C10.  When the records list is empty [aggregate] returns an empty list of
    grouped records and a [totals] that is [undefined], not the record of an
    empty group; when [noAggregateMetadata] is set as well, it throws (at
    [delete totals[AGG_METADATA_FIELD]]) instead of returning. *)
Theorem aggregate_of_no_records :
  forall v matchKeys buckets fields sortBy,
    run (aggregate v (mkParams [] matchKeys buckets fields false sortBy))
    = (Ok (mkResult [] None), [])
    /\ run (aggregate v (mkParams [] matchKeys buckets fields true sortBy))
       = (Throw TypeError, []).
Proof.
  intros v mk b f [keys |]; split; reflexivity.
Qed.

(* ================================================================= *)
(** * Further properties of the code *)

(** ** The value of the loop *)

Lemma forEach_lift_eq {A S : Type} (F : A -> S -> outcome S) l :
  forall s lg, forEach l (fun x s => lift (F x s)) s lg = (foldM F l s, lg).
Proof.
  induction l as [| x l IH]; intros s lg; cbn [forEach foldM]; [reflexivity |].
  unfold bind, lift. destruct (F x s) as [s' | e]; cbn [obind]; [apply IH | reflexivity].
Qed.

Lemma forEach_pointwise {A S : Type} (body body' : A -> S -> M S) l :
  (forall x s lg, body x s lg = body' x s lg) ->
  forall s lg, forEach l body s lg = forEach l body' s lg.
Proof.
  intros H. induction l as [| x l IH]; intros s lg; cbn [forEach]; [reflexivity |].
  unfold bind. rewrite H. destruct (body' x s lg) as [[s' | e] lg']; [apply IH | reflexivity].
Qed.

(** The outcome of a turn of the loop is [fold_record_value]. *)
Lemma fold_record_fst v p r h lg :
  fst (fold_record v p r h lg) = fold_record_value v p r h.
Proof.
  unfold fold_record, fold_record_value.
  destruct (isAggregatedRecord_value p r lg) as [lg1 Hagg].
  rewrite (bind_Ok_eq _ _ _ _ _ Hagg).
  destruct (obj_get h (hashKey_of v p r)) as [g |].
  - rewrite (bind_Ok_eq _ _ lg1 g lg1) by reflexivity. cbn [obind].
    destruct (AGG_METADATA_FIELD g) as [md |]; [| reflexivity].
    rewrite (bind_Ok_eq _ _ lg1 md lg1) by reflexivity. cbn [obind].
    unfold bind at 1. unfold lift at 1.
    destruct (count_contribution _ r) as [c | e]; [| reflexivity]. cbn [obind].
    unfold bind at 1. rewrite forEach_lift_eq.
    destruct (foldM _ _ _) as [s1 | e]; [| reflexivity]. cbn [obind].
    unfold bind at 1. rewrite forEach_lift_eq.
    destruct (foldM _ _ _) as [s2 | e]; reflexivity.
  - destruct (existsb _ _); [reflexivity |].
    rewrite (bind_Ok_eq _ _ lg1 (new_group v p r) lg1) by reflexivity. cbn [obind].
    destruct (AGG_METADATA_FIELD (new_group v p r)) as [md |]; [| reflexivity].
    rewrite (bind_Ok_eq _ _ lg1 md lg1) by reflexivity. cbn [obind].
    unfold bind at 1. unfold lift at 1.
    destruct (count_contribution _ r) as [c | e]; [| reflexivity]. cbn [obind].
    unfold bind at 1. rewrite forEach_lift_eq.
    destruct (foldM _ _ _) as [s1 | e]; [| reflexivity]. cbn [obind].
    unfold bind at 1. rewrite forEach_lift_eq.
    destruct (foldM _ _ _) as [s2 | e]; reflexivity.
Qed.

Lemma forEach_fold_record_fst v p rs :
  forall h lg,
    fst (forEach rs (fold_record v p) h lg) = foldM (fold_record_value v p) rs h.
Proof.
  induction rs as [| r rs IH]; intros h lg; cbn [forEach foldM]; [reflexivity |].
  unfold bind. pose proof (fold_record_fst v p r h lg) as H.
  destruct (fold_record v p r h lg) as [[h' | e] lg']; cbn [fst] in H;
    rewrite <- H; cbn [obind]; [apply IH | reflexivity].
Qed.

Lemma accumulate_fst v p lg :
  fst (accumulate v p lg) = foldM (fold_record_value v p) (records p) [].
Proof. apply forEach_fold_record_fst. Qed.

Lemma derive_fields_eq v p g lg :
  derive_fields v p g lg
  = (obind (foldM (derive_field v p) (obj_keys (fields p)) g)
       (fun g' => Ok (if noAggregateMetadata p
                      then mkRecord (obj_delete (properties g') reserved_key) None
                      else g')),
     lg).
Proof.
  unfold derive_fields, bind.
  rewrite (forEach_pointwise _ (fun x s => lift (derive_field v p x s))).
  - rewrite forEach_lift_eq. destruct (foldM _ _ _); reflexivity.
  - intros x s l. unfold derive_field, lift.
    destruct (obj_get (fields p) x) as [f |]; [| reflexivity].
    destruct (AGG_METADATA_FIELD s) as [md |]; [| reflexivity].
    unfold bind, lift. destruct (aggregationFunctions _ _ _ _ _); reflexivity.
Qed.

Lemma forEach_derive_fst v p l :
  forall acc lg,
    fst (forEach l
           (fun entry done =>
              g <- derive_fields v p (snd entry) ;; ret (done ++ [g])%list)
           acc lg)
    = obind (mapM (fun entry : string * record => derive_group v p (snd entry)) l)
        (fun gs => Ok (acc ++ gs)%list).
Proof.
  induction l as [| e l IH]; intros acc lg; cbn [forEach mapM].
  - cbn. now rewrite app_nil_r.
  - unfold bind at 1. unfold bind at 1. rewrite derive_fields_eq.
    fold (derive_group v p (snd e)).
    destruct (derive_group v p (snd e)) as [g | err]; cbn [obind]; [| reflexivity].
    cbn [ret]. rewrite IH.
    destruct (mapM _ l) as [gs | err]; cbn [obind]; [| reflexivity].
    now rewrite <- app_assoc.
Qed.

(** The outcome of [aggregateInternal] is [aggregateInternal_value], whatever
    was logged before. *)
Lemma aggregateInternal_fst v p lg :
  fst (aggregateInternal v p lg) = aggregateInternal_value v p.
Proof.
  unfold aggregateInternal, aggregateInternal_value.
  unfold bind at 1. pose proof (accumulate_fst v p lg) as Hacc.
  destruct (accumulate v p lg) as [[h | e] lg1]; cbn [fst] in Hacc;
    rewrite <- Hacc; cbn [obind]; [| reflexivity].
  unfold bind at 1. pose proof (forEach_derive_fst v p (obj_entries h) [] lg1) as Hd.
  destruct (forEach _ _ _ lg1) as [[recs | e] lg2]; cbn [fst] in Hd.
  - destruct (mapM _ _) as [gs | e]; cbn [obind] in *; [| discriminate Hd].
    inversion Hd; subst recs. cbn [app].
    destruct (sortBy p); reflexivity.
  - destruct (mapM _ _) as [gs | e']; cbn [obind] in *; [discriminate Hd |].
    inversion Hd. reflexivity.
Qed.

(** The outcome of [aggregate] is [aggregate_value], whatever was logged
    before. *)
Lemma aggregate_fst v p lg : fst (aggregate v p lg) = aggregate_value v p.
Proof.
  unfold aggregate, aggregate_value.
  unfold bind at 1.
  pose proof (aggregateInternal_fst v (grouped_request p) lg) as H1.
  unfold grouped_request in H1.
  destruct (aggregateInternal v _ lg) as [[rs | e] lg1]; cbn [fst] in H1;
    fold (grouped_request p) in H1; rewrite <- H1; cbn [obind]; [| reflexivity].
  unfold bind at 1.
  pose proof (aggregateInternal_fst v (totals_request p) lg1) as H2.
  unfold totals_request in H2.
  destruct (aggregateInternal v _ lg1) as [[ts | e] lg2]; cbn [fst] in H2;
    fold (totals_request p) in H2; rewrite <- H2; cbn [obind]; [| reflexivity].
  destruct (noAggregateMetadata p); [| reflexivity].
  destruct (hd_error ts); reflexivity.
Qed.

(** ** Totals *)

Lemma foldM_invariant {A S : Type} (F : A -> S -> outcome S) (P : S -> Prop) l :
  (forall x s s', In x l -> P s -> F x s = Ok s' -> P s') ->
  forall s s', P s -> foldM F l s = Ok s' -> P s'.
Proof.
  induction l as [| x l IH]; intros Hstep s s' Hs H; cbn [foldM] in H.
  - now inversion H; subst.
  - destruct (F x s) as [s1 |] eqn:E; [| discriminate H]. cbn [obind] in H.
    apply (IH (fun y t t' Hy => Hstep y t t' (or_intror Hy)) s1 s');
      [| exact H].
    now apply (Hstep x s s1 (or_introl eq_refl)).
Qed.

Lemma mapM_length {A B : Type} (F : A -> outcome B) l :
  forall ys, mapM F l = Ok ys -> List.length ys = List.length l.
Proof.
  induction l as [| x l IH]; intros ys H; cbn [mapM] in H.
  - now inversion H.
  - destruct (F x) as [y |]; [| discriminate H]. cbn [obind] in H.
    destruct (mapM F l) as [ys' |]; [| discriminate H]. cbn [obind] in H.
    inversion H. cbn. f_equal. now apply IH.
Qed.

Lemma hashKey_of_no_matchKeys v p r : matchKeys p = [] -> hashKey_of v p r = "".
Proof. intros H. unfold hashKey_of. now rewrite H. Qed.

Lemma foldM_fold_record_keys v p rs h0 h :
  NoDup (map fst h0) ->
  foldM (fold_record_value v p) rs h0 = Ok h ->
  NoDup (map fst h)
  /\ forall key, In key (map fst h)
                 <-> In key (map fst h0) \/ In key (map (hashKey_of v p) rs).
Proof.
  intros Hnd H. rewrite <- (forEach_fold_record_fst v p rs h0 []) in H.
  destruct (forEach rs (fold_record v p) h0 []) as [[h' | e] lg] eqn:E;
    cbn [fst] in H; inversion H; subst h'.
  now apply (forEach_keys v p rs h0 [] h lg).
Qed.

(** The hash of a request without match keys: empty for no records, one
    entry under the empty key otherwise. *)
Lemma hash_without_matchKeys v p h :
  matchKeys p = [] ->
  foldM (fold_record_value v p) (records p) [] = Ok h ->
  match records p with
  | [] => h = []
  | _ :: _ => exists g, h = [("", g)]
  end.
Proof.
  intros Hmk H. destruct (records p) as [| r rs] eqn:Ers.
  - cbn in H. now inversion H.
  - apply foldM_fold_record_keys in H; [| constructor].
    destruct H as [Hnd Hkeys].
    assert (Hall : forall key, In key (map fst h) <-> key = "").
    { intros key. rewrite Hkeys. cbn [map In].
      rewrite (hashKey_of_no_matchKeys v p r Hmk). split.
      - intros [[] | [E | Hin]]; [now symmetry |].
        apply in_map_iff in Hin as (r' & E & _).
        now rewrite (hashKey_of_no_matchKeys v p r' Hmk) in E.
      - intros ->. right. now left. }
    destruct h as [| [k g] h'].
    + exfalso. now apply (proj2 (Hall "") eq_refl).
    + assert (k = "") by (apply Hall; now left). subst k.
      destruct h' as [| [k' g'] h''].
      * now exists g.
      * exfalso. assert (k' = "") by (apply Hall; right; now left). subst k'.
        inversion Hnd as [| ? ? Hnotin _]. apply Hnotin. now left.
Qed.

Lemma sortBy_singleton v g its out : sortBy_ v [g] its = Ok out -> out = [g].
Proof.
  unfold sortBy_. cbn [with_criteria].
  destruct (criteria_of v its g) as [c |]; [| discriminate]. cbn.
  now intros H; inversion H.
Qed.

(** What [aggregateInternal] returns for a request without match keys:
    nothing for no records, otherwise the one record derived from the group
    under the empty key. *)
Lemma aggregateInternal_without_matchKeys v p out :
  matchKeys p = [] ->
  aggregateInternal_value v p = Ok out ->
  match records p with
  | [] => out = []
  | _ :: _ =>
      exists g t,
        foldM (fold_record_value v p) (records p) [] = Ok [("", g)]
        /\ derive_group v p g = Ok t
        /\ out = [t]
  end.
Proof.
  intros Hmk H. unfold aggregateInternal_value in H.
  destruct (foldM _ (records p) []) as [h |] eqn:Eh; [| discriminate H].
  cbn [obind] in H.
  pose proof (hash_without_matchKeys v p h Hmk Eh) as Hh.
  destruct (records p) as [| r rs].
  - subst h. cbn in H. destruct (sortBy p); now inversion H.
  - destruct Hh as [g ->]. exists g.
    change (obj_entries [("", g)]) with [("", g)] in H.
    cbn [mapM snd] in H.
    destruct (derive_group v p g) as [t |]; [| discriminate H].
    cbn [obind] in H. exists t. repeat split.
    destruct (sortBy p); [now apply sortBy_singleton in H | now inversion H].
Qed.



(** Without match keys and buckets the grouped result is the totals: no
    record for no records, otherwise one record, which is also [totals]. *)
Theorem without_matchKeys_the_group_is_the_totals v p res :
  matchKeys p = [] ->
  buckets p = None ->
  fst (run (aggregate v p)) = Ok res ->
  totals res = hd_error (aggregatedRecords res)
  /\ List.length (aggregatedRecords res)
     = match records p with [] => 0%nat | _ :: _ => 1%nat end.
Proof.
  intros Hmk Hb H. unfold run in H. rewrite aggregate_fst in H.
  unfold aggregate_value in H.
  assert (Hg : grouped_request p = totals_request p).
  { unfold grouped_request, totals_request. now rewrite Hmk, Hb. }
  rewrite Hg in H.
  destruct (aggregateInternal_value v (totals_request p)) as [ts |] eqn:Ets;
    [| discriminate H].
  cbn [obind] in H.
  apply aggregateInternal_without_matchKeys in Ets; [| reflexivity].
  change (records (totals_request p)) with (records p) in Ets.
  destruct (records p) as [| r rs].
  - subst ts. cbn in H. destruct (noAggregateMetadata p); [discriminate H |].
    inversion H. now split.
  - destruct Ets as (g & t & _ & _ & ->). cbn [hd_error] in H.
    destruct (noAggregateMetadata p); inversion H; now split.
Qed.

Lemma without_matchKeys_the_group_is_the_totals_witness :
  totals {| aggregatedRecords := [mkRecord [("total", int 60)] None];
            totals := Some (mkRecord [("total", int 60)] None) |}
  = hd_error [mkRecord [("total", int 60)] None]
  /\ List.length [mkRecord [("total", int 60)] None] = 1%nat.
Proof.
  exact (without_matchKeys_the_group_is_the_totals Numbers
           (mkParams (chunk1 ++ chunk2) [] None
              [("total", mkField AggregationTypes.sum (Some "revenue") None)]
              true None)
           _ eq_refl eq_refl eq_refl).
Defined.

(** ** What the groups hold *)

Lemma fold_standard_Ok v r a sf s s' :
  fold_standard v r a sf s = Ok s' -> exists st, s' = obj_set s sf st.
Proof.
  unfold fold_standard. intros H.
  repeat match type of H with
         | obind ?m _ = Ok _ =>
             destruct m; [cbn [obind] in H | discriminate H]
         end.
  inversion H. eexists. reflexivity.
Qed.

Lemma fold_weighted_Ok v r a f s s' :
  fold_weighted v r a f s = Ok s' ->
  exists st,
    s' = obj_set s
           (getWeightedAverageMetadataKey (sourceField f) (weightField f)) st.
Proof.
  unfold fold_weighted. intros H.
  destruct (negb (exists_ (weightField f))); [discriminate H |].
  repeat match type of H with
         | obind ?m _ = Ok _ =>
             destruct m; [cbn [obind] in H | discriminate H]
         end.
  inversion H. eexists. reflexivity.
Qed.

Lemma foldM_obj_set_keys {A B : Type} (F : A -> list (string * B) -> outcome (list (string * B)))
  (key : A -> string) l :
  (forall x s s', F x s = Ok s' -> exists st, s' = obj_set s (key x) st) ->
  forall s s',
    foldM F l s = Ok s' ->
    forall k, In k (map fst s') <-> In k (map fst s) \/ In k (map key l).
Proof.
  intros HF. induction l as [| x l IH]; intros s s' H k; cbn [foldM] in H.
  - inversion H; subst. cbn. intuition.
  - destruct (F x s) as [s1 |] eqn:E; [| discriminate H]. cbn [obind] in H.
    destruct (HF _ _ _ E) as [st ->].
    rewrite (IH _ _ H k), obj_set_In. cbn. intuition.
Qed.

Lemma Forall_obj_set {A : Type} (P : string * A -> Prop) o k x :
  Forall P o -> P (k, x) -> Forall P (obj_set o k x).
Proof.
  intros Ho Hx. induction o as [| [k' y] o IH]; cbn.
  - now constructor.
  - inversion Ho; subst. destruct (k' =? k)%string; constructor; auto.
Qed.

Lemma obj_get_Forall {A : Type} (P : string * A -> Prop) o k x :
  Forall P o -> obj_get o k = Some x -> P (k, x).
Proof.
  intros Ho. induction o as [| [k' y] o IH]; cbn; [discriminate |].
  inversion Ho; subst. destruct (String.eqb_spec k' k) as [-> | Hne].
  - intros E. now inversion E; subst.
  - now apply IH.
Qed.

Lemma fold_record_value_group_ok v p r h h' :
  Forall (fun e => group_ok p (snd e)) h ->
  fold_record_value v p r h = Ok h' ->
  Forall (fun e => group_ok p (snd e)) h'.
Proof.
  intros Hh H. unfold fold_record_value in H.
  destruct (match obj_get h (hashKey_of v p r) with
            | Some g => Ok g
            | None => _
            end) as [group |] eqn:Eg; [| discriminate H].
  cbn [obind] in H.
  destruct (AGG_METADATA_FIELD group) as [md |] eqn:Emd; [| discriminate H].
  cbn [obind] in H.
  destruct (count_contribution _ r) as [c |]; [| discriminate H].
  cbn [obind] in H.
  destruct (foldM (fold_standard _ _ _) _ _) as [s1 |] eqn:E1; [| discriminate H].
  cbn [obind] in H.
  destruct (foldM (fold_weighted _ _ _) _ _) as [s2 |] eqn:E2; [| discriminate H].
  cbn [obind] in H. inversion H; subst h'. clear H.
  apply Forall_obj_set; [exact Hh |]. cbn [snd].
  assert (Hmd : METADATA_MATCH_KEYS_FIELD md = matchKeys p
                /\ forall k, In k (map fst (METADATA_SOURCES_FIELD md))
                             -> In k (metric_keys p)).
  { destruct (obj_get h (hashKey_of v p r)) as [g |] eqn:Eh.
    - inversion Eg; subst g.
      destruct (obj_get_Forall _ _ _ _ Hh Eh) as (md' & Hmd' & Hmk & Hk).
      cbn [snd] in Hmd'. rewrite Emd in Hmd'. inversion Hmd'; subst md'.
      split; [exact Hmk | intros k; apply Hk].
    - destruct (existsb _ _); [discriminate Eg |]. inversion Eg; subst group.
      rewrite new_group_metadata in Emd. inversion Emd; subst md. cbn.
      split; [reflexivity | intros k []]. }
  destruct Hmd as [Hmk Hsub].
  eexists. split; [reflexivity |]. cbn. split; [exact Hmk |].
  intros k.
  rewrite (foldM_obj_set_keys _
             (fun f => getWeightedAverageMetadataKey (sourceField f) (weightField f))
             _ (fold_weighted_Ok v r _) _ _ E2 k).
  rewrite (foldM_obj_set_keys _ (fun sf => sf) _ (fold_standard_Ok v r _) _ _ E1 k).
  rewrite map_id. unfold metric_keys. rewrite in_app_iff.
  split; [| tauto].
  intros [[Hk | Hk] | Hk]; [| tauto | tauto].
  apply Hsub in Hk. unfold metric_keys in Hk. now rewrite in_app_iff in Hk.
Qed.

Lemma hash_group_ok v p rs :
  forall h0 h,
    Forall (fun e => group_ok p (snd e)) h0 ->
    foldM (fold_record_value v p) rs h0 = Ok h ->
    Forall (fun e => group_ok p (snd e)) h.
Proof.
  intros h0 h H0 H.
  apply (foldM_invariant (fold_record_value v p)
           (Forall (fun e => group_ok p (snd e))) rs) with (s := h0);
    [| exact H0 | exact H].
  intros r s s' _. apply fold_record_value_group_ok.
Qed.

(** ** From the hash to the output *)

Lemma insert_sorted_In {A : Type} (ltb : A -> A -> bool) x y l :
  In x (insert_sorted ltb y l) <-> x = y \/ In x l.
Proof.
  induction l as [| z l IH]; cbn.
  - intuition.
  - destruct (ltb z y); cbn; [rewrite IH |]; intuition.
Qed.

Lemma stable_sort_In {A : Type} (ltb : A -> A -> bool) x l :
  In x (stable_sort ltb l) <-> In x l.
Proof.
  unfold stable_sort. induction l as [| y l IH]; cbn; [reflexivity |].
  rewrite insert_sorted_In, IH. intuition.
Qed.

Lemma obj_entries_In {A : Type} (o : list (string * A)) e :
  In e (obj_entries o) <-> In e o.
Proof.
  unfold obj_entries. rewrite in_app_iff, stable_sort_In, !filter_In.
  destruct (is_index (fst e)); cbn; intuition discriminate.
Qed.

Lemma mapM_In {A B : Type} (F : A -> outcome B) l :
  forall ys, mapM F l = Ok ys ->
             forall y, In y ys <-> exists x, In x l /\ F x = Ok y.
Proof.
  induction l as [| x l IH]; intros ys H y; cbn [mapM] in H.
  - inversion H. cbn. split; [intros [] | intros (x & [] & _)].
  - destruct (F x) as [y0 |] eqn:E; [| discriminate H]. cbn [obind] in H.
    destruct (mapM F l) as [ys' |]; [| discriminate H]. cbn [obind] in H.
    inversion H; subst ys. cbn [In]. rewrite (IH ys' eq_refl y). split.
    + intros [<- | (x' & Hin & E')]; [exists x | exists x']; auto.
    + intros (x' & [<- | Hin] & E'); [left; congruence | right; now exists x'].
Qed.

Lemma with_criteria_snd v its l :
  forall keyed, with_criteria v its l = Ok keyed -> map snd keyed = l.
Proof.
  induction l as [| r l IH]; intros keyed H; cbn in H.
  - now inversion H.
  - destruct (criteria_of v its r) as [c |]; [| discriminate H]. cbn in H.
    destruct (with_criteria v its l) as [rest |]; [| discriminate H].
    cbn in H. inversion H. cbn. f_equal. now apply IH.
Qed.

Lemma sortBy_In v l its out :
  sortBy_ v l its = Ok out -> forall t, In t out <-> In t l.
Proof.
  unfold sortBy_. intros H t.
  destruct (with_criteria v its l) as [keyed |] eqn:E; [| discriminate H].
  cbn in H. inversion H; subst out. apply with_criteria_snd in E. subst l.
  rewrite !in_map_iff. split; intros (x & Hx & Hin); exists x;
    (split; [exact Hx |]); now apply stable_sort_In in Hin || apply stable_sort_In.
Qed.

(** The records that [aggregateInternal] returns are the records derived
    from the groups of the hash, each group once. *)
Lemma aggregateInternal_value_outputs v p out :
  aggregateInternal_value v p = Ok out ->
  exists h,
    foldM (fold_record_value v p) (records p) [] = Ok h
    /\ List.length out = List.length h
    /\ forall t, In t out
                 <-> exists e, In e h /\ derive_group v p (snd e) = Ok t.
Proof.
  unfold aggregateInternal_value. intros H.
  destruct (foldM _ (records p) []) as [h |]; [| discriminate H].
  cbn [obind] in H. exists h. split; [reflexivity |].
  destruct (mapM _ (obj_entries h)) as [recs |] eqn:Em; [| discriminate H].
  cbn [obind] in H.
  assert (Hin : forall t, In t recs
                          <-> exists e, In e h /\ derive_group v p (snd e) = Ok t).
  { intros t. rewrite (mapM_In _ _ _ Em t). split; intros (e & He & Hd);
      exists e; (split; [| exact Hd]); now apply obj_entries_In. }
  assert (Hlen : List.length recs = List.length h).
  { apply mapM_length in Em. now rewrite Em, obj_entries_length. }
  destruct (sortBy p) as [keys |].
  - split; [now rewrite (sortBy_length _ _ _ _ H) |].
    intros t. now rewrite (sortBy_In _ _ _ _ H t).
  - inversion H; subst out. now split.
Qed.

Lemma derive_field_metadata v p k g g' :
  derive_field v p k g = Ok g' -> AGG_METADATA_FIELD g' = AGG_METADATA_FIELD g.
Proof.
  unfold derive_field. intros H.
  destruct (obj_get (fields p) k); [| discriminate H].
  destruct (AGG_METADATA_FIELD g) eqn:E; [| discriminate H].
  destruct (aggregationFunctions _ _ _ _ _); [| discriminate H].
  cbn in H. inversion H. now rewrite set_record_metadata.
Qed.

Lemma derive_group_metadata v p g t :
  noAggregateMetadata p = false ->
  derive_group v p g = Ok t ->
  AGG_METADATA_FIELD t = AGG_METADATA_FIELD g.
Proof.
  intros Hn H. unfold derive_group in H.
  destruct (foldM _ _ g) as [g' |] eqn:E; [| discriminate H].
  cbn [obind] in H. rewrite Hn in H. inversion H; subst t.
  apply (foldM_invariant (derive_field v p)
           (fun x => AGG_METADATA_FIELD x = AGG_METADATA_FIELD g)
           (obj_keys (fields p)) ) with (s := g); [| reflexivity | exact E].
  intros k s s' _ Hs Hd. now rewrite (derive_field_metadata _ _ _ _ _ Hd).
Qed.

(** Every record that [aggregateInternal] returns with its metadata has the
    match keys of the request and a state for exactly its metric keys. *)
Lemma outputs_group_ok v p out :
  noAggregateMetadata p = false ->
  aggregateInternal_value v p = Ok out ->
  Forall (group_ok p) out.
Proof.
  intros Hn H. apply aggregateInternal_value_outputs in H as (h & Hh & _ & Hin).
  apply hash_group_ok in Hh; [| constructor].
  apply Forall_forall. intros t Ht. apply Hin in Ht as (e & He & Hd).
  rewrite Forall_forall in Hh. destruct (Hh e He) as (md & Hmd & Hrest).
  exists md. split; [| exact Hrest].
  now rewrite (derive_group_metadata _ _ _ _ Hn Hd).
Qed.

(** ** The classification of a record *)

Lemma isSubset_incl a b : isSubset a b = true <-> incl a b.
Proof.
  unfold isSubset, difference. rewrite Nat.eqb_eq, length_zero_iff_nil.
  induction a as [| x a IH]; cbn.
  - split; [intros _ y [] | reflexivity].
  - destruct (existsb (String.eqb x) b) eqn:E; cbn.
    + rewrite IH. apply existsb_exists in E as (y & Hy & Exy).
      apply String.eqb_eq in Exy. subst y. split.
      * intros H y [<- | Hin]; auto.
      * intros H y Hin. apply H. now right.
    + split; [discriminate |]. intros H. exfalso.
      assert (Hx : In x b) by (apply H; now left).
      assert (existsb (String.eqb x) b = true).
      { apply existsb_exists. exists x. split; [exact Hx | apply String.eqb_refl]. }
      congruence.
Qed.

Lemma has_source_In md k :
  has_source md k = true <-> In k (map fst (METADATA_SOURCES_FIELD md)).
Proof.
  unfold has_source. induction (METADATA_SOURCES_FIELD md) as [| [k' s] o IH]; cbn.
  - split; [discriminate | intros []].
  - destruct (String.eqb_spec k' k) as [-> | Hne]; cbn.
    + split; auto.
    + rewrite IH. split; [auto | intros [H | H]; [contradiction | exact H]].
Qed.

Lemma forEach_flag_log {A : Type} (c : A -> bool) (w : A -> diagnostic) l :
  forall a0 lg,
  exists ds,
    forEach l (fun x a => if negb (c x)
                          then console_log (w x) ;;; ret false
                          else ret a) a0 lg
    = (Ok (a0 && forallb c l), (lg ++ ds)%list)
    /\ (ds = [] <-> forallb c l = true).
Proof.
  induction l as [| x l IH]; intros a0 lg; cbn [forEach forallb].
  - exists []. rewrite andb_true_r, app_nil_r. now split.
  - destruct (c x) eqn:E; cbn [negb andb].
    + destruct (IH a0 lg) as (ds & H & Hds). exists ds.
      rewrite (bind_Ok_eq _ _ lg a0 lg) by reflexivity. now split.
    + destruct (IH false (lg ++ [w x])%list) as (ds & H & _).
      exists (w x :: ds).
      rewrite (bind_Ok_eq _ _ lg false (lg ++ [w x])%list) by reflexivity.
      rewrite H, andb_false_r, <- app_assoc. cbn.
      split; [reflexivity | split; discriminate].
Qed.


Lemma forallb_pointwise {A : Type} (f g : A -> bool) l :
  (forall x, f x = g x) -> forallb f l = forallb g l.
Proof.
  intros H. induction l as [| x l IH]; cbn; [reflexivity |]. now rewrite H, IH.
Qed.

Lemma classified_of_group_ok p g :
  group_ok p g ->
  classified_as_aggregate p g
  = forallb (fun f => existsb (String.eqb (template (sourceField f)))
                        (metric_keys p))
      (weightedAvgFields (fields p)).
Proof.
  intros (md & Hmd & Hmk & Hkeys). unfold classified_as_aggregate.
  rewrite Hmd, Hmk.
  assert (Hsub : isSubset (matchKeys p) (matchKeys p) = true)
    by (apply isSubset_incl, incl_refl).
  assert (Hstd : forallb (has_source md) (standardSourceFields (fields p)) = true).
  { apply forallb_forall. intros sf Hin. apply has_source_In, Hkeys.
    unfold metric_keys. apply in_app_iff. now left. }
  rewrite Hsub, Hstd. cbn [andb].
  apply forallb_pointwise. intros f.
  destruct (existsb _ (metric_keys p)) eqn:E.
  - apply has_source_In, Hkeys. apply existsb_exists in E as (k & Hin & Ek).
    apply String.eqb_eq in Ek. now subst k.
  - destruct (has_source md (template (sourceField f))) eqn:E'; [| reflexivity].
    apply has_source_In, Hkeys in E'.
    assert (existsb (String.eqb (template (sourceField f))) (metric_keys p) = true).
    { apply existsb_exists. eexists. split; [exact E' | apply String.eqb_refl]. }
    congruence.
Qed.

Lemma aggregate_value_grouped v p res :
  noAggregateMetadata p = false ->
  aggregate_value v p = Ok res ->
  aggregateInternal_value v (grouped_request p) = Ok (aggregatedRecords res)
  /\ exists ts, aggregateInternal_value v (totals_request p) = Ok ts
                /\ totals res = hd_error ts.
Proof.
  intros Hn H. unfold aggregate_value in H. rewrite Hn in H.
  destruct (aggregateInternal_value v (grouped_request p)) as [rs |];
    [| discriminate H].
  cbn [obind] in H.
  destruct (aggregateInternal_value v (totals_request p)) as [ts |];
    [| discriminate H].
  cbn [obind] in H. inversion H. cbn. split; [reflexivity |]. now exists ts.
Qed.



(** ** A standard method without its source field *)

Lemma foldM_throws_at {A S : Type} (F : A -> S -> outcome S) (P : S -> Prop) x l :
  In x l ->
  (forall y s s', P s -> F y s = Ok s' -> P s') ->
  (forall s, P s -> exists e, F x s = Throw e) ->
  forall s, P s -> exists e, foldM F l s = Throw e.
Proof.
  intros Hin Hpres Hx. induction l as [| y l IH]; [destruct Hin |].
  intros s Hs. cbn [foldM]. destruct (F y s) as [s' | e] eqn:E.
  - cbn [obind]. destruct Hin as [-> | Hin].
    + destruct (Hx s Hs) as [e' E']. congruence.
    + apply (IH Hin). now apply (Hpres y s).
  - now exists e.
Qed.

Lemma obj_get_In_pair {A : Type} (o : list (string * A)) k x :
  obj_get o k = Some x -> In (k, x) o.
Proof.
  induction o as [| [k' y] o IH]; cbn; [discriminate |].
  destruct (String.eqb_spec k' k) as [-> | Hne].
  - intros E. inversion E. now left.
  - intros E. right. now apply IH.
Qed.

Lemma weighted_key_is_not_undefined sf wf :
  getWeightedAverageMetadataKey sf wf <> "undefined".
Proof. unfold getWeightedAverageMetadataKey. cbn. discriminate. Qed.

Lemma derive_field_without_sourceField v p outputField f g md :
  obj_get (fields p) outputField = Some f ->
  method f <> AggregationTypes.count ->
  method f <> AggregationTypes.weightedAverage ->
  sourceField f = None ->
  AGG_METADATA_FIELD g = Some md ->
  ~ In "undefined" (map fst (METADATA_SOURCES_FIELD md)) ->
  derive_field v p outputField g = Throw TypeError.
Proof.
  intros Hf Hc Hw Hs Hmd Hno. unfold derive_field. rewrite Hf, Hmd, Hs.
  assert (E : source_state md "undefined" = Throw TypeError).
  { unfold source_state.
    destruct (obj_get (METADATA_SOURCES_FIELD md) "undefined") eqn:E;
      [| reflexivity].
    exfalso. apply Hno. apply has_source_In. unfold has_source. now rewrite E. }
  destruct (method f); cbn [aggregationFunctions template];
    try contradiction; now rewrite E.
Qed.

(** A field whose method needs a source field (every method but [count]
    and [weightedAverage]) and that has none makes [aggregate] throw as soon
    as there is a record: no state is kept under [undefined], and reading
    it when the outputs are derived is a [TypeError].  (An earlier error of
    the loop comes first.) *)
Theorem standard_method_without_sourceField_fails v p outputField f :
  respects_reserved_key p = true ->
  obj_get (fields p) outputField = Some f ->
  method f <> AggregationTypes.count ->
  method f <> AggregationTypes.weightedAverage ->
  sourceField f = None ->
  ~ In "undefined" (standardSourceFields (fields p)) ->
  records p <> [] ->
  exists e, fst (run (aggregate v p)) = Throw e.
Proof.
  intros _ Hf Hc Hw Hs Hno Hne. unfold run. rewrite aggregate_fst.
  unfold aggregate_value.
  destruct (aggregateInternal_value v (grouped_request p)) as [rs | e] eqn:E;
    [| now exists e].
  exfalso. unfold aggregateInternal_value in E.
  destruct (foldM _ (records (grouped_request p)) []) as [h |] eqn:Eh;
    [| discriminate E].
  cbn [obind] in E.
  destruct (mapM _ (obj_entries h)) as [recs |] eqn:Em; [| discriminate E].
  clear E.
  pose proof (hash_group_ok _ _ _ _ _ (Forall_nil _) Eh) as Hok.
  apply foldM_fold_record_keys in Eh; [| constructor]. destruct Eh as [_ Hkeys].
  change (records (grouped_request p)) with (records p) in Hkeys.
  destruct (records p) as [| r rs']; [now apply Hne |].
  assert (Hin : In (hashKey_of v (grouped_request p) r) (map fst h)).
  { apply Hkeys. right. now left. }
  apply in_map_iff in Hin as ([k g] & _ & Hin).
  assert (Hg : group_ok (grouped_request p) g).
  { rewrite Forall_forall in Hok. apply (Hok (k, g) Hin). }
  destruct Hg as (md & Hmd & _ & Hsrc).
  assert (Hd : exists t, derive_group v (grouped_request p) g = Ok t).
  { apply obj_entries_In in Hin.
    assert (forall l ys,
               mapM (fun entry : string * record =>
                       derive_group v (grouped_request p) (snd entry)) l = Ok ys ->
               In (k, g) l ->
               exists t, derive_group v (grouped_request p) g = Ok t) as Hall.
    { induction l as [| x l IH]; intros ys H [].
      - subst x. cbn [mapM snd] in H.
        destruct (derive_group v (grouped_request p) g) as [t |];
          [now exists t | discriminate H].
      - cbn [mapM] in H. destruct (derive_group _ _ (snd x)); [| discriminate H].
        cbn [obind] in H.
        destruct (mapM _ l) as [ys' |] eqn:E'; [| discriminate H].
        now apply (IH ys'). }
    now apply (Hall _ _ Em). }
  destruct Hd as [t Hd]. unfold derive_group in Hd.
  destruct (foldM (derive_field v (grouped_request p))
              (obj_keys (fields (grouped_request p))) g) as [g' |] eqn:Eg;
    [| discriminate Hd].
  assert (Hkey : In outputField (obj_keys (fields (grouped_request p)))).
  { unfold obj_keys. apply in_map_iff. exists (outputField, f). split; [reflexivity |].
    apply obj_entries_In. now apply obj_get_In_pair. }
  destruct (foldM_throws_at (derive_field v (grouped_request p))
              (fun s => AGG_METADATA_FIELD s = Some md)
              outputField _ Hkey) with (s := g) as [e' He'].
  - intros y s s' Hs' Hy. now rewrite (derive_field_metadata _ _ _ _ _ Hy).
  - intros s Hs'. exists TypeError.
    apply (derive_field_without_sourceField v (grouped_request p) outputField f s md);
      auto.
    intros Hu. apply Hsrc in Hu. unfold metric_keys in Hu.
    apply in_app_iff in Hu as [Hu | Hu]; [now apply Hno |].
    apply in_map_iff in Hu as (f' & Hf' & _).
    now apply weighted_key_is_not_undefined in Hf'.
  - exact Hmd.
  - congruence.
Qed.

Lemma standard_method_without_sourceField_fails_witness :
  exists e,
    fst (run (aggregate Numbers
                (mkParams chunk1 ["region"] None
                   [("total", mkField AggregationTypes.sum None None)]
                   false None)))
    = Throw e.
Proof.
  refine (standard_method_without_sourceField_fails Numbers
            (mkParams chunk1 ["region"] None
               [("total", mkField AggregationTypes.sum None None)] false None)
            "total" (mkField AggregationTypes.sum None None)
            eq_refl eq_refl _ _ eq_refl _ _); cbn; try discriminate.
  intros [].
Defined.

(** ** Counting raw records *)

Lemma foldM_fold_record_counts v p rs h :
  Forall (fun r => AGG_METADATA_FIELD r = None) rs ->
  foldM (fold_record_value v p) rs [] = Ok h ->
  counts_agree (map (hashKey_of v p) rs) h.
Proof.
  intros Hraw H. rewrite <- (forEach_fold_record_fst v p rs [] []) in H.
  destruct (forEach rs (fold_record v p) [] []) as [[h' | e] lg] eqn:E;
    cbn [fst] in H; inversion H; subst h'.
  apply (forEach_counts v p rs Hraw [] [] [] h lg) in E; [apply E |].
  intros key. reflexivity.
Qed.

Lemma count_occ_all_equal (l : list string) k :
  (forall x, In x l -> x = k) -> count_occ string_dec l k = List.length l.
Proof.
  induction l as [| y l IH]; intros H; cbn; [reflexivity |].
  destruct (string_dec y k) as [_ | Hne].
  - f_equal. apply IH. intros x Hx. apply H. now right.
  - exfalso. apply Hne, H. now left.
Qed.

(** For raw records the totals count the records: when [aggregate] returns
    (metadata kept, at least one record), [totals] is a record whose
    metadata has no match keys and whose count is the number of records. *)
Theorem totals_count_the_raw_records v p res :
  respects_reserved_key p = true ->
  noAggregateMetadata p = false ->
  Forall (fun r => AGG_METADATA_FIELD r = None) (records p) ->
  records p <> [] ->
  fst (run (aggregate v p)) = Ok res ->
  exists t md,
    totals res = Some t
    /\ AGG_METADATA_FIELD t = Some md
    /\ METADATA_MATCH_KEYS_FIELD md = []
    /\ METADATA_COUNT_FIELD md = ofZ (Z.of_nat (List.length (records p))).
Proof.
  intros _ Hn Hraw Hne H. unfold run in H. rewrite aggregate_fst in H.
  apply aggregate_value_grouped in H as [_ (ts & Hts & Htot)]; [| exact Hn].
  pose proof (aggregateInternal_without_matchKeys v (totals_request p) ts
                eq_refl Hts) as Hshape.
  change (records (totals_request p)) with (records p) in Hshape.
  destruct (records p) as [| r rs] eqn:Er; [now contradiction Hne |].
  destruct Hshape as (g & t & Hh & Hd & ->).
  pose proof (foldM_fold_record_counts v (totals_request p) (r :: rs) _ Hraw Hh)
    as Hcount.
  specialize (Hcount ""). cbn [obj_get] in Hcount.
  rewrite String.eqb_refl in Hcount. destruct Hcount as (md & Hmd & Hc).
  pose proof (hash_group_ok _ _ _ _ _ (Forall_nil _) Hh) as Hok.
  inversion Hok as [| ? ? (md' & Hmd' & Hmk & _) _]; subst. cbn [snd] in Hmd'.
  rewrite Hmd in Hmd'. inversion Hmd'; subst md'.
  exists t, md. repeat split; [exact Htot | | exact Hmk |].
  - now rewrite (derive_group_metadata v (totals_request p) g t eq_refl Hd).
  - rewrite Hc. do 2 f_equal. rewrite count_occ_all_equal, length_map; [reflexivity |].
    intros x Hx. apply in_map_iff in Hx as (r' & <- & _).
    now apply hashKey_of_no_matchKeys.
Qed.

Lemma totals_count_the_raw_records_witness :
  exists t md,
    Some (mkRecord [("total", int 60)]
            (Some (mkAggregationData [] (ofZ 3)
                     [("revenue",
                       mkSourceState (Some (ofZ 60)) (Some (ofZ 1400))
                         (Some (ofZ 10)) (Some (ofZ 30)) None None)])))
    = Some t
    /\ AGG_METADATA_FIELD t = Some md
    /\ METADATA_MATCH_KEYS_FIELD md = []
    /\ METADATA_COUNT_FIELD md = ofZ (Z.of_nat (List.length (chunk1 ++ chunk2))).
Proof.
  refine (totals_count_the_raw_records Numbers (sum_only (chunk1 ++ chunk2)) _
            eq_refl eq_refl _ _ eq_refl).
  - repeat constructor.
  - discriminate.
Defined.

(** ** Bucket labels *)

Lemma le_lt_false a x : le a x = true -> lt x a = false.
Proof.
  destruct a as [| | | p], x as [| | | q]; cbn [lt le];
    try reflexivity; try discriminate.
  unfold Qltb. intros H. now rewrite H.
Qed.

Lemma lt_le_trans a b c : lt a b = true -> le b c = true -> lt a c = true.
Proof.
  destruct a as [| | | p], b as [| | | q], c as [| | | r]; cbn [lt le];
    try reflexivity; try discriminate.
  rewrite !Qltb_lt, Qle_bool_iff. apply Qlt_le_trans.
Qed.

(** The loop of src/aggregate.ts on ascending breakpoints: the buckets are
    closed below and open above. *)
Lemma aggregate_ts_loop_on_ascending_breakpoints (x : num) :
  (forall b rest,
      lt x b = true ->
      bucket_label Numbers (VNum x) (b :: rest) None = "<" ++ num_toString b)
  /\ (forall l1 a b l2,
        ascending (l1 ++ a :: b :: l2) ->
        le a x = true -> lt x b = true ->
        bucket_label Numbers (VNum x) (l1 ++ a :: b :: l2) None
        = num_toString a ++ "-" ++ num_toString b)
  /\ (forall l b,
        ascending (l ++ [b]) ->
        le b x = true ->
        bucket_label Numbers (VNum x) (l ++ [b]) None
        = num_toString b ++ "+").
Proof.
  assert (Hskip : forall l a rest,
             ascending (l ++ a :: rest) -> le a x = true ->
             Forall (fun e => below Numbers (VNum x) e = false) (l ++ [a])).
  { intros l a rest Hasc Hax. apply Forall_app. split.
    - apply ascending_before in Hasc.
      apply (Forall_impl _ (P := fun e => lt e a = true)); [| exact Hasc].
      intros e He. cbn. apply lt_asym. now apply (lt_le_trans e a x).
    - constructor; [| constructor]. cbn. now apply le_lt_false. }
  split; [| split].
  - intros b rest Hlt. cbn [bucket_label below js_lt ToNumber lowest_prefix].
    now rewrite Hlt.
  - intros l1 a b l2 Hasc Hax Hxb.
    replace (l1 ++ a :: b :: l2)%list with ((l1 ++ [a]) ++ b :: l2)%list
      by now rewrite <- app_assoc.
    rewrite bucket_label_skip by now apply (Hskip l1 a (b :: l2)).
    cbn [bucket_label below js_lt ToNumber]. rewrite Hxb.
    cbn [join map ToString String.concat]. reflexivity.
  - intros l b Hasc Hbx.
    replace (l ++ [b])%list with ((l ++ [b]) ++ [])%list
      by now rewrite app_nil_r.
    rewrite bucket_label_skip by now apply (Hskip l b []).
    reflexivity.
Qed.





Lemma below_not_a_number v x e : ToNumber x = NaN -> below v x e = false.
Proof.
  intros H. destruct v; cbn [below]; unfold js_lt, js_le;
    destruct x; cbn [ToNumber] in *; rewrite ?H; try reflexivity;
    try discriminate H.
Qed.



(** ** Sorting *)

Lemma insert_sorted_Permutation {A : Type} (ltb : A -> A -> bool) x l :
  Permutation (x :: l) (insert_sorted ltb x l).
Proof.
  induction l as [| y l IH]; cbn; [reflexivity |].
  destruct (ltb y x); [| reflexivity].
  rewrite perm_swap. now constructor.
Qed.

Lemma stable_sort_Permutation {A : Type} (ltb : A -> A -> bool) l :
  Permutation l (stable_sort ltb l).
Proof.
  unfold stable_sort. induction l as [| x l IH]; cbn; [constructor |].
  rewrite <- insert_sorted_Permutation. now constructor.
Qed.

Lemma stable_sort_never_less {A : Type} (ltb : A -> A -> bool) l :
  (forall x y, In x l -> In y l -> ltb x y = false) -> stable_sort ltb l = l.
Proof.
  intros H. unfold stable_sort. induction l as [| x l IH]; cbn; [reflexivity |].
  rewrite IH by (intros; apply H; now right).
  destruct l as [| y l]; cbn; [reflexivity |].
  rewrite H; [reflexivity | right; now left | now left].
Qed.

Lemma with_criteria_no_keys v l :
  with_criteria v [] l = Ok (map (fun r => ([], r)) l).
Proof.
  induction l as [| r l IH]; cbn; [reflexivity |]. now rewrite IH.
Qed.

(** [sortBy] only reorders.  When [aggregateInternal] returns for a request
    with sort keys, it also returns for the same request without them, the
    result is a rearrangement of that one, and with an empty list of sort
    keys it is that one. *)
Theorem sortBy_only_reorders v p keys out :
  sortBy p = Some keys ->
  fst (run (aggregateInternal v p)) = Ok out ->
  exists out0,
    fst (run (aggregateInternal v (unsorted_request p))) = Ok out0
    /\ Permutation out0 out
    /\ (keys = [] -> out = out0).
Proof.
  intros Hs H. unfold run in *. rewrite aggregateInternal_fst in *.
  unfold aggregateInternal_value in *. rewrite Hs in H.
  change (foldM (fold_record_value v (unsorted_request p))
            (records (unsorted_request p)) [])
    with (foldM (fold_record_value v p) (records p) []).
  destruct (foldM (fold_record_value v p) (records p) []) as [h |];
    [| discriminate H].
  cbn [obind] in *.
  change (mapM (fun entry : string * record =>
                  derive_group v (unsorted_request p) (snd entry)) (obj_entries h))
    with (mapM (fun entry : string * record => derive_group v p (snd entry))
            (obj_entries h)).
  destruct (mapM _ (obj_entries h)) as [recs |]; [| discriminate H].
  cbn [obind sortBy unsorted_request] in *. exists recs.
  split; [reflexivity |]. unfold sortBy_ in H. split.
  - destruct (with_criteria v _ recs) as [keyed |] eqn:E; [| discriminate H].
    cbn in H. inversion H; subst out. apply with_criteria_snd in E. subst recs.
    apply Permutation_map, stable_sort_Permutation.
  - intros ->. cbn [map] in H. rewrite with_criteria_no_keys in H. cbn in H.
    inversion H. rewrite stable_sort_never_less.
    2:{ intros x y Hx Hy. apply in_map_iff in Hx as [? [<- _]].
        apply in_map_iff in Hy as [? [<- _]]. reflexivity. }
    rewrite map_map. cbn. now rewrite map_id.
Qed.

Lemma sortBy_only_reorders_witness :
  exists out0,
    fst (run (aggregateInternal Numbers
                (unsorted_request (by_price [0; 10; 20] [23; 11; 5; -1]))))
    = Ok out0
    /\ Permutation out0
         (grouped (run (aggregate Numbers (by_price [0; 10; 20] [23; 11; 5; -1]))))
    /\ (["price"] = [] ->
        grouped (run (aggregate Numbers (by_price [0; 10; 20] [23; 11; 5; -1])))
        = out0).
Proof.
  exact (sortBy_only_reorders Numbers (by_price [0; 10; 20] [23; 11; 5; -1])
           ["price"] _ eq_refl eq_refl).
Defined.

(** ** Metric keys of weighted averages *)

Lemma string_app_inv_head (a b c : string) :
  (a ++ b)%string = (a ++ c)%string -> b = c.
Proof.
  induction a as [| ch a IH]; cbn; intros H; [exact H |].
  inversion H. now apply IH.
Qed.

Lemma split_at_first_comma (a a' b b' : string) :
  contains_char "," a = false ->
  contains_char "," a' = false ->
  (a ++ String "," b)%string = (a' ++ String "," b')%string ->
  a = a' /\ b = b'.
Proof.
  revert a'. induction a as [| ch a IH]; intros [| ch' a'] Ha Ha' H; cbn in *.
  - inversion H. now split.
  - inversion H; subst ch'. rewrite Ascii.eqb_refl in Ha'. discriminate Ha'.
  - inversion H; subst ch. rewrite Ascii.eqb_refl in Ha. discriminate Ha.
  - inversion H; subst ch'.
    apply orb_false_iff in Ha as [_ Ha]. apply orb_false_iff in Ha' as [_ Ha'].
    destruct (IH a' Ha Ha' H2) as [-> ->]. now split.
Qed.

(** The metric key of a weighted average determines the pair of fields as
    long as the source fields have no comma in them (the separator of the
    key); a field that is [undefined] counts as the word. *)
Theorem weighted_metric_key_determines_the_fields sf wf sf' wf' :
  contains_char "," (template sf) = false ->
  contains_char "," (template sf') = false ->
  getWeightedAverageMetadataKey sf wf = getWeightedAverageMetadataKey sf' wf' ->
  template sf = template sf' /\ template wf = template wf'.
Proof.
  intros Hs Hs' H. unfold getWeightedAverageMetadataKey in H.
  apply string_app_inv_head in H.
  change (("," ++ template sf ++ "," ++ template wf)%string)
    with (String "," (template sf ++ String "," (template wf)))%string in H.
  change (("," ++ template sf' ++ "," ++ template wf')%string)
    with (String "," (template sf' ++ String "," (template wf')))%string in H.
  inversion H as [H']. now apply split_at_first_comma.
Qed.

Lemma weighted_metric_key_determines_the_fields_witness :
  template None = template (Some "undefined")
  /\ template (Some "days") = template (Some "days").
Proof.
  exact (weighted_metric_key_determines_the_fields
           None (Some "days") (Some "undefined") (Some "days")
           eq_refl eq_refl eq_refl).
Defined.

(** ** Totals of a part in place of the part (part_000) *)

Lemma add_zero_r_of_add a b : add (add a b) zero = add a b.
Proof.
  destruct a as [| | | x], b as [| | | y]; try reflexivity.
  unfold add, zero, ofZ, fin. f_equal. apply Qred_complete.
  rewrite Qplus_0_r. apply Qred_correct.
Qed.

Lemma add_assoc a b c : add (add a b) c = add a (add b c).
Proof.
  destruct a as [| | | x], b as [| | | y], c as [| | | z]; try reflexivity.
  unfold add, fin. f_equal. apply Qred_complete.
  rewrite !Qred_correct. symmetry. apply Qplus_assoc.
Qed.

Lemma Qltb_false_le x y : Qltb x y = false -> (y <= x)%Q.
Proof.
  unfold Qltb. intros H. apply negb_false_iff in H. now apply Qle_bool_iff.
Qed.

Lemma Qltb_trans x y z : Qltb x y = true -> Qltb y z = true -> Qltb x z = true.
Proof.
  intros H1 H2. apply Qltb_lt in H1, H2. apply Qltb_lt.
  now apply Qlt_trans with y.
Qed.

Lemma Qltb_false_trans x y z :
  Qltb y x = false -> Qltb z y = false -> Qltb z x = false.
Proof.
  intros H1 H2. apply Qltb_false_le in H1, H2.
  destruct (Qltb z x) eqn:E; [| reflexivity].
  apply Qltb_lt in E. exfalso. apply (Qlt_not_le _ _ E).
  now apply Qle_trans with y.
Qed.

Ltac order_of_three :=
  exfalso;
  match goal with
  | H1 : Qltb ?x ?y = true, H2 : Qltb ?y ?z = true, H3 : Qltb ?x ?z = false |- _ =>
      rewrite (Qltb_trans _ _ _ H1 H2) in H3; discriminate H3
  | H1 : Qltb ?y ?x = false, H2 : Qltb ?z ?y = false, H3 : Qltb ?z ?x = true |- _ =>
      rewrite (Qltb_false_trans _ _ _ H1 H2) in H3; discriminate H3
  end.

(** The smaller of two, the first of equals: associative. *)
Lemma BigNumber_min_assoc a b c :
  BigNumber_min (BigNumber_min a b) c = BigNumber_min a (BigNumber_min b c).
Proof.
  destruct a as [| | | x], b as [| | | y], c as [| | | z]; try reflexivity;
    unfold BigNumber_min, gt, lt;
    repeat match goal with
           | |- context [Qltb ?u ?w] =>
               let E := fresh "E" in destruct (Qltb u w) eqn:E
           end;
    try reflexivity; try congruence; order_of_three.
Qed.

Lemma BigNumber_max_assoc a b c :
  BigNumber_max (BigNumber_max a b) c = BigNumber_max a (BigNumber_max b c).
Proof.
  destruct a as [| | | x], b as [| | | y], c as [| | | z]; try reflexivity;
    unfold BigNumber_max, lt;
    repeat match goal with
           | |- context [Qltb ?u ?w] =>
               let E := fresh "E" in destruct (Qltb u w) eqn:E
           end;
    try reflexivity; try congruence; order_of_three.
Qed.

Lemma BigNumber_min_Infinity a : BigNumber_min a Infinity = a.
Proof. now destruct a. Qed.

Lemma BigNumber_max_NegInfinity a : BigNumber_max a NegInfinity = a.
Proof. now destruct a. Qed.

Lemma uniqBy_NoDup {A : Type} (key : A -> string) l :
  forall seen,
    NoDup (map key (uniqBy key l seen))
    /\ forall x, In x (uniqBy key l seen) -> ~ In (key x) seen.
Proof.
  induction l as [| x l IH]; intros seen; cbn [uniqBy].
  - split; [constructor | intros ? []].
  - destruct (existsb (String.eqb (key x)) seen) eqn:E; [apply IH |].
    destruct (IH (key x :: seen)) as [Hnd Hseen]. split.
    + cbn [map]. constructor; [| exact Hnd]. intros Hin.
      apply in_map_iff in Hin as (y & Ey & Hy).
      apply (Hseen y Hy). left. now symmetry.
    + intros y [<- | Hy].
      * intros Hin. assert (existsb (String.eqb (key x)) seen = true); [| congruence].
        apply existsb_exists. exists (key x). split; [exact Hin |].
        apply String.eqb_refl.
      * intros Hin. apply (Hseen y Hy). now right.
Qed.

Lemma standardSourceFields_NoDup fields : NoDup (standardSourceFields fields).
Proof.
  unfold standardSourceFields, uniq.
  rewrite <- (map_id (uniqBy _ _ _)). apply uniqBy_NoDup.
Qed.

Lemma obj_get_app_skip {A : Type} (o o' : list (string * A)) k :
  ~ In k (map fst o) -> obj_get (o ++ o')%list k = obj_get o' k.
Proof.
  induction o as [| [k' x] o IH]; cbn; intros H; [reflexivity |].
  destruct (String.eqb_spec k' k) as [-> | _]; [exfalso; apply H; now left |].
  apply IH. intros Hin. apply H. now right.
Qed.

Lemma obj_set_app_skip {A : Type} (o o' : list (string * A)) k x :
  ~ In k (map fst o) -> obj_set (o ++ o')%list k x = (o ++ obj_set o' k x)%list.
Proof.
  induction o as [| [k' y] o IH]; cbn; intros H; [reflexivity |].
  destruct (String.eqb_spec k' k) as [-> | _]; [exfalso; apply H; now left |].
  f_equal. apply IH. intros Hin. apply H. now right.
Qed.

Section Totals.
Variable p : IAggregationParams.
Hypothesis no_matchKeys : matchKeys p = [].
Hypothesis no_weightedAverage : weightedAvgFields (fields p) = [].

Lemma settled_fresh key : settled (key, fresh_standard).
Proof. exists zero, zero, Infinity, NegInfinity, None, None. now repeat split. Qed.

Lemma settled_absorb v r kv : settled (absorb_standard v p r kv).
Proof.
  unfold absorb_standard, join_states, share_state. cbn [snd]. cbn [optnum].
  repeat eexists; apply add_zero_r_of_add.
Qed.

(** The classification promises a state for every standard source field. *)
Lemma classified_has_state r key :
  classified_as_aggregate p r = true ->
  In key (standardSourceFields (fields p)) ->
  exists md s, AGG_METADATA_FIELD r = Some md
               /\ metadataOnRecord_of r key = Some s.
Proof.
  unfold classified_as_aggregate, metadataOnRecord_of. intros H Hin.
  destruct (AGG_METADATA_FIELD r) as [md |]; [| discriminate H].
  apply andb_true_iff in H as [H _]. apply andb_true_iff in H as [_ H].
  rewrite forallb_forall in H. specialize (H key Hin).
  unfold has_source, exists_ in H.
  destruct (obj_get (METADATA_SOURCES_FIELD md) key) as [s |];
    [| discriminate H].
  now exists md, s.
Qed.

Lemma min_assign_settled v m x : min_assign v (Some m) x = Some (smaller v m x).
Proof.
  destruct v; [| reflexivity]. unfold min_assign, getMin, smaller. cbn.
  now destruct (lt x m).
Qed.

Lemma max_assign_settled v m x : max_assign v (Some m) x = Some (larger v m x).
Proof.
  destruct v; [| reflexivity]. unfold max_assign, getMax, larger. cbn.
  now destruct (lt m x).
Qed.

Lemma plus_assign_settled v s x : plus_assign v (Some s) x = Ok (Some (add s x)).
Proof. now destruct v. Qed.

Lemma fold_standard_settled v r key st sources :
  In key (standardSourceFields (fields p)) ->
  settled (key, st) ->
  match obj_get sources key with Some s => s | None => fresh_standard end = st ->
  fold_standard v r (classified_as_aggregate p r) key sources
  = Ok (obj_set sources key (snd (absorb_standard v p r (key, st)))).
Proof.
  intros Hin (s & q & mn & mx & ws & tw & E & _) Hst. cbn [snd] in E. subst st.
  unfold fold_standard. rewrite Hst.
  unfold absorb_standard, join_states, share_state, share, contribution.
  destruct (classified_as_aggregate p r) eqn:Ec.
  - destruct (classified_has_state r key Ec Hin) as (md & s0 & _ & E).
    cbn [fst snd]. rewrite !E.
    cbn [METADATA_SUM_FIELD METADATA_SUM_OF_SQUARES_FIELD
           METADATA_MIN_FIELD METADATA_MAX_FIELD METADATA_WEIGHTED_SUM_FIELD
           METADATA_TOTAL_WEIGHT_FIELD optnum obind].
    rewrite !plus_assign_settled. cbn [obind].
    now rewrite min_assign_settled, max_assign_settled.
  - cbn [fst snd METADATA_SUM_FIELD METADATA_SUM_OF_SQUARES_FIELD
           METADATA_MIN_FIELD METADATA_MAX_FIELD METADATA_WEIGHTED_SUM_FIELD
           METADATA_TOTAL_WEIGHT_FIELD optnum obind].
    rewrite !plus_assign_settled. cbn [obind].
    now rewrite min_assign_settled, max_assign_settled.
Qed.

(** [standardSourceFields.forEach] on states that are there. *)
Lemma foldM_standard_present v r :
  forall todo done,
    incl (map fst todo) (standardSourceFields (fields p)) ->
    NoDup (map fst done ++ map fst todo)%list ->
    Forall settled todo ->
    foldM (fold_standard v r (classified_as_aggregate p r))
      (map fst todo) (done ++ todo)%list
    = Ok (done ++ map (absorb_standard v p r) todo)%list.
Proof.
  induction todo as [| [k st] todo IH]; intros done Hin Hnd Hs;
    cbn [map foldM fst].
  - reflexivity.
  - assert (Hk : ~ In k (map fst done)).
    { intros H. apply NoDup_remove_2 in Hnd. apply Hnd.
      apply in_app_iff. now left. }
    inversion Hs as [| ? ? Hst Hs']; subst.
    rewrite (fold_standard_settled v r k st).
    + cbn [obind]. rewrite obj_set_app_skip by exact Hk.
      cbn [obj_set]. rewrite String.eqb_refl.
      change (done ++ (k, snd (absorb_standard v p r (k, st))) :: todo)%list
        with (done ++ [absorb_standard v p r (k, st)] ++ todo)%list.
      rewrite app_assoc. rewrite IH.
      * now rewrite <- app_assoc.
      * intros x Hx. apply Hin. now right.
      * rewrite map_app, <- app_assoc. exact Hnd.
      * exact Hs'.
    + apply Hin. now left.
    + exact Hst.
    + rewrite obj_get_app_skip by exact Hk. cbn [obj_get].
      now rewrite String.eqb_refl.
Qed.

Lemma obj_get_absent {A : Type} (o : list (string * A)) k :
  ~ In k (map fst o) -> obj_get o k = None.
Proof.
  intros H. rewrite <- (app_nil_r o). now rewrite obj_get_app_skip.
Qed.

(** [standardSourceFields.forEach] on a group that was just made. *)
Lemma foldM_standard_absent v r :
  forall keys done,
    incl keys (standardSourceFields (fields p)) ->
    NoDup (map fst done ++ keys)%list ->
    foldM (fold_standard v r (classified_as_aggregate p r)) keys done
    = Ok (done ++ map (fun key => absorb_standard v p r (key, fresh_standard)) keys)%list.
Proof.
  induction keys as [| k keys IH]; intros done Hin Hnd; cbn [map foldM].
  - now rewrite app_nil_r.
  - assert (Hk : ~ In k (map fst done)).
    { intros H. apply NoDup_remove_2 in Hnd. apply Hnd.
      apply in_app_iff. now left. }
    rewrite (fold_standard_settled v r k fresh_standard).
    + cbn [obind]. rewrite <- (app_nil_r done) at 1.
      rewrite obj_set_app_skip by exact Hk. cbn [obj_set].
      rewrite IH.
      * now rewrite <- app_assoc.
      * intros x Hx. apply Hin. now right.
      * rewrite map_app, <- app_assoc. exact Hnd.
    + apply Hin. now left.
    + apply settled_fresh.
    + now rewrite obj_get_absent.
Qed.

Lemma settled_totals_empty : settled_totals p (empty_totals p).
Proof.
  repeat split.
  - cbn. rewrite map_map. apply map_id.
  - cbn. apply Forall_forall. intros kv H. apply in_map_iff in H as (k & <- & _).
    apply settled_fresh.
Qed.

Lemma settled_totals_absorb v md r :
  settled_totals p md -> settled_totals p (absorb v p md r).
Proof.
  intros (Hmk & Hc & Hk & Hs). repeat split; cbn.
  - exact Hmk.
  - apply add_zero_r_of_add.
  - rewrite map_map. exact Hk.
  - apply Forall_forall. intros kv H. apply in_map_iff in H as (kv' & <- & _).
    apply settled_absorb.
Qed.

Lemma count_contribution_share r :
  count_contribution (classified_as_aggregate p r) r = Ok (count_share p r).
Proof.
  unfold count_contribution, count_share.
  destruct (classified_as_aggregate p r) eqn:E; [| reflexivity].
  unfold classified_as_aggregate in E.
  now destruct (AGG_METADATA_FIELD r).
Qed.

(** The loop body on the hash of a request without match keys. *)
Lemma fold_record_value_first v r :
  fold_record_value v p r []
  = Ok [("", mkRecord [] (Some (absorb v p (empty_totals p) r)))].
Proof.
  unfold fold_record_value. rewrite (hashKey_of_no_matchKeys _ _ _ no_matchKeys).
  cbn [obj_get existsb Object_prototype_keys String.eqb orb obind].
  unfold new_group. rewrite no_matchKeys.
  cbn [fold_left AGG_METADATA_FIELD obind properties
         METADATA_SOURCES_FIELD METADATA_COUNT_FIELD METADATA_MATCH_KEYS_FIELD].
  rewrite count_contribution_share. cbn [obind].
  rewrite (foldM_standard_absent v r _ []).
  - cbn [obind app]. rewrite no_weightedAverage. cbn [foldM obind obj_set].
    unfold absorb, empty_totals.
    cbn [METADATA_SOURCES_FIELD METADATA_COUNT_FIELD METADATA_MATCH_KEYS_FIELD].
    now rewrite map_map.
  - apply incl_refl.
  - apply standardSourceFields_NoDup.
Qed.

Lemma fold_record_value_next v r props md :
  settled_totals p md ->
  fold_record_value v p r [("", mkRecord props (Some md))]
  = Ok [("", mkRecord props (Some (absorb v p md r)))].
Proof.
  intros (Hmk & Hc & Hk & Hs).
  unfold fold_record_value. rewrite (hashKey_of_no_matchKeys _ _ _ no_matchKeys).
  cbn [obj_get String.eqb obind AGG_METADATA_FIELD properties].
  rewrite count_contribution_share. cbn [obind].
  rewrite <- Hk.
  rewrite <- (app_nil_l (METADATA_SOURCES_FIELD md)) at 2.
  rewrite (foldM_standard_present v r _ []).
  - cbn [obind app]. rewrite no_weightedAverage. cbn [foldM obind obj_set].
    now rewrite String.eqb_refl.
  - rewrite Hk. apply incl_refl.
  - cbn [map app]. rewrite Hk. apply standardSourceFields_NoDup.
  - exact Hs.
Qed.

Lemma foldM_fold_record_value_next v rs :
  forall props md,
    settled_totals p md ->
    foldM (fold_record_value v p) rs [("", mkRecord props (Some md))]
    = Ok [("", mkRecord props (Some (fold_left (absorb v p) rs md)))].
Proof.
  induction rs as [| r rs IH]; intros props md Hmd; cbn [foldM fold_left].
  - reflexivity.
  - rewrite fold_record_value_next by exact Hmd. cbn [obind].
    apply IH. now apply settled_totals_absorb.
Qed.

Lemma settled_totals_fold v rs :
  forall md,
    settled_totals p md -> settled_totals p (fold_left (absorb v p) rs md).
Proof.
  induction rs as [| r rs IH]; intros md H; cbn [fold_left]; [exact H |].
  apply IH. now apply settled_totals_absorb.
Qed.

(** The hash after the loop: one group under the empty key. *)
Lemma foldM_fold_record_value_first v rs :
  rs <> [] ->
  foldM (fold_record_value v p) rs []
  = Ok [("", mkRecord [] (Some (fold_left (absorb v p) rs (empty_totals p))))].
Proof.
  destruct rs as [| r rs]; [now intros [] |]. intros _. cbn [foldM fold_left].
  rewrite fold_record_value_first. cbn [obind].
  apply foldM_fold_record_value_next.
  apply settled_totals_absorb, settled_totals_empty.
Qed.

End Totals.

Lemma join_states_assoc x a c :
  join_states BigNumbers (join_states BigNumbers x a) c
  = join_states BigNumbers x (join_states BigNumbers a c).
Proof.
  unfold join_states, smaller, larger.
  cbn [METADATA_SUM_FIELD METADATA_SUM_OF_SQUARES_FIELD METADATA_MIN_FIELD
         METADATA_MAX_FIELD METADATA_WEIGHTED_SUM_FIELD
         METADATA_TOTAL_WEIGHT_FIELD optnum].
  now rewrite !add_assoc, BigNumber_min_assoc, BigNumber_max_assoc.
Qed.

Lemma join_states_fresh kv :
  settled kv -> join_states BigNumbers (snd kv) fresh_standard = snd kv.
Proof.
  intros (s & q & mn & mx & ws & tw & -> & Hs & Hq).
  unfold join_states, fresh_standard, smaller, larger.
  cbn [METADATA_SUM_FIELD METADATA_SUM_OF_SQUARES_FIELD METADATA_MIN_FIELD
         METADATA_MAX_FIELD METADATA_WEIGHTED_SUM_FIELD
         METADATA_TOTAL_WEIGHT_FIELD optnum].
  now rewrite Hs, Hq, BigNumber_min_Infinity, BigNumber_max_NegInfinity.
Qed.

Lemma fold_left_join_states {A : Type} (f : A -> SourceState) l :
  forall x a,
    join_states BigNumbers x
      (fold_left (fun st r => join_states BigNumbers st (f r)) l a)
    = fold_left (fun st r => join_states BigNumbers st (f r)) l
        (join_states BigNumbers x a).
Proof.
  induction l as [| r l IH]; intros x a; cbn [fold_left]; [reflexivity |].
  now rewrite IH, join_states_assoc.
Qed.

Lemma fold_left_add {A : Type} (f : A -> num) l :
  forall c a,
    add c (fold_left (fun n r => add n (f r)) l a)
    = fold_left (fun n r => add n (f r)) l (add c a).
Proof.
  induction l as [| r l IH]; intros c a; cbn [fold_left]; [reflexivity |].
  now rewrite IH, add_assoc.
Qed.

(** The loop on the one group, member by member. *)
Lemma fold_left_absorb v p rs :
  forall md,
    fold_left (absorb v p) rs md
    = mkAggregationData (METADATA_MATCH_KEYS_FIELD md)
        (fold_left (fun n r => add n (count_share p r)) rs
           (METADATA_COUNT_FIELD md))
        (map (fun kv =>
                (fst kv,
                 fold_left
                   (fun st r => join_states v st (share_state v p r (fst kv)))
                   rs (snd kv)))
           (METADATA_SOURCES_FIELD md)).
Proof.
  induction rs as [| r rs IH]; intros md; cbn [fold_left].
  - destruct md as [mk c s]. cbn. f_equal.
    rewrite <- (map_id s) at 1. apply map_ext. now intros [k st].
  - rewrite IH. unfold absorb.
    cbn [METADATA_SOURCES_FIELD METADATA_COUNT_FIELD METADATA_MATCH_KEYS_FIELD].
    f_equal. rewrite map_map. apply map_ext. now intros [k st].
Qed.

Lemma obj_get_map_keys {A : Type} (f : string -> A) keys k :
  In k keys -> obj_get (map (fun key => (key, f key)) keys) k = Some (f k).
Proof.
  induction keys as [| k' keys IH]; cbn; intros H; [destruct H |].
  destruct (String.eqb_spec k' k) as [-> | Hne]; [reflexivity |].
  destruct H as [-> | H]; [now destruct Hne | now apply IH].
Qed.

Section Parts.
Variable p : IAggregationParams.
Hypothesis no_matchKeys : matchKeys p = [].
Hypothesis no_weightedAverage : weightedAvgFields (fields p) = [].

(** The record of the totals of [part] brings what the records of [part]
    bring one after the other. *)
Lemma absorb_totals_of_part part t md :
  settled_totals p md ->
  AGG_METADATA_FIELD t = Some (fold_left (absorb BigNumbers p) part (empty_totals p)) ->
  absorb BigNumbers p md t = fold_left (absorb BigNumbers p) part md.
Proof.
  intros (Hmk & Hc & Hk & Hs) Ht.
  assert (Hsrc : METADATA_SOURCES_FIELD (fold_left (absorb BigNumbers p) part (empty_totals p))
                 = map (fun key =>
                          (key,
                           fold_left
                             (fun st r =>
                                join_states BigNumbers st
                                  (share_state BigNumbers p r key))
                             part fresh_standard))
                     (standardSourceFields (fields p))).
  { rewrite fold_left_absorb. cbn [METADATA_SOURCES_FIELD empty_totals].
    now rewrite map_map. }
  assert (Hcl : classified_as_aggregate p t = true).
  { unfold classified_as_aggregate. rewrite Ht, no_matchKeys, no_weightedAverage.
    cbn [forallb]. rewrite andb_true_r. cbn [isSubset difference filter length
                                               Nat.eqb andb].
    apply forallb_forall. intros k Hin. unfold has_source. rewrite Hsrc.
    now rewrite obj_get_map_keys. }
  rewrite (fold_left_absorb BigNumbers p part md). unfold absorb. f_equal.
  - unfold count_share. rewrite Hcl, Ht, fold_left_absorb.
    cbn [METADATA_COUNT_FIELD empty_totals].
    now rewrite fold_left_add, Hc.
  - apply map_ext_in. intros [k st] Hin. unfold absorb_standard. cbn [fst snd].
    f_equal.
    assert (Hkin : In k (standardSourceFields (fields p))).
    { rewrite <- Hk. apply in_map_iff. now exists (k, st). }
    assert (Hstate : join_states BigNumbers st (share_state BigNumbers p t k)
                     = join_states BigNumbers st
                         (fold_left
                            (fun st r =>
                               join_states BigNumbers st
                                 (share_state BigNumbers p r k))
                            part fresh_standard)).
    { unfold share_state, share, metadataOnRecord_of.
      rewrite Hcl, Ht, Hsrc, (obj_get_map_keys _ _ _ Hkin).
      reflexivity. }
    rewrite Hstate, fold_left_join_states.
    rewrite Forall_forall in Hs.
    f_equal. exact (join_states_fresh (k, st) (Hs _ Hin)).
Qed.

Lemma foldM_app {A S : Type} (F : A -> S -> outcome S) l l' s :
  foldM F (l ++ l')%list s = obind (foldM F l s) (foldM F l').
Proof.
  revert s. induction l as [| x l IH]; intros s; cbn [foldM app obind];
    [reflexivity |].
  destruct (F x s) as [s' |]; cbn [obind]; [apply IH | reflexivity].
Qed.

(** The hash of the loop does not change when a part of the records gives
    way to the record of its totals. *)
Lemma hash_with_totals_of_part part t before after :
  part <> [] ->
  AGG_METADATA_FIELD t = Some (fold_left (absorb BigNumbers p) part (empty_totals p)) ->
  foldM (fold_record_value BigNumbers p) (before ++ t :: after)%list []
  = foldM (fold_record_value BigNumbers p) (before ++ part ++ after)%list [].
Proof.
  intros Hpart Ht. destruct before as [| b before].
  - cbn [app]. rewrite foldM_app.
    rewrite (foldM_fold_record_value_first p no_matchKeys no_weightedAverage
               BigNumbers part Hpart). cbn [obind foldM].
    rewrite (fold_record_value_first p no_matchKeys no_weightedAverage BigNumbers).
    now rewrite (absorb_totals_of_part part t _ (settled_totals_empty p) Ht).
  - rewrite !(foldM_app _ (b :: before)).
    rewrite (foldM_fold_record_value_first p no_matchKeys no_weightedAverage
               BigNumbers (b :: before)) by discriminate.
    cbn [obind]. rewrite foldM_app. cbn [foldM].
    assert (Hs : settled_totals p
                   (fold_left (absorb BigNumbers p) (b :: before) (empty_totals p)))
      by apply settled_totals_fold, settled_totals_empty.
    rewrite (fold_record_value_next p no_matchKeys no_weightedAverage BigNumbers
               _ _ _ Hs).
    rewrite (foldM_fold_record_value_next p no_matchKeys no_weightedAverage
               BigNumbers part _ _ Hs).
    now rewrite (absorb_totals_of_part part t _ Hs Ht).
Qed.

End Parts.

Lemma totals_of_part_ext p1 p2 part :
  matchKeys p1 = matchKeys p2 -> fields p1 = fields p2 ->
  fold_left (absorb BigNumbers p1) part (empty_totals p1)
  = fold_left (absorb BigNumbers p2) part (empty_totals p2).
Proof.
  destruct p1, p2. cbn. now intros -> ->.
Qed.

Lemma aggregateInternal_value_same_hash v p1 p2 :
  buckets p1 = buckets p2 -> fields p1 = fields p2 ->
  noAggregateMetadata p1 = noAggregateMetadata p2 -> sortBy p1 = sortBy p2 ->
  foldM (fold_record_value v p1) (records p1) []
  = foldM (fold_record_value v p2) (records p2) [] ->
  aggregateInternal_value v p1 = aggregateInternal_value v p2.
Proof.
  destruct p1, p2. cbn. intros -> -> -> -> H.
  unfold aggregateInternal_value. cbn [records sortBy buckets]. now rewrite H.
Qed.

(** The metadata on the totals of a request. *)
Lemma totals_metadata q res t :
  weightedAvgFields (fields q) = [] ->
  noAggregateMetadata q = false ->
  aggregate_value BigNumbers q = Ok res ->
  totals res = Some t ->
  records q <> []
  /\ AGG_METADATA_FIELD t
     = Some (fold_left (absorb BigNumbers (totals_request q)) (records q)
               (empty_totals (totals_request q))).
Proof.
  intros HW Hn H Ht.
  apply (aggregate_value_grouped _ _ _ Hn) in H as (_ & ts & Hts & E).
  rewrite Ht in E.
  apply (aggregateInternal_without_matchKeys _ (totals_request q) _ eq_refl)
    in Hts.
  change (records (totals_request q)) with (records q) in Hts.
  destruct (records q) as [| r rs] eqn:Er; [subst ts; discriminate E |].
  destruct Hts as (g & t' & Hg & Hd & ->). cbn in E. inversion E; subst t'.
  split; [discriminate |].
  rewrite (derive_group_metadata _ (totals_request q) _ _ eq_refl Hd).
  rewrite (foldM_fold_record_value_first (totals_request q) eq_refl HW
             BigNumbers (r :: rs))
    in Hg by discriminate.
  now inversion Hg.
Qed.

Lemma totals_with_totals_of_part p q before after res t :
  weightedAvgFields (fields p) = [] ->
  fields q = fields p ->
  noAggregateMetadata q = false ->
  aggregate_value BigNumbers q = Ok res ->
  totals res = Some t ->
  aggregateInternal_value BigNumbers
    (totals_request (with_records p (before ++ t :: after)%list))
  = aggregateInternal_value BigNumbers
      (totals_request (with_records p (before ++ records q ++ after)%list)).
Proof.
  intros HW Hf Hn H Ht.
  assert (HWq : weightedAvgFields (fields q) = []) by now rewrite Hf.
  destruct (totals_metadata q res t HWq Hn H Ht) as [Hne Hmd].
  assert (Hp' : weightedAvgFields (fields (totals_request p)) = []) by exact HW.
  apply aggregateInternal_value_same_hash; try reflexivity.
  cbn [records totals_request with_records].
  change (fold_record_value BigNumbers (mkParams (before ++ t :: after)%list
            [] None (fields p) false (sortBy p)))
    with (fold_record_value BigNumbers (totals_request p)).
  change (fold_record_value BigNumbers
            (mkParams (before ++ records q ++ after)%list
               [] None (fields p) false (sortBy p)))
    with (fold_record_value BigNumbers (totals_request p)).
  apply (hash_with_totals_of_part (totals_request p) eq_refl Hp');
    [exact Hne |].
  rewrite Hmd. f_equal. apply totals_of_part_ext; [reflexivity | exact Hf].
Qed.

Lemma grouped_with_totals_of_part p q before after res t :
  matchKeys p = [] ->
  weightedAvgFields (fields p) = [] ->
  fields q = fields p ->
  noAggregateMetadata q = false ->
  aggregate_value BigNumbers q = Ok res ->
  totals res = Some t ->
  aggregateInternal_value BigNumbers
    (grouped_request (with_records p (before ++ t :: after)%list))
  = aggregateInternal_value BigNumbers
      (grouped_request (with_records p (before ++ records q ++ after)%list)).
Proof.
  intros Hmk HW Hf Hn H Ht.
  assert (HWq : weightedAvgFields (fields q) = []) by now rewrite Hf.
  destruct (totals_metadata q res t HWq Hn H Ht) as [Hne Hmd].
  apply aggregateInternal_value_same_hash; try reflexivity.
  cbn [records grouped_request with_records].
  change (fold_record_value BigNumbers (mkParams (before ++ t :: after)%list
            (matchKeys p) (buckets p) (fields p) false (sortBy p)))
    with (fold_record_value BigNumbers p).
  change (fold_record_value BigNumbers
            (mkParams (before ++ records q ++ after)%list
               (matchKeys p) (buckets p) (fields p) false (sortBy p)))
    with (fold_record_value BigNumbers p).
  apply (hash_with_totals_of_part p Hmk HW); [exact Hne |].
  rewrite Hmd. f_equal. apply totals_of_part_ext; [now rewrite Hmk | exact Hf].
Qed.



(** ** The least and the greatest of a list of numbers *)

Lemma le_refl a : a <> NaN -> le a a = true.
Proof.
  destruct a as [| | | x]; intros H; try reflexivity; [now destruct H |].
  apply Qle_bool_iff, Qle_refl.
Qed.

Lemma le_trans a b c : le a b = true -> le b c = true -> le a c = true.
Proof.
  destruct a as [| | | x], b as [| | | y], c as [| | | z]; cbn;
    try reflexivity; try discriminate.
  rewrite !Qle_bool_iff. apply Qle_trans.
Qed.

Lemma lt_le a b : lt a b = true -> le a b = true.
Proof.
  destruct a as [| | | x], b as [| | | y]; cbn; try reflexivity;
    try discriminate.
  intros H. apply Qltb_lt in H. now apply Qle_bool_iff, Qlt_le_weak.
Qed.

Lemma lt_false_le a b :
  a <> NaN -> b <> NaN -> lt a b = false -> le b a = true.
Proof.
  destruct a as [| | | x], b as [| | | y]; cbn; intros Ha Hb H;
    try reflexivity; try discriminate; try now destruct Ha; try now destruct Hb.
  apply Qle_bool_iff. now apply Qltb_false_le.
Qed.

Lemma smaller_of_numbers v m x :
  m <> NaN -> x <> NaN -> smaller v m x = if lt x m then x else m.
Proof.
  destruct v; [reflexivity |].
  destruct m, x; intros Hm Hx; try reflexivity; now (destruct Hm || destruct Hx).
Qed.

Lemma larger_of_numbers v m x :
  m <> NaN -> x <> NaN -> larger v m x = if lt m x then x else m.
Proof.
  destruct v; [reflexivity |].
  destruct m, x; intros Hm Hx; try reflexivity; now (destruct Hm || destruct Hx).
Qed.

(** The running minimum over numbers: one of them (or the start), and below
    all of them. *)
Lemma fold_left_smaller v xs :
  Forall (fun x => x <> NaN) xs ->
  forall m,
    m <> NaN ->
    let m' := fold_left (smaller v) xs m in
    m' <> NaN /\ (m' = m \/ In m' xs) /\ le m' m = true
    /\ Forall (fun x => le m' x = true) xs.
Proof.
  induction 1 as [| x xs Hx Hxs IH]; intros m Hm; cbn [fold_left].
  - repeat split; [exact Hm | now left | now apply le_refl | constructor].
  - rewrite (smaller_of_numbers v m x Hm Hx).
    destruct (lt x m) eqn:E.
    + destruct (IH x Hx) as (Hn & Hin & Hle & Hall).
      repeat split; [exact Hn | | | ].
      * right. destruct Hin as [-> | Hin]; [now left | now right].
      * apply (le_trans _ x); [exact Hle | now apply lt_le].
      * constructor; [exact Hle | exact Hall].
    + destruct (IH m Hm) as (Hn & Hin & Hle & Hall).
      repeat split; [exact Hn | | exact Hle | ].
      * destruct Hin as [-> | Hin]; [now left | right; now right].
      * constructor; [| exact Hall].
        apply (le_trans _ m); [exact Hle | now apply lt_false_le].
Qed.

Lemma fold_left_larger v xs :
  Forall (fun x => x <> NaN) xs ->
  forall m,
    m <> NaN ->
    let m' := fold_left (larger v) xs m in
    m' <> NaN /\ (m' = m \/ In m' xs) /\ le m m' = true
    /\ Forall (fun x => le x m' = true) xs.
Proof.
  induction 1 as [| x xs Hx Hxs IH]; intros m Hm; cbn [fold_left].
  - repeat split; [exact Hm | now left | now apply le_refl | constructor].
  - rewrite (larger_of_numbers v m x Hm Hx).
    destruct (lt m x) eqn:E.
    + destruct (IH x Hx) as (Hn & Hin & Hle & Hall).
      repeat split; [exact Hn | | | ].
      * right. destruct Hin as [-> | Hin]; [now left | now right].
      * apply (le_trans _ x); [now apply lt_le | exact Hle].
      * constructor; [exact Hle | exact Hall].
    + destruct (IH m Hm) as (Hn & Hin & Hle & Hall).
      repeat split; [exact Hn | | exact Hle | ].
      * destruct Hin as [-> | Hin]; [now left | right; now right].
      * constructor; [| exact Hall].
        apply (le_trans _ m); [now apply lt_false_le | exact Hle].
Qed.

Lemma le_Infinity_l x : le Infinity x = true -> x = Infinity.
Proof. now destruct x. Qed.

Lemma le_NegInfinity_r x : le x NegInfinity = true -> x = NegInfinity.
Proof. now destruct x. Qed.

(** ** The output fields *)

Lemma set_record_plain g k x :
  plain_key k = true ->
  set_record g k x
  = mkRecord (obj_set (properties g) k x) (AGG_METADATA_FIELD g).
Proof.
  unfold plain_key. intros H. apply andb_true_iff in H as [Hk Hu].
  apply negb_true_iff in Hu.
  unfold set_record, set, castPath, isKey. cbn [isObject].
  rewrite Hk. cbn [orb baseSet]. now rewrite Hu.
Qed.

Lemma get_record_plain g k :
  plain_key k = true ->
  get_record g (Some k)
  = match obj_get (properties g) k with Some x => x | None => VUndefined end.
Proof.
  unfold plain_key. intros H. apply andb_true_iff in H as [Hk _].
  unfold get_record, get, castPath, isKey. cbn [nullish].
  rewrite Hk. reflexivity.
Qed.

(** [Object.keys(fields).forEach] writes, for each name, what the
    aggregation function of the field gives on the metadata of the group;
    names that are not written keep their value. *)
Lemma derive_fields_values v p keys :
  forallb plain_key keys = true ->
  forall g t,
    foldM (derive_field v p) keys g = Ok t ->
    AGG_METADATA_FIELD t = AGG_METADATA_FIELD g
    /\ (forall k, plain_key k = true -> ~ In k keys ->
                  get_record t (Some k) = get_record g (Some k))
    /\ (forall k f md,
           In k keys ->
           obj_get (fields p) k = Some f ->
           AGG_METADATA_FIELD g = Some md ->
           aggregationFunctions v (method f) md (sourceField f) (weightField f)
           = Ok (get_record t (Some k))).
Proof.
  induction keys as [| k0 keys IH]; intros Hplain g t H; cbn [foldM] in H.
  - inversion H; subst t. repeat split. intros k f md [].
  - cbn [forallb] in Hplain. apply andb_true_iff in Hplain as [Hk0 Hplain].
    destruct (derive_field v p k0 g) as [g1 |] eqn:E1; [| discriminate H].
    cbn [obind] in H. destruct (IH Hplain g1 t H) as (Hmd & Hkeep & Hval).
    pose proof (derive_field_metadata _ _ _ _ _ E1) as Hmd1.
    unfold derive_field in E1.
    destruct (obj_get (fields p) k0) as [f0 |] eqn:Ef0; [| discriminate E1].
    destruct (AGG_METADATA_FIELD g) as [md0 |] eqn:Emd0; [| discriminate E1].
    destruct (aggregationFunctions v (method f0) md0 (sourceField f0)
                (weightField f0)) as [x |] eqn:Ex; [| discriminate E1].
    cbn [obind] in E1. inversion E1 as [Eg1]. clear E1.
    rewrite (set_record_plain _ _ _ Hk0) in Eg1.
    split; [congruence |]. split.
    + intros k Hk Hnot. rewrite Hkeep; [| exact Hk | intros Hin; apply Hnot; now right].
      rewrite !(get_record_plain _ _ Hk). subst g1. cbn [properties].
      rewrite obj_get_set_other; [reflexivity |].
      intros ->. apply Hnot. now left.
    + intros k f md Hin Hf Hmd'. inversion Hmd'; subst md0.
      destruct (in_dec string_dec k keys) as [Hk | Hk].
      * apply (Hval k f md Hk Hf). now rewrite Hmd1.
      * destruct Hin as [-> | Hin]; [| contradiction].
        rewrite Hf in Ef0. inversion Ef0; subst f0.
        rewrite (Hkeep k Hk0 Hk), (get_record_plain _ _ Hk0). subst g1.
        cbn [properties]. now rewrite obj_get_set_same.
Qed.

Lemma obj_get_In_keys {A : Type} (o : list (string * A)) k x :
  obj_get o k = Some x -> In k (obj_keys o).
Proof.
  intros H. unfold obj_keys. apply in_map_iff. exists (k, x).
  split; [reflexivity |]. apply obj_entries_In. now apply obj_get_In_pair.
Qed.

Lemma outputs_hold_the_derived_values v p out t outputField f :
  noAggregateMetadata p = false ->
  forallb plain_key (obj_keys (fields p)) = true ->
  obj_get (fields p) outputField = Some f ->
  aggregateInternal_value v p = Ok out ->
  In t out ->
  exists md,
    AGG_METADATA_FIELD t = Some md
    /\ aggregationFunctions v (method f) md (sourceField f) (weightField f)
       = Ok (get_record t (Some outputField)).
Proof.
  intros Hn Hplain Hf H Hin.
  pose proof (outputs_group_ok v p out Hn H) as Hok.
  rewrite Forall_forall in Hok. destruct (Hok t Hin) as (md & Hmd & _).
  exists md. split; [exact Hmd |].
  apply aggregateInternal_value_outputs in H as (h & _ & _ & Houts).
  apply Houts in Hin as (e & _ & Hd). unfold derive_group in Hd.
  destruct (foldM (derive_field v p) (obj_keys (fields p)) (snd e)) as [g' |] eqn:E;
    [| discriminate Hd].
  cbn [obind] in Hd. rewrite Hn in Hd. inversion Hd; subst g'.
  destruct (derive_fields_values v p _ Hplain _ _ E) as (Hsame & _ & Hval).
  apply (Hval outputField f md); [now apply (obj_get_In_keys _ _ f) | exact Hf |].
  now rewrite <- Hsame.
Qed.

(** Every output field holds the value of its aggregation function on the
    final metadata of the record.  For a request whose output field names
    are plain keys and that keeps the metadata, every grouped record and
    the totals that [aggregate] returns carry their metadata, and the
    property under each field name is what [aggregationFunctions] gives for
    the method of the field on that metadata. *)
Theorem output_fields_hold_the_derived_values v p res t outputField f :
  respects_reserved_key p = true ->
  noAggregateMetadata p = false ->
  forallb plain_key (obj_keys (fields p)) = true ->
  obj_get (fields p) outputField = Some f ->
  fst (run (aggregate v p)) = Ok res ->
  In t (aggregatedRecords res) \/ totals res = Some t ->
  exists md,
    AGG_METADATA_FIELD t = Some md
    /\ aggregationFunctions v (method f) md (sourceField f) (weightField f)
       = Ok (get_record t (Some outputField)).
Proof.
  intros _ Hn Hplain Hf H Ht. unfold run in H. rewrite aggregate_fst in H.
  apply aggregate_value_grouped in H as [Hg (ts & Hts & Htot)]; [| exact Hn].
  destruct Ht as [Ht | Ht].
  - apply (outputs_hold_the_derived_values v (grouped_request p)
             (aggregatedRecords res) t outputField f eq_refl Hplain Hf Hg Ht).
  - apply (outputs_hold_the_derived_values v (totals_request p)
             ts t outputField f eq_refl Hplain Hf Hts).
    rewrite Ht in Htot. destruct ts as [| t' ts']; [discriminate Htot |].
    inversion Htot. now left.
Qed.

Lemma output_fields_hold_the_derived_values_witness :
  exists md,
    AGG_METADATA_FIELD chunk1_summed = Some md
    /\ aggregationFunctions Numbers AggregationTypes.sum md (Some "revenue") None
       = Ok (get_record chunk1_summed (Some "total")).
Proof.
  exact (output_fields_hold_the_derived_values Numbers (sum_only chunk1) _
           chunk1_summed "total"
           (mkField AggregationTypes.sum (Some "revenue") None)
           eq_refl eq_refl eq_refl eq_refl eq_refl (or_introl (or_introl eq_refl))).
Defined.

(** ** No record is lost, none is counted twice *)

Lemma count_occ_sum (keys : list string) :
  forall ks,
    NoDup ks ->
    (forall k, In k keys -> In k ks) ->
    list_sum (map (count_occ string_dec keys) ks) = List.length keys.
Proof.
  induction keys as [| x keys IH]; intros ks Hnd Hall.
  - cbn. induction ks as [| k ks IHks]; [reflexivity |].
    cbn. apply IHks; [now inversion Hnd | intros ? []].
  - assert (Hx : In x ks) by (apply Hall; now left).
    apply in_split in Hx as (l1 & l2 & ->).
    rewrite map_app, list_sum_app. cbn [map list_sum count_occ].
    destruct (string_dec x x) as [_ | Hne]; [| now destruct Hne].
    assert (Hrest : forall l, ~ In x l ->
                      map (count_occ string_dec (x :: keys)) l
                      = map (count_occ string_dec keys) l).
    { intros l Hl. apply map_ext_in. intros k Hk. cbn [count_occ].
      destruct (string_dec x k) as [-> | _]; [contradiction | reflexivity]. }
    apply NoDup_remove in Hnd as [Hnd Hnot].
    rewrite !Hrest by (intros H; apply Hnot, in_app_iff; tauto).
    cbn [List.length].
    rewrite <- (IH (l1 ++ x :: l2)%list).
    + rewrite map_app, list_sum_app. cbn [map]. unfold list_sum.
      cbn [fold_right]. lia.
    + apply NoDup_Add with (a := x) (l := (l1 ++ l2)%list);
        [apply Add_app | now constructor].
    + intros k Hk. apply Hall. now right.
Qed.

Lemma list_sum_Permutation l l' :
  Permutation l l' -> list_sum l = list_sum l'.
Proof.
  induction 1; unfold list_sum in *; cbn [fold_right] in *; lia.
Qed.

Lemma obj_entries_Permutation {A : Type} (o : list (string * A)) :
  Permutation (obj_entries o) o.
Proof.
  unfold obj_entries. rewrite <- stable_sort_Permutation.
  induction o as [| kv o IH]; cbn [filter]; [constructor |].
  destruct (is_index (fst kv)); cbn [negb app].
  - now constructor.
  - rewrite <- Permutation_middle. now constructor.
Qed.

Lemma mapM_map {A B C : Type} (F : A -> outcome B) (f : B -> C) (g : A -> C) l :
  (forall x y, F x = Ok y -> f y = g x) ->
  forall ys, mapM F l = Ok ys -> map f ys = map g l.
Proof.
  intros H. induction l as [| x l IH]; intros ys Hm; cbn [mapM] in Hm.
  - now inversion Hm.
  - destruct (F x) as [y |] eqn:E; [| discriminate Hm]. cbn [obind] in Hm.
    destruct (mapM F l) as [ys' |]; [| discriminate Hm]. cbn [obind] in Hm.
    inversion Hm. cbn [map]. now rewrite (H x y E), (IH ys' eq_refl).
Qed.

Lemma sortBy_Permutation v l its out :
  sortBy_ v l its = Ok out -> Permutation l out.
Proof.
  unfold sortBy_. intros H.
  destruct (with_criteria v its l) as [keyed |] eqn:E; [| discriminate H].
  cbn in H. inversion H; subst out. apply with_criteria_snd in E. subst l.
  apply Permutation_map, stable_sort_Permutation.
Qed.

(** The metadata of the records [aggregateInternal] returns are the
    metadata of the groups of the hash, in some order. *)
Lemma outputs_metadata v p out :
  noAggregateMetadata p = false ->
  aggregateInternal_value v p = Ok out ->
  exists h,
    foldM (fold_record_value v p) (records p) [] = Ok h
    /\ Permutation (map (fun e => AGG_METADATA_FIELD (snd e)) h)
         (map AGG_METADATA_FIELD out).
Proof.
  intros Hn H. unfold aggregateInternal_value in H.
  destruct (foldM _ (records p) []) as [h |]; [| discriminate H].
  cbn [obind] in H. exists h. split; [reflexivity |].
  destruct (mapM _ (obj_entries h)) as [recs |] eqn:Em; [| discriminate H].
  cbn [obind] in H.
  assert (Hrecs : map AGG_METADATA_FIELD recs
                  = map (fun e => AGG_METADATA_FIELD (snd e)) (obj_entries h)).
  { apply (mapM_map _ _ _ _ (fun e t Hd =>
                               derive_group_metadata v p (snd e) t Hn Hd) _ Em). }
  assert (Hperm : Permutation recs out).
  { destruct (sortBy p); [now apply sortBy_Permutation in H |].
    inversion H. reflexivity. }
  rewrite <- (Permutation_map AGG_METADATA_FIELD Hperm), Hrecs.
  apply Permutation_map. symmetry. apply obj_entries_Permutation.
Qed.

(** No raw record is lost and none is counted twice: the grouped records
    that [aggregate] returns carry counts that are positive whole numbers
    and add up to the number of records. *)
Theorem group_counts_add_up v p res :
  respects_reserved_key p = true ->
  noAggregateMetadata p = false ->
  Forall (fun r => AGG_METADATA_FIELD r = None) (records p) ->
  fst (run (aggregate v p)) = Ok res ->
  exists counts : list nat,
    map (fun t => option_map METADATA_COUNT_FIELD (AGG_METADATA_FIELD t))
      (aggregatedRecords res)
    = map (fun n => Some (ofZ (Z.of_nat n))) counts
    /\ Forall (fun n => (0 < n)%nat) counts
    /\ list_sum counts = List.length (records p).
Proof.
  intros _ Hn Hraw H. unfold run in H. rewrite aggregate_fst in H.
  apply aggregate_value_grouped in H as [Hg _]; [| exact Hn].
  apply outputs_metadata in Hg as (h & Hh & Hperm); [| reflexivity].
  change (records (grouped_request p)) with (records p) in Hh.
  set (keys := map (hashKey_of v (grouped_request p)) (records p)).
  pose proof (foldM_fold_record_counts v (grouped_request p) (records p) h
                Hraw Hh) as Hcounts.
  destruct (foldM_fold_record_keys v (grouped_request p) (records p) [] h
              (NoDup_nil _) Hh) as [Hnd Hkeys].
  fold keys in Hcounts, Hkeys.
  assert (Hh_counts :
            map (fun e => option_map METADATA_COUNT_FIELD
                            (AGG_METADATA_FIELD (snd e))) h
            = map (fun n => Some (ofZ (Z.of_nat n)))
                (map (count_occ string_dec keys) (map fst h))).
  { rewrite !map_map. apply map_ext_in. intros [k g] Hin. cbn [fst snd].
    specialize (Hcounts k).
    assert (Hget : obj_get h k = Some g).
    { clear - Hnd Hin. induction h as [| [k' g'] h IH]; [destruct Hin |].
      cbn [obj_get]. inversion Hnd as [| ? ? Hnot Hnd']; subst.
      destruct Hin as [E | Hin].
      - inversion E; subst. now rewrite String.eqb_refl.
      - destruct (String.eqb_spec k' k) as [-> | _]; [| now apply IH].
        exfalso. apply Hnot. apply in_map_iff. now exists (k, g). }
    rewrite Hget in Hcounts. destruct Hcounts as (md & -> & Hc). cbn.
    now rewrite Hc. }
  assert (Hperm' :
            Permutation
              (map (fun t => option_map METADATA_COUNT_FIELD
                               (AGG_METADATA_FIELD t)) (aggregatedRecords res))
              (map (fun n => Some (ofZ (Z.of_nat n)))
                 (map (count_occ string_dec keys) (map fst h)))).
  { rewrite <- Hh_counts.
    rewrite <- (map_map AGG_METADATA_FIELD (option_map METADATA_COUNT_FIELD)).
    rewrite <- (map_map (fun e => AGG_METADATA_FIELD (snd e))
                  (option_map METADATA_COUNT_FIELD)).
    apply Permutation_map. now symmetry. }
  apply Permutation_map_inv in Hperm' as (counts & Hcounts' & Hp).
  exists counts. split; [exact Hcounts' |]. split.
  - apply (Permutation_Forall Hp). apply Forall_forall.
    intros n Hin. apply in_map_iff in Hin as (k & <- & Hk).
    apply Hkeys in Hk as [[] | Hk].
    apply (count_occ_In string_dec) in Hk. exact Hk.
  - rewrite <- (list_sum_Permutation _ _ Hp).
    rewrite count_occ_sum; [unfold keys; apply length_map | exact Hnd |].
    intros k Hk. apply Hkeys. now right.
Qed.

Lemma group_counts_add_up_witness :
  exists counts : list nat,
    map (fun t => option_map METADATA_COUNT_FIELD (AGG_METADATA_FIELD t))
      (grouped (run (aggregate Numbers (by_price [0; 10; 20] [23; 11; 5; -1; 7]))))
    = map (fun n => Some (ofZ (Z.of_nat n))) counts
    /\ Forall (fun n => (0 < n)%nat) counts
    /\ list_sum counts
       = List.length (records (by_price [0; 10; 20] [23; 11; 5; -1; 7])).
Proof.
  refine (group_counts_add_up Numbers (by_price [0; 10; 20] [23; 11; 5; -1; 7])
            _ eq_refl eq_refl _ eq_refl).
  repeat constructor.
Defined.

(** ** Hash keys that name an inherited property *)

Lemma fold_record_value_Ok v p r h h' :
  fold_record_value v p r h = Ok h' ->
  exists group md c sources',
    (obj_get h (hashKey_of v p r) = Some group
     \/ (obj_get h (hashKey_of v p r) = None
         /\ existsb (String.eqb (hashKey_of v p r)) Object_prototype_keys = false
         /\ group = new_group v p r))
    /\ AGG_METADATA_FIELD group = Some md
    /\ h' = obj_set h (hashKey_of v p r)
              (mkRecord (properties group)
                 (Some (mkAggregationData (METADATA_MATCH_KEYS_FIELD md)
                          (add (METADATA_COUNT_FIELD md) c) sources'))).
Proof.
  unfold fold_record_value. intros H.
  destruct (obj_get h (hashKey_of v p r)) as [g |] eqn:Eg.
  - cbn [obind] in H.
    destruct (AGG_METADATA_FIELD g) as [md |] eqn:Emd; [| discriminate H].
    cbn [obind] in H.
    destruct (count_contribution _ r) as [c |]; [| discriminate H].
    cbn [obind] in H.
    destruct (foldM (fold_standard _ _ _) _ _) as [s1 |]; [| discriminate H].
    cbn [obind] in H.
    destruct (foldM (fold_weighted _ _ _) _ _) as [s2 |]; [| discriminate H].
    cbn [obind] in H. inversion H.
    exists g, md, c, s2. repeat split; auto.
  - destruct (existsb _ Object_prototype_keys) eqn:Ep; [discriminate H |].
    cbn [obind] in H.
    destruct (AGG_METADATA_FIELD (new_group v p r)) as [md |] eqn:Emd;
      [| discriminate H].
    cbn [obind] in H.
    destruct (count_contribution _ r) as [c |]; [| discriminate H].
    cbn [obind] in H.
    destruct (foldM (fold_standard _ _ _) _ _) as [s1 |]; [| discriminate H].
    cbn [obind] in H.
    destruct (foldM (fold_weighted _ _ _) _ _) as [s2 |]; [| discriminate H].
    cbn [obind] in H. inversion H.
    exists (new_group v p r), md, c, s2. repeat split; auto.
Qed.

(** The hash never holds a group under a name of [Object.prototype]. *)
Lemma fold_record_value_no_inherited_name v p r h h' :
  (forall k, In k Object_prototype_keys -> obj_get h k = None) ->
  fold_record_value v p r h = Ok h' ->
  forall k, In k Object_prototype_keys -> obj_get h' k = None.
Proof.
  intros Hh H k Hk.
  apply fold_record_value_Ok in H
    as (group & md & c & s & Hgroup & _ & ->).
  assert (Hne : hashKey_of v p r <> k).
  { intros <-. destruct Hgroup as [Hg | (_ & Hp & _)].
    - rewrite (Hh _ Hk) in Hg. discriminate Hg.
    - assert (existsb (String.eqb (hashKey_of v p r)) Object_prototype_keys = true);
        [| congruence].
      apply existsb_exists. exists (hashKey_of v p r).
      split; [exact Hk | apply String.eqb_refl]. }
  rewrite obj_get_set_other by exact Hne. now apply Hh.
Qed.

(** A record whose hash key is the name of a property every object
    inherits ([constructor], [toString], [__proto__], ...) makes
    [aggregate] throw: [recordsHash[hashKey]] is truthy before any group was
    stored, no group is made, and the metadata of the inherited value is
    [undefined]. *)
Theorem hash_key_that_names_an_inherited_property_fails v p r :
  In r (records p) ->
  In (hashKey_of v p r) Object_prototype_keys ->
  exists e, fst (run (aggregate v p)) = Throw e.
Proof.
  intros Hr Hk. unfold run. rewrite aggregate_fst. unfold aggregate_value.
  assert (H : exists e, foldM (fold_record_value v (grouped_request p))
                          (records p) [] = Throw e).
  { apply (foldM_throws_at (fold_record_value v (grouped_request p))
             (fun h => forall k, In k Object_prototype_keys -> obj_get h k = None)
             r (records p) Hr).
    - intros y s s' Hs Hy. now apply (fold_record_value_no_inherited_name _ _ _ _ _ Hs Hy).
    - intros s Hs. exists TypeError. unfold fold_record_value.
      change (hashKey_of v (grouped_request p) r) with (hashKey_of v p r).
      rewrite (Hs _ Hk).
      assert (E : existsb (String.eqb (hashKey_of v p r)) Object_prototype_keys
                  = true).
      { apply existsb_exists. exists (hashKey_of v p r).
        split; [exact Hk | apply String.eqb_refl]. }
      now rewrite E.
    - reflexivity. }
  destruct H as [e He]. exists e. unfold aggregateInternal_value.
  change (records (grouped_request p)) with (records p). now rewrite He.
Qed.

Lemma hash_key_that_names_an_inherited_property_fails_witness :
  exists e,
    fst (run (aggregate Numbers
                (sum_only [raw [("region", VStr "constructor");
                                ("revenue", int 10)]])))
    = Throw e.
Proof.
  refine (hash_key_that_names_an_inherited_property_fails Numbers
            (sum_only [raw [("region", VStr "constructor"); ("revenue", int 10)]])
            (raw [("region", VStr "constructor"); ("revenue", int 10)])
            (or_introl eq_refl) _).
  cbn. tauto.
Defined.

(** ** The match keys on the grouped records *)

Lemma fold_set_record_plain (F : string -> value) keys :
  forallb plain_key keys = true ->
  forall g k,
    plain_key k = true ->
    get_record (fold_left (fun g k => set_record g k (F k)) keys g) (Some k)
    = if existsb (String.eqb k) keys then F k else get_record g (Some k).
Proof.
  induction keys as [| k0 keys IH]; intros Hplain g k Hk; cbn [fold_left existsb];
    [reflexivity |].
  cbn [forallb] in Hplain. apply andb_true_iff in Hplain as [Hk0 Hplain].
  rewrite (IH Hplain _ k Hk).
  destruct (existsb (String.eqb k) keys); [now rewrite orb_true_r |].
  rewrite orb_false_r.
  rewrite (get_record_plain _ _ Hk), (set_record_plain _ _ _ Hk0).
  cbn [properties].
  destruct (String.eqb_spec k k0) as [-> | Hne].
  - now rewrite obj_get_set_same.
  - rewrite obj_get_set_other by (intros E; now apply Hne).
    now rewrite (get_record_plain _ _ Hk).
Qed.

Lemma get_record_properties g g' path :
  properties g = properties g' -> get_record g path = get_record g' path.
Proof. unfold get_record. now intros ->. Qed.

(** Every group of the hash has, under each match key, the label of one
    of the records. *)
Lemma hash_groups_keep_their_labels v p :
  forallb plain_key (matchKeys p) = true ->
  forall rs h,
    foldM (fold_record_value v p) rs [] = Ok h ->
    Forall (fun e =>
              exists r,
                In r rs
                /\ forall matchKey,
                    In matchKey (matchKeys p) ->
                    get_record (snd e) (Some matchKey)
                    = getFieldHashKey v r matchKey
                        (bucket_of (buckets p) matchKey)) h.
Proof.
  intros Hplain rs h H.
  apply (foldM_invariant (fold_record_value v p)
           (Forall (fun e =>
                      exists r,
                        In r rs
                        /\ forall matchKey,
                            In matchKey (matchKeys p) ->
                            get_record (snd e) (Some matchKey)
                            = getFieldHashKey v r matchKey
                                (bucket_of (buckets p) matchKey)))
           rs) with (s := []); [| constructor | exact H].
  intros r s s' Hr Hs Hstep.
  apply fold_record_value_Ok in Hstep
    as (group & md & c & src & Hgroup & _ & ->).
  apply Forall_obj_set; [exact Hs |]. cbn [snd].
  destruct Hgroup as [Hg | (_ & _ & ->)].
  - destruct (obj_get_Forall _ _ _ _ Hs Hg) as (r0 & Hr0 & Hlab).
    exists r0. split; [exact Hr0 |]. intros mk Hmk.
    rewrite <- (Hlab mk Hmk). now apply get_record_properties.
  - exists r. split; [exact Hr |]. intros mk Hmk.
    rewrite (get_record_properties _ (new_group v p r)) by reflexivity.
    unfold new_group.
    rewrite (fold_set_record_plain
               (fun matchKey =>
                  getFieldHashKey v r matchKey (bucket_of (buckets p) matchKey))
               (matchKeys p) Hplain).
    + assert (E : existsb (String.eqb mk) (matchKeys p) = true).
      { apply existsb_exists. exists mk. split; [exact Hmk | apply String.eqb_refl]. }
      now rewrite E.
    + rewrite forallb_forall in Hplain. now apply Hplain.
Qed.

(** Every grouped record shows the group it stands for.  When the match
    keys and the output field names are plain keys and no output field has
    the name of a match key, every grouped record that [aggregate] returns
    has, under each match key, the label [getFieldHashKey] gives for one and
    the same record of the input. *)
Theorem grouped_records_keep_their_labels v p res t :
  respects_reserved_key p = true ->
  noAggregateMetadata p = false ->
  forallb plain_key (matchKeys p) = true ->
  forallb plain_key (obj_keys (fields p)) = true ->
  (forall matchKey,
      In matchKey (matchKeys p) -> ~ In matchKey (obj_keys (fields p))) ->
  fst (run (aggregate v p)) = Ok res ->
  In t (aggregatedRecords res) ->
  exists r,
    In r (records p)
    /\ forall matchKey,
        In matchKey (matchKeys p) ->
        get_record t (Some matchKey)
        = getFieldHashKey v r matchKey (bucket_of (buckets p) matchKey).
Proof.
  intros _ Hn Hmk Hf Hdis H Ht. unfold run in H. rewrite aggregate_fst in H.
  apply aggregate_value_grouped in H as [Hg _]; [| exact Hn].
  apply aggregateInternal_value_outputs in Hg as (h & Hh & _ & Houts).
  apply Houts in Ht as (e & He & Hd).
  pose proof (hash_groups_keep_their_labels v (grouped_request p) Hmk _ _ Hh)
    as Hlab.
  rewrite Forall_forall in Hlab. destruct (Hlab e He) as (r & Hr & Hr').
  change (buckets (grouped_request p)) with (buckets p) in Hr'.
  change (matchKeys (grouped_request p)) with (matchKeys p) in Hr'.
  exists r. split; [exact Hr |]. intros mk Hin.
  rewrite <- (Hr' mk Hin). unfold derive_group in Hd.
  destruct (foldM (derive_field v (grouped_request p))
              (obj_keys (fields (grouped_request p))) (snd e)) as [g' |] eqn:E;
    [| discriminate Hd].
  cbn [obind noAggregateMetadata grouped_request] in Hd. inversion Hd; subst g'.
  destruct (derive_fields_values v (grouped_request p) _ Hf _ _ E)
    as (_ & Hkeep & _).
  apply Hkeep; [| now apply Hdis].
  rewrite forallb_forall in Hmk. now apply Hmk.
Qed.

Lemma grouped_records_keep_their_labels_witness :
  exists r,
    In r (records (count_by_price (priced [5; 15; 7])))
    /\ forall matchKey,
        In matchKey (matchKeys (count_by_price (priced [5; 15; 7]))) ->
        get_record (mkRecord [("price", VStr "0-10"); ("n", int 2)]
                      (Some (mkAggregationData ["price"] (ofZ 2) [])))
          (Some matchKey)
        = getFieldHashKey Numbers r matchKey
            (bucket_of (buckets (count_by_price (priced [5; 15; 7]))) matchKey).
Proof.
  refine (grouped_records_keep_their_labels Numbers
            (count_by_price (priced [5; 15; 7])) _ _
            eq_refl eq_refl eq_refl eq_refl _ eq_refl (or_introl eq_refl)).
  cbn. intros mk [<- | []] [E | []]. discriminate E.
Defined.

(** ** The warnings *)

Lemma forEach_flag_eq {A : Type} (c : A -> bool) (w : A -> diagnostic) l :
  forall a0 lg,
    forEach l (fun x a => if negb (c x)
                          then console_log (w x) ;;; ret false
                          else ret a) a0 lg
    = (Ok (a0 && forallb c l),
       (lg ++ map w (filter (fun x => negb (c x)) l))%list).
Proof.
  induction l as [| x l IH]; intros a0 lg; cbn [forEach forallb filter map].
  - now rewrite andb_true_r, app_nil_r.
  - destruct (c x) eqn:E; cbn [negb andb map].
    + rewrite (bind_Ok_eq _ _ lg a0 lg) by reflexivity. apply IH.
    + rewrite (bind_Ok_eq _ _ lg false (lg ++ [w x])%list) by reflexivity.
      rewrite IH, andb_false_r, <- app_assoc. reflexivity.
Qed.

(** The classification appends its warnings to the log, the same ones
    whatever was logged before. *)
Lemma isAggregatedRecord_eq p r lg :
  isAggregatedRecord p r lg
  = (Ok (classified_as_aggregate p r), (lg ++ warnings p r)%list).
Proof.
  assert (H : exists ws, forall lg',
               isAggregatedRecord p r lg'
               = (Ok (classified_as_aggregate p r), (lg' ++ ws)%list)).
  { unfold isAggregatedRecord, classified_as_aggregate.
    destruct (AGG_METADATA_FIELD r) as [md |].
    2:{ exists []. intros lg'. now rewrite app_nil_r. }
    set (sub := isSubset (matchKeys p) (METADATA_MATCH_KEYS_FIELD md)).
    exists ((if sub then []
             else [DifferentMatchKeys (METADATA_MATCH_KEYS_FIELD md)
                     (matchKeys p) r])
              ++ map (fun sf => MissingSourceField sf r)
                   (filter (fun sf => negb (has_source md sf))
                      (standardSourceFields (fields p)))
              ++ map (fun f => MissingWeightedAverage (sourceField f)
                                 (weightField f) r)
                   (filter (fun f => negb (has_source md
                                             (template (sourceField f))))
                      (weightedAvgFields (fields p))))%list.
    intros lg'.
    assert (H0 : (if negb sub
                  then console_log
                         (DifferentMatchKeys (METADATA_MATCH_KEYS_FIELD md)
                            (matchKeys p) r) ;;; ret false
                  else ret true) lg'
                 = (Ok sub,
                    (lg' ++ (if sub then []
                             else [DifferentMatchKeys
                                     (METADATA_MATCH_KEYS_FIELD md)
                                     (matchKeys p) r]))%list)).
    { destruct sub; cbn; [now rewrite app_nil_r | reflexivity]. }
    rewrite (bind_Ok_eq _ _ _ _ _ H0).
    rewrite (bind_Ok_eq _ _ _ _ _
               (forEach_flag_eq (has_source md)
                  (fun sf => MissingSourceField sf r) _ _ _)).
    rewrite forEach_flag_eq. now rewrite <- !app_assoc. }
  destruct H as [ws H]. unfold warnings, run. rewrite (H []), (H lg).
  reflexivity.
Qed.

(** One turn of the loop: its outcome, and the log with the warnings of
    the record. *)
Lemma fold_record_eq v p r h lg :
  fold_record v p r h lg
  = (fold_record_value v p r h, (lg ++ warnings p r)%list).
Proof.
  unfold fold_record, fold_record_value.
  rewrite (bind_Ok_eq _ _ _ _ _ (isAggregatedRecord_eq p r lg)).
  set (lg1 := (lg ++ warnings p r)%list).
  destruct (obj_get h (hashKey_of v p r)) as [g |].
  - rewrite (bind_Ok_eq _ _ lg1 g lg1) by reflexivity. cbn [obind].
    destruct (AGG_METADATA_FIELD g) as [md |]; [| reflexivity].
    rewrite (bind_Ok_eq _ _ lg1 md lg1) by reflexivity. cbn [obind].
    unfold bind at 1. unfold lift at 1.
    destruct (count_contribution _ r) as [c | e]; [| reflexivity]. cbn [obind].
    unfold bind at 1. rewrite forEach_lift_eq.
    destruct (foldM _ _ _) as [s1 | e]; [| reflexivity]. cbn [obind].
    unfold bind at 1. rewrite forEach_lift_eq.
    destruct (foldM _ _ _) as [s2 | e]; reflexivity.
  - destruct (existsb _ _); [reflexivity |].
    rewrite (bind_Ok_eq _ _ lg1 (new_group v p r) lg1) by reflexivity. cbn [obind].
    destruct (AGG_METADATA_FIELD (new_group v p r)) as [md |]; [| reflexivity].
    rewrite (bind_Ok_eq _ _ lg1 md lg1) by reflexivity. cbn [obind].
    unfold bind at 1. unfold lift at 1.
    destruct (count_contribution _ r) as [c | e]; [| reflexivity]. cbn [obind].
    unfold bind at 1. rewrite forEach_lift_eq.
    destruct (foldM _ _ _) as [s1 | e]; [| reflexivity]. cbn [obind].
    unfold bind at 1. rewrite forEach_lift_eq.
    destruct (foldM _ _ _) as [s2 | e]; reflexivity.
Qed.

Lemma forEach_fold_record_log v p rs :
  forall h lg h' lg',
    forEach rs (fold_record v p) h lg = (Ok h', lg') ->
    lg' = (lg ++ flat_map (warnings p) rs)%list.
Proof.
  induction rs as [| r rs IH]; intros h lg h' lg' H; cbn [forEach flat_map] in *.
  - unfold ret in H. inversion H. now rewrite app_nil_r.
  - unfold bind in H. rewrite fold_record_eq in H.
    destruct (fold_record_value v p r h) as [h1 |]; [| discriminate H].
    apply IH in H. now rewrite H, <- app_assoc.
Qed.

Lemma forEach_derive_log v p (l : list (string * record)) :
  forall acc lg,
    snd (forEach l
           (fun entry done =>
              g <- derive_fields v p (snd entry) ;; ret (done ++ [g])%list)
           acc lg)
    = lg.
Proof.
  induction l as [| e l IH]; intros acc lg; cbn [forEach]; [reflexivity |].
  unfold bind at 1. unfold bind at 1. rewrite derive_fields_eq.
  destruct (obind _ _) as [g | err]; [| reflexivity].
  cbn [ret]. apply IH.
Qed.

Lemma aggregateInternal_log v p lg out lg' :
  aggregateInternal v p lg = (Ok out, lg') ->
  lg' = (lg ++ flat_map (warnings p) (records p))%list.
Proof.
  unfold aggregateInternal. intros H. unfold bind at 1 in H.
  destruct (accumulate v p lg) as [[h | e] lg1] eqn:Ea; [| discriminate H].
  apply forEach_fold_record_log in Ea. subst lg1.
  unfold bind at 1 in H.
  pose proof (forEach_derive_log v p (obj_entries h) []
                (lg ++ flat_map (warnings p) (records p))%list) as Hd.
  destruct (forEach (obj_entries h) _ [] _) as [[recs | e] lg2];
    [| discriminate H].
  cbn [snd] in Hd. subst lg2.
  destruct (sortBy p).
  - unfold lift in H. now inversion H.
  - unfold ret in H. now inversion H.
Qed.



(** ** The states of the totals, key by key *)

Section Keyed.
Context {A : Type}.
Variable F : A -> list (string * SourceState)
             -> outcome (list (string * SourceState)).
Variable key : A -> string.
Variable turn : A -> SourceState -> SourceState.
Variable fresh : SourceState.
Hypothesis F_turn :
  forall a s s',
    F a s = Ok s' -> s' = obj_set s (key a) (turn a (state_in s (key a) fresh)).

Lemma keyed_other K l :
  (forall a, In a l -> key a <> K) ->
  forall s s', foldM F l s = Ok s' -> obj_get s' K = obj_get s K.
Proof.
  induction l as [| a l IH]; intros Hk s s' H; cbn [foldM] in H.
  - now inversion H.
  - destruct (F a s) as [s1 |] eqn:E; [| discriminate H]. cbn [obind] in H.
    rewrite (IH (fun b Hb => Hk b (or_intror Hb)) s1 s' H).
    rewrite (F_turn _ _ _ E).
    apply obj_get_set_other, Hk. now left.
Qed.

Lemma keyed_one a l :
  NoDup (map key l) ->
  In a l ->
  forall s s',
    foldM F l s = Ok s' ->
    obj_get s' (key a) = Some (turn a (state_in s (key a) fresh)).
Proof.
  induction l as [| b l IH]; intros Hnd Hin s s' H; [destruct Hin |].
  cbn [foldM] in H. cbn [map] in Hnd. inversion Hnd as [| ? ? Hnot Hnd']; subst.
  destruct (F b s) as [s1 |] eqn:E; [| discriminate H]. cbn [obind] in H.
  pose proof (F_turn _ _ _ E) as Hs1.
  destruct (in_dec string_dec (key a) (map key l)) as [Hk | Hk].
  - assert (Hne : key b <> key a) by (intros Eq; apply Hnot; now rewrite Eq).
    apply in_map_iff in Hk as (a' & Ea' & Ha').
    assert (Hin' : In a l).
    { destruct Hin as [-> | Hin]; [now destruct Hne | exact Hin]. }
    rewrite (IH Hnd' Hin' s1 s' H). unfold state_in. rewrite Hs1.
    now rewrite obj_get_set_other.
  - destruct Hin as [-> | Hin];
      [| exfalso; apply Hk, in_map_iff; now exists a].
    rewrite (keyed_other (key a) l) with (s := s1) (s' := s'); [| | exact H].
    + rewrite Hs1. apply obj_get_set_same.
    + intros c Hc Ec. apply Hk. rewrite <- Ec. apply in_map_iff. now exists c.
Qed.

End Keyed.

Lemma fold_standard_raw v r sourceField s s' :
  fold_standard v r false sourceField s = Ok s' ->
  s' = obj_set s sourceField
         (standard_turn v r sourceField (state_in s sourceField fresh_standard)).
Proof.
  unfold fold_standard, standard_turn, state_in, contribution, plus_assign.
  cbn [obind].
  destruct (member v (METADATA_SUM_FIELD _)) as [sum |] eqn:E1; [| discriminate].
  cbn [obind].
  destruct (member v (METADATA_SUM_OF_SQUARES_FIELD _)) as [sq |] eqn:E2;
    [| discriminate].
  cbn [obind]. intros H. inversion H. do 2 f_equal.
  - unfold member in E1.
    destruct v, (METADATA_SUM_FIELD _); inversion E1; reflexivity.
  - unfold member in E2.
    destruct v, (METADATA_SUM_OF_SQUARES_FIELD _); inversion E2; reflexivity.
Qed.

Lemma fold_weighted_raw v r f s s' :
  fold_weighted v r false f s = Ok s' ->
  s' = obj_set s (getWeightedAverageMetadataKey (sourceField f) (weightField f))
         (weighted_turn v r f
            (state_in s
               (getWeightedAverageMetadataKey (sourceField f) (weightField f))
               fresh_weighted)).
Proof.
  unfold fold_weighted, weighted_turn, state_in, contribution, plus_assign.
  destruct (negb (exists_ (weightField f))); [discriminate |].
  cbn [obind].
  destruct (member v (METADATA_TOTAL_WEIGHT_FIELD _)) as [tw |] eqn:E1;
    [| discriminate].
  cbn [obind].
  destruct (member v (METADATA_WEIGHTED_SUM_FIELD _)) as [ws |] eqn:E2;
    [| discriminate].
  cbn [obind]. intros H. inversion H. do 2 f_equal.
  - unfold member in E2.
    destruct v, (METADATA_WEIGHTED_SUM_FIELD _); inversion E2; reflexivity.
  - unfold member in E1.
    destruct v, (METADATA_TOTAL_WEIGHT_FIELD _); inversion E1; reflexivity.
Qed.

Lemma weightedAvgFields_NoDup fields :
  NoDup (map (fun f => getWeightedAverageMetadataKey (sourceField f) (weightField f))
           (weightedAvgFields fields)).
Proof. unfold weightedAvgFields. apply uniqBy_NoDup. Qed.

(** One turn of the loop of a request without match keys, for a raw
    record: the group is there afterwards, and the two [forEach] made its
    states from the states before. *)
Lemma fold_record_value_raw v p r h h' :
  matchKeys p = [] ->
  AGG_METADATA_FIELD r = None ->
  fold_record_value v p r h = Ok h' ->
  exists g md s1,
    obj_get h' "" = Some g
    /\ AGG_METADATA_FIELD g = Some md
    /\ foldM (fold_standard v r false) (standardSourceFields (fields p))
         (match obj_get h "" with
          | Some g0 => match AGG_METADATA_FIELD g0 with
                       | Some md0 => METADATA_SOURCES_FIELD md0
                       | None => []
                       end
          | None => []
          end) = Ok s1
    /\ foldM (fold_weighted v r false) (weightedAvgFields (fields p)) s1
       = Ok (METADATA_SOURCES_FIELD md).
Proof.
  intros Hmk Hraw H. unfold fold_record_value in H.
  rewrite (hashKey_of_no_matchKeys _ _ _ Hmk) in H.
  assert (Hc : classified_as_aggregate p r = false).
  { unfold classified_as_aggregate. now rewrite Hraw. }
  rewrite Hc in H.
  destruct (obj_get h "") as [g0 |] eqn:Eg.
  - cbn [obind] in H.
    destruct (AGG_METADATA_FIELD g0) as [md0 |]; [| discriminate H].
    cbn [obind count_contribution] in H.
    destruct (foldM (fold_standard _ _ _) _ _) as [s1 |] eqn:E1; [| discriminate H].
    cbn [obind] in H.
    destruct (foldM (fold_weighted _ _ _) _ _) as [s2 |] eqn:E2; [| discriminate H].
    cbn [obind] in H. inversion H; subst h'.
    eexists _, _, s1. rewrite obj_get_set_same.
    split; [reflexivity |]. split; [reflexivity |]. now split.
  - cbn [existsb Object_prototype_keys String.eqb orb obind] in H.
    unfold new_group in H. rewrite Hmk in H.
    cbn [fold_left AGG_METADATA_FIELD obind count_contribution properties
           METADATA_SOURCES_FIELD METADATA_COUNT_FIELD
           METADATA_MATCH_KEYS_FIELD] in H.
    destruct (foldM (fold_standard _ _ _) _ _) as [s1 |] eqn:E1; [| discriminate H].
    cbn [obind] in H.
    destruct (foldM (fold_weighted _ _ _) _ _) as [s2 |] eqn:E2; [| discriminate H].
    cbn [obind] in H. inversion H; subst h'.
    eexists _, _, s1. rewrite obj_get_set_same.
    split; [reflexivity |]. split; [reflexivity |]. now split.
Qed.

Lemma state_of_totals_sources h key fresh :
  state_of_totals h key fresh
  = state_in (match obj_get h "" with
              | Some g0 => match AGG_METADATA_FIELD g0 with
                           | Some md0 => METADATA_SOURCES_FIELD md0
                           | None => []
                           end
              | None => []
              end) key fresh.
Proof.
  unfold state_of_totals, state_in.
  destruct (obj_get h "") as [g |]; [| reflexivity].
  now destruct (AGG_METADATA_FIELD g).
Qed.

(** The loop over raw records, seen from one key: the state of the key in
    the group of the totals is what [turn] makes of it, record after
    record. *)
Lemma totals_state_by_turns v p key fresh
  (turn : record -> SourceState -> SourceState) :
  matchKeys p = [] ->
  (forall r h h',
      AGG_METADATA_FIELD r = None ->
      fold_record_value v p r h = Ok h' ->
      exists g md,
        obj_get h' "" = Some g /\ AGG_METADATA_FIELD g = Some md
        /\ obj_get (METADATA_SOURCES_FIELD md) key
           = Some (turn r (state_of_totals h key fresh))) ->
  forall rs,
    Forall (fun r => AGG_METADATA_FIELD r = None) rs ->
    rs <> [] ->
    forall h0 h,
      foldM (fold_record_value v p) rs h0 = Ok h ->
      exists g md,
        obj_get h "" = Some g /\ AGG_METADATA_FIELD g = Some md
        /\ obj_get (METADATA_SOURCES_FIELD md) key
           = Some (fold_left (fun st r => turn r st) rs
                     (state_of_totals h0 key fresh)).
Proof.
  intros Hmk Hstep. induction 1 as [| r rs Hr Hrs IH]; intros Hne h0 h H.
  - now contradiction Hne.
  - cbn [foldM] in H.
    destruct (fold_record_value v p r h0) as [h1 |] eqn:E; [| discriminate H].
    cbn [obind] in H. destruct (Hstep r h0 h1 Hr E) as (g1 & md1 & Hg1 & Hmd1 & Hs1).
    destruct rs as [| r' rs'].
    + cbn [foldM] in H. inversion H; subst h. cbn [fold_left].
      now exists g1, md1.
    + destruct (IH ltac:(discriminate) h1 h H) as (g & md & Hg & Hmd & Hs).
      exists g, md. split; [exact Hg |]. split; [exact Hmd |].
      rewrite Hs. cbn [fold_left]. do 2 f_equal.
      unfold state_of_totals, state_in. now rewrite Hg1, Hmd1, Hs1.
Qed.

Lemma standard_state_turn v p sf r h h' :
  matchKeys p = [] ->
  In sf (standardSourceFields (fields p)) ->
  ~ In sf
      (map (fun f => getWeightedAverageMetadataKey (sourceField f) (weightField f))
         (weightedAvgFields (fields p))) ->
  AGG_METADATA_FIELD r = None ->
  fold_record_value v p r h = Ok h' ->
  exists g md,
    obj_get h' "" = Some g /\ AGG_METADATA_FIELD g = Some md
    /\ obj_get (METADATA_SOURCES_FIELD md) sf
       = Some (standard_turn v r sf (state_of_totals h sf fresh_standard)).
Proof.
  intros Hmk Hin Hnot Hraw H.
  destruct (fold_record_value_raw v p r h h' Hmk Hraw H)
    as (g & md & s1 & Hg & Hmd & E1 & E2).
  exists g, md. split; [exact Hg |]. split; [exact Hmd |].
  assert (Hother : forall f, In f (weightedAvgFields (fields p)) ->
                     getWeightedAverageMetadataKey (sourceField f) (weightField f)
                     <> sf).
  { intros f Hf E. apply Hnot. rewrite <- E. apply in_map_iff. now exists f. }
  rewrite (keyed_other (fold_weighted v r false)
             (fun f => getWeightedAverageMetadataKey (sourceField f) (weightField f))
             (weighted_turn v r) fresh_weighted (fold_weighted_raw v r)
             sf (weightedAvgFields (fields p)) Hother _ _ E2).
  assert (Hnd : NoDup (map (fun sf : string => sf)
                         (standardSourceFields (fields p))))
    by (rewrite map_id; apply standardSourceFields_NoDup).
  rewrite (keyed_one (fold_standard v r false) (fun sf => sf)
             (standard_turn v r) fresh_standard (fold_standard_raw v r)
             sf (standardSourceFields (fields p)) Hnd Hin _ _ E1).
  now rewrite state_of_totals_sources.
Qed.

Lemma weighted_state_turn v p f r h h' :
  matchKeys p = [] ->
  In f (weightedAvgFields (fields p)) ->
  ~ In (getWeightedAverageMetadataKey (sourceField f) (weightField f))
      (standardSourceFields (fields p)) ->
  AGG_METADATA_FIELD r = None ->
  fold_record_value v p r h = Ok h' ->
  exists g md,
    obj_get h' "" = Some g /\ AGG_METADATA_FIELD g = Some md
    /\ obj_get (METADATA_SOURCES_FIELD md)
         (getWeightedAverageMetadataKey (sourceField f) (weightField f))
       = Some (weighted_turn v r f
                 (state_of_totals h
                    (getWeightedAverageMetadataKey (sourceField f) (weightField f))
                    fresh_weighted)).
Proof.
  intros Hmk Hin Hnot Hraw H.
  destruct (fold_record_value_raw v p r h h' Hmk Hraw H)
    as (g & md & s1 & Hg & Hmd & E1 & E2).
  exists g, md. split; [exact Hg |]. split; [exact Hmd |].
  rewrite (keyed_one (fold_weighted v r false)
             (fun f => getWeightedAverageMetadataKey (sourceField f) (weightField f))
             (weighted_turn v r) fresh_weighted (fold_weighted_raw v r)
             f (weightedAvgFields (fields p))
             (weightedAvgFields_NoDup (fields p)) Hin _ _ E2).
  do 2 f_equal. unfold state_in at 1.
  assert (Hother : forall sf, In sf (standardSourceFields (fields p)) ->
                     sf <> getWeightedAverageMetadataKey (sourceField f)
                             (weightField f)).
  { intros sf Hsf E. apply Hnot. now rewrite <- E. }
  rewrite (keyed_other (fold_standard v r false) (fun sf => sf)
             (standard_turn v r) fresh_standard (fold_standard_raw v r)
             _ (standardSourceFields (fields p)) Hother _ _ E1).
  now rewrite state_of_totals_sources.
Qed.

(** ** What the metadata of the totals holds *)

Lemma fold_left_standard_turn v sf rs :
  forall s q mn mx ws tw,
    fold_left (fun st r => standard_turn v r sf st) rs
      (mkSourceState (Some s) (Some q) (Some mn) (Some mx) ws tw)
    = let values := map (fun r => operand v (get_record r (Some sf))) rs in
      mkSourceState
        (Some (fold_left add values s))
        (Some (fold_left add (map (fun x => mul x x) values) q))
        (Some (fold_left (smaller v) values mn))
        (Some (fold_left (larger v) values mx))
        ws tw.
Proof.
  induction rs as [| r rs IH]; intros s q mn mx ws tw; cbn [fold_left map];
    [reflexivity |].
  unfold standard_turn at 2.
  cbn [METADATA_SUM_FIELD METADATA_SUM_OF_SQUARES_FIELD METADATA_MIN_FIELD
         METADATA_MAX_FIELD METADATA_WEIGHTED_SUM_FIELD
         METADATA_TOTAL_WEIGHT_FIELD optnum].
  rewrite min_assign_settled, max_assign_settled. apply IH.
Qed.

Lemma fold_left_weighted_turn v f rs :
  forall s q mn mx ws tw,
    fold_left (fun st r => weighted_turn v r f st) rs
      (mkSourceState s q mn mx (Some ws) (Some tw))
    = mkSourceState s q mn mx
        (Some (fold_left add
                 (map (fun r => mul (operand v (get_record r (sourceField f)))
                                  (operand v (get_record r (weightField f)))) rs)
                 ws))
        (Some (fold_left add
                 (map (fun r => operand v (get_record r (weightField f))) rs)
                 tw)).
Proof.
  induction rs as [| r rs IH]; intros s q mn mx ws tw; cbn [fold_left map];
    [reflexivity |].
  unfold weighted_turn at 2.
  cbn [METADATA_SUM_FIELD METADATA_SUM_OF_SQUARES_FIELD METADATA_MIN_FIELD
         METADATA_MAX_FIELD METADATA_WEIGHTED_SUM_FIELD
         METADATA_TOTAL_WEIGHT_FIELD optnum].
  apply IH.
Qed.

(** The totals of a run over raw records: the record, its metadata, and
    the group of the hash it was derived from. *)
Lemma totals_of_raw_records v p res :
  noAggregateMetadata p = false ->
  records p <> [] ->
  aggregate_value v p = Ok res ->
  exists t g,
    totals res = Some t
    /\ AGG_METADATA_FIELD t = AGG_METADATA_FIELD g
    /\ foldM (fold_record_value v (totals_request p)) (records p) []
       = Ok [("", g)].
Proof.
  intros Hn Hne H.
  apply aggregate_value_grouped in H as [_ (ts & Hts & Htot)]; [| exact Hn].
  pose proof (aggregateInternal_without_matchKeys v (totals_request p) ts
                eq_refl Hts) as Hshape.
  change (records (totals_request p)) with (records p) in Hshape.
  destruct (records p) as [| r rs]; [now contradiction Hne |].
  destruct Hshape as (g & t & Hh & Hd & ->).
  exists t, g. split; [exact Htot |]. split; [| exact Hh].
  apply (derive_group_metadata v (totals_request p) g t eq_refl Hd).
Qed.

(** The state the totals keep for a source field of a standard method, for
    raw records: what the four assignments of the loop make of the values,
    one record after the other. *)
Lemma totals_state_of_raw_records v p res sf :
  ~ In sf (map metric_key (weightedAvgFields (fields p))) ->
  noAggregateMetadata p = false ->
  Forall (fun r => AGG_METADATA_FIELD r = None) (records p) ->
  records p <> [] ->
  In sf (standardSourceFields (fields p)) ->
  aggregate_value v p = Ok res ->
  exists t md,
    totals res = Some t
    /\ AGG_METADATA_FIELD t = Some md
    /\ obj_get (METADATA_SOURCES_FIELD md) sf
       = let values :=
           map (fun r => operand v (get_record r (Some sf))) (records p) in
         Some (mkSourceState
                 (Some (fold_left add values zero))
                 (Some (fold_left add (map (fun x => mul x x) values) zero))
                 (Some (fold_left (smaller v) values Infinity))
                 (Some (fold_left (larger v) values NegInfinity))
                 None None).
Proof.
  intros Hnot Hn Hraw Hne Hin H.
  destruct (totals_of_raw_records v p res Hn Hne H) as (t & g & Htot & Hmd & Hh).
  destruct (totals_state_by_turns v (totals_request p) sf fresh_standard
              (fun r => standard_turn v r sf) eq_refl
              (fun r h h' => standard_state_turn v (totals_request p) sf r h h'
                               eq_refl Hin Hnot)
              (records p) Hraw Hne [] _ Hh) as (g' & md & Hg' & Hmd' & Hs).
  cbn [obj_get] in Hg'. rewrite String.eqb_refl in Hg'. inversion Hg'; subst g'.
  exists t, md. split; [exact Htot |]. split; [congruence |].
  rewrite Hs. cbv zeta. f_equal.
  apply (fold_left_standard_turn v sf (records p)).
Qed.





(** ** A value that is missing *)

Lemma fold_left_add_NaN xs : fold_left add xs NaN = NaN.
Proof. induction xs as [| x xs IH]; cbn [fold_left]; [reflexivity | exact IH]. Qed.

Lemma add_NaN_r a : add a NaN = NaN.
Proof. now destruct a. Qed.

Lemma fold_left_add_not_a_number xs :
  In NaN xs -> forall a, fold_left add xs a = NaN.
Proof.
  induction xs as [| x xs IH]; intros Hin a; [destruct Hin |].
  cbn [fold_left]. destruct Hin as [-> | Hin].
  - rewrite add_NaN_r. apply fold_left_add_NaN.
  - now apply IH.
Qed.

Lemma fold_left_BigNumber_min_NaN xs :
  fold_left (smaller BigNumbers) xs NaN = NaN.
Proof. induction xs as [| x xs IH]; cbn [fold_left]; [reflexivity | exact IH]. Qed.

Lemma fold_left_BigNumber_max_NaN xs :
  fold_left (larger BigNumbers) xs NaN = NaN.
Proof. induction xs as [| x xs IH]; cbn [fold_left]; [reflexivity | exact IH]. Qed.

Lemma BigNumber_min_NaN_r a : BigNumber_min a NaN = NaN.
Proof. now destruct a. Qed.

Lemma BigNumber_max_NaN_r a : BigNumber_max a NaN = NaN.
Proof. now destruct a. Qed.

Lemma fold_left_BigNumber_min_not_a_number xs :
  In NaN xs -> forall m, fold_left (smaller BigNumbers) xs m = NaN.
Proof.
  induction xs as [| x xs IH]; intros Hin m; [destruct Hin |].
  cbn [fold_left]. destruct Hin as [-> | Hin]; [| now apply IH].
  cbn [smaller]. rewrite BigNumber_min_NaN_r. apply fold_left_BigNumber_min_NaN.
Qed.

Lemma fold_left_BigNumber_max_not_a_number xs :
  In NaN xs -> forall m, fold_left (larger BigNumbers) xs m = NaN.
Proof.
  induction xs as [| x xs IH]; intros Hin m; [destruct Hin |].
  cbn [fold_left]. destruct Hin as [-> | Hin]; [| now apply IH].
  cbn [larger]. rewrite BigNumber_max_NaN_r. apply fold_left_BigNumber_max_NaN.
Qed.

(** [getMin] and [getMax] pass over what is no number. *)
Lemma fold_left_getMin_numbers xs :
  forall m,
    fold_left (smaller Numbers) xs m
    = fold_left (smaller Numbers) (filter is_number xs) m.
Proof.
  induction xs as [| x xs IH]; intros m; cbn [fold_left filter]; [reflexivity |].
  destruct x; cbn [is_number fold_left]; apply IH.
Qed.

Lemma fold_left_getMax_numbers xs :
  forall m,
    fold_left (larger Numbers) xs m
    = fold_left (larger Numbers) (filter is_number xs) m.
Proof.
  induction xs as [| x xs IH]; intros m; cbn [fold_left filter]; [reflexivity |].
  destruct x; cbn [is_number fold_left]; try apply IH.
  cbn [larger]. replace (lt m NaN) with false by now destruct m. apply IH.
Qed.

Lemma filter_is_number xs : Forall (fun x => x <> NaN) (filter is_number xs).
Proof.
  apply Forall_forall. intros x H. apply filter_In in H as [_ H].
  now destruct x.
Qed.



(** ** A grouped record in place of the records of its group (part_000) *)

Lemma obj_set_twice {A : Type} (o : list (string * A)) k x y :
  obj_set (obj_set o k x) k y = obj_set o k y.
Proof.
  induction o as [| [k' z] o IH]; cbn.
  - now rewrite String.eqb_refl.
  - destruct (String.eqb_spec k' k) as [-> | Hne]; cbn.
    + now rewrite String.eqb_refl.
    + destruct (String.eqb_spec k' k); [contradiction | now rewrite IH].
Qed.

Lemma obj_set_same_value {A : Type} (o : list (string * A)) k x :
  obj_get o k = Some x -> obj_set o k x = o.
Proof.
  induction o as [| [k' z] o IH]; cbn; [discriminate |].
  destruct (String.eqb_spec k' k) as [-> | Hne].
  - intros E. now inversion E.
  - intros E. now rewrite IH.
Qed.

Section Groups.
Variable p : IAggregationParams.
Hypothesis no_weightedAverage : weightedAvgFields (fields p) = [].

Lemma settled_group_empty : settled_group p (empty_group p).
Proof.
  repeat split.
  - cbn. rewrite map_map. apply map_id.
  - cbn. apply Forall_forall. intros kv H. apply in_map_iff in H as (k & <- & _).
    apply settled_fresh.
Qed.

Lemma settled_group_absorb v md r :
  settled_group p md -> settled_group p (absorb v p md r).
Proof.
  intros (Hc & Hk & Hs). repeat split; cbn.
  - apply add_zero_r_of_add.
  - rewrite map_map. exact Hk.
  - apply Forall_forall. intros kv H. apply in_map_iff in H as (kv' & <- & _).
    apply settled_absorb.
Qed.

Lemma settled_group_fold v rs :
  forall md, settled_group p md -> settled_group p (fold_left (absorb v p) rs md).
Proof.
  induction rs as [| r rs IH]; intros md H; cbn [fold_left]; [exact H |].
  apply IH. now apply settled_group_absorb.
Qed.

(** The loop body when the group of the record is new. *)
Lemma fold_record_value_new v r h :
  obj_get h (hashKey_of v p r) = None ->
  existsb (String.eqb (hashKey_of v p r)) Object_prototype_keys = false ->
  fold_record_value v p r h
  = Ok (obj_set h (hashKey_of v p r)
          (mkRecord (properties (new_group v p r))
             (Some (absorb v p (empty_group p) r)))).
Proof.
  intros Hnone Hproto. unfold fold_record_value. rewrite Hnone, Hproto.
  cbn [obind]. rewrite new_group_metadata. cbn [obind].
  rewrite count_contribution_share. cbn [obind].
  cbn [METADATA_SOURCES_FIELD METADATA_COUNT_FIELD METADATA_MATCH_KEYS_FIELD].
  rewrite (foldM_standard_absent p v r _ []).
  - cbn [obind app]. rewrite no_weightedAverage. cbn [foldM obind].
    unfold absorb, empty_group.
    cbn [METADATA_SOURCES_FIELD METADATA_COUNT_FIELD METADATA_MATCH_KEYS_FIELD].
    now rewrite map_map.
  - apply incl_refl.
  - apply standardSourceFields_NoDup.
Qed.

(** The loop body when the group of the record is there. *)
Lemma fold_record_value_old v r h g md :
  obj_get h (hashKey_of v p r) = Some g ->
  AGG_METADATA_FIELD g = Some md ->
  settled_group p md ->
  fold_record_value v p r h
  = Ok (obj_set h (hashKey_of v p r)
          (mkRecord (properties g) (Some (absorb v p md r)))).
Proof.
  intros Hg Hmd (Hc & Hk & Hs). unfold fold_record_value. rewrite Hg.
  cbn [obind]. rewrite Hmd. cbn [obind].
  rewrite count_contribution_share. cbn [obind].
  rewrite <- Hk.
  rewrite <- (app_nil_l (METADATA_SOURCES_FIELD md)) at 2.
  rewrite (foldM_standard_present p v r _ []).
  - cbn [obind app]. rewrite no_weightedAverage. now cbn [foldM obind].
  - rewrite Hk. apply incl_refl.
  - cbn [map app]. rewrite Hk. apply standardSourceFields_NoDup.
  - exact Hs.
Qed.

Lemma fold_record_value_settled v r h h' :
  settled_hash p h ->
  fold_record_value v p r h = Ok h' ->
  settled_hash p h'.
Proof.
  intros Hh H. destruct (obj_get h (hashKey_of v p r)) as [g |] eqn:Eg.
  - destruct (obj_get_Forall _ _ _ _ Hh Eg) as (md & Hmd & Hs).
    cbn [snd] in Hmd.
    rewrite (fold_record_value_old v r h g md Eg Hmd Hs) in H.
    inversion H. apply Forall_obj_set; [exact Hh |]. cbn [snd].
    eexists. split; [reflexivity |]. now apply settled_group_absorb.
  - destruct (existsb (String.eqb (hashKey_of v p r)) Object_prototype_keys)
      eqn:Ep.
    + unfold fold_record_value in H. rewrite Eg, Ep in H. discriminate H.
    + rewrite (fold_record_value_new v r h Eg Ep) in H.
      inversion H. apply Forall_obj_set; [exact Hh |]. cbn [snd].
      eexists. split; [reflexivity |].
      apply settled_group_absorb, settled_group_empty.
Qed.

Lemma foldM_settled v rs :
  forall h h',
    settled_hash p h ->
    foldM (fold_record_value v p) rs h = Ok h' ->
    settled_hash p h'.
Proof.
  intros h h' Hh H.
  apply (foldM_invariant (fold_record_value v p) (settled_hash p) rs)
    with (s := h); [| exact Hh | exact H].
  intros r s s' _. apply fold_record_value_settled.
Qed.

(** Records of one group, the group being there. *)
Lemma foldM_same_key_old v k rs :
  Forall (fun r => hashKey_of v p r = k) rs ->
  forall h g md,
    obj_get h k = Some g ->
    AGG_METADATA_FIELD g = Some md ->
    settled_group p md ->
    foldM (fold_record_value v p) rs h
    = Ok (obj_set h k
            (mkRecord (properties g) (Some (fold_left (absorb v p) rs md)))).
Proof.
  induction 1 as [| r rs Hr Hrs IH]; intros h g md Hg Hmd Hs;
    cbn [foldM fold_left].
  - rewrite obj_set_same_value; [reflexivity |].
    rewrite Hg. f_equal. destruct g as [props a]. cbn in *. now rewrite Hmd.
  - subst k. rewrite (fold_record_value_old v r h g md Hg Hmd Hs).
    cbn [obind].
    rewrite (IH _ (mkRecord (properties g) (Some (absorb v p md r)))
               (absorb v p md r)).
    + now rewrite obj_set_twice.
    + apply obj_get_set_same.
    + reflexivity.
    + now apply settled_group_absorb.
Qed.

(** Records of one group, the first of them making the group. *)
Lemma foldM_same_key_new v r rs h :
  Forall (fun r' => hashKey_of v p r' = hashKey_of v p r) rs ->
  obj_get h (hashKey_of v p r) = None ->
  existsb (String.eqb (hashKey_of v p r)) Object_prototype_keys = false ->
  foldM (fold_record_value v p) (r :: rs) h
  = Ok (obj_set h (hashKey_of v p r)
          (mkRecord (properties (new_group v p r))
             (Some (fold_left (absorb v p) (r :: rs) (empty_group p))))).
Proof.
  intros Hrs Hnone Hproto. cbn [foldM fold_left].
  rewrite (fold_record_value_new v r h Hnone Hproto). cbn [obind].
  rewrite (foldM_same_key_old v _ rs Hrs _
             (mkRecord (properties (new_group v p r))
                (Some (absorb v p (empty_group p) r)))
             (absorb v p (empty_group p) r)).
  - now rewrite obj_set_twice.
  - apply obj_get_set_same.
  - reflexivity.
  - apply settled_group_absorb, settled_group_empty.
Qed.

(** A record with the count and the states of [part] brings what the
    records of [part] bring one after the other. *)
Lemma absorb_group_of_part part A mA md :
  settled_group p md ->
  AGG_METADATA_FIELD A = Some mA ->
  isSubset (matchKeys p) (METADATA_MATCH_KEYS_FIELD mA) = true ->
  METADATA_COUNT_FIELD mA
  = METADATA_COUNT_FIELD (fold_left (absorb BigNumbers p) part (empty_group p)) ->
  METADATA_SOURCES_FIELD mA
  = METADATA_SOURCES_FIELD (fold_left (absorb BigNumbers p) part (empty_group p)) ->
  absorb BigNumbers p md A = fold_left (absorb BigNumbers p) part md.
Proof.
  intros (Hc & Hk & Hs) HA Hsub Hcount Hsources.
  rewrite fold_left_absorb in Hcount, Hsources.
  cbn [METADATA_COUNT_FIELD METADATA_SOURCES_FIELD empty_group] in Hcount, Hsources.
  rewrite map_map in Hsources. cbn [fst snd] in Hsources.
  assert (Hcl : classified_as_aggregate p A = true).
  { unfold classified_as_aggregate. rewrite HA, Hsub, no_weightedAverage.
    cbn [forallb andb]. rewrite andb_true_r.
    apply forallb_forall. intros k Hin. unfold has_source. rewrite Hsources.
    now rewrite obj_get_map_keys. }
  rewrite (fold_left_absorb BigNumbers p part md). unfold absorb. f_equal.
  - unfold count_share. rewrite Hcl, HA, Hcount.
    now rewrite fold_left_add, Hc.
  - apply map_ext_in. intros [k st] Hin. unfold absorb_standard. cbn [fst snd].
    f_equal.
    assert (Hkin : In k (standardSourceFields (fields p))).
    { rewrite <- Hk. apply in_map_iff. now exists (k, st). }
    assert (Hstate : join_states BigNumbers st (share_state BigNumbers p A k)
                     = join_states BigNumbers st
                         (fold_left
                            (fun st r =>
                               join_states BigNumbers st
                                 (share_state BigNumbers p r k))
                            part fresh_standard)).
    { unfold share_state, share, metadataOnRecord_of.
      rewrite Hcl, HA, Hsources, (obj_get_map_keys _ _ _ Hkin).
      reflexivity. }
    rewrite Hstate, fold_left_join_states.
    rewrite Forall_forall in Hs.
    f_equal. exact (join_states_fresh (k, st) (Hs _ Hin)).
Qed.

(** The hash of the loop does not change when the records of one group
    give way to a record with their key, count and states. *)
Lemma hash_with_group_of_part x part A mA before after :
  Forall (fun r => hashKey_of BigNumbers p r = hashKey_of BigNumbers p x) part ->
  hashKey_of BigNumbers p A = hashKey_of BigNumbers p x ->
  properties (new_group BigNumbers p A) = properties (new_group BigNumbers p x) ->
  AGG_METADATA_FIELD A = Some mA ->
  isSubset (matchKeys p) (METADATA_MATCH_KEYS_FIELD mA) = true ->
  METADATA_COUNT_FIELD mA
  = METADATA_COUNT_FIELD
      (fold_left (absorb BigNumbers p) (x :: part) (empty_group p)) ->
  METADATA_SOURCES_FIELD mA
  = METADATA_SOURCES_FIELD
      (fold_left (absorb BigNumbers p) (x :: part) (empty_group p)) ->
  foldM (fold_record_value BigNumbers p) (before ++ A :: after)%list []
  = foldM (fold_record_value BigNumbers p) (before ++ (x :: part) ++ after)%list [].
Proof.
  intros Hpart HkA Hprops HA Hsub Hcount Hsources.
  rewrite !(foldM_app _ before).
  destruct (foldM (fold_record_value BigNumbers p) before []) as [h |] eqn:Eh;
    [| reflexivity].
  cbn [obind]. rewrite foldM_app.
  change (foldM (fold_record_value BigNumbers p) (A :: after) h)
    with (obind (fold_record_value BigNumbers p A h)
            (foldM (fold_record_value BigNumbers p) after)).
  f_equal.
  assert (Hh : settled_hash p h).
  { apply (foldM_settled BigNumbers before [] h); [constructor | exact Eh]. }
  destruct (obj_get h (hashKey_of BigNumbers p x)) as [g |] eqn:Eg.
  - destruct (obj_get_Forall _ _ _ _ Hh Eg) as (md & Hmd & Hs).
    cbn [snd] in Hmd.
    rewrite (foldM_same_key_old BigNumbers (hashKey_of BigNumbers p x)
               (x :: part) (Forall_cons x eq_refl Hpart) h g md Eg Hmd Hs).
    rewrite <- HkA in Eg.
    rewrite (fold_record_value_old BigNumbers A h g md Eg Hmd Hs), HkA.
    now rewrite (absorb_group_of_part (x :: part) A mA md Hs HA Hsub Hcount
                   Hsources).
  - destruct (existsb (String.eqb (hashKey_of BigNumbers p x))
                Object_prototype_keys) eqn:Ep.
    + cbn [foldM]. unfold fold_record_value. rewrite HkA, Eg, Ep. reflexivity.
    + rewrite (foldM_same_key_new BigNumbers x part h Hpart Eg Ep).
      rewrite <- HkA in Eg, Ep.
      rewrite (fold_record_value_new BigNumbers A h Eg Ep), HkA, Hprops.
      now rewrite (absorb_group_of_part (x :: part) A mA (empty_group p)
                     settled_group_empty HA Hsub Hcount Hsources).
Qed.

End Groups.

Lemma fold_left_pointwise {A B : Type} (f g : A -> B -> A) l :
  (forall a x, In x l -> f a x = g a x) ->
  forall a, fold_left f l a = fold_left g l a.
Proof.
  induction l as [| x l IH]; intros H a; cbn [fold_left]; [reflexivity |].
  rewrite (H a x (or_introl eq_refl)). apply IH.
  intros a' y Hy. apply H. now right.
Qed.

(** The group a record makes, and its hash key, depend on the record by
    the labels of its match keys only. *)
Lemma new_group_labels v p r r' :
  (forall matchKey,
      In matchKey (matchKeys p) ->
      getFieldHashKey v r matchKey (bucket_of (buckets p) matchKey)
      = getFieldHashKey v r' matchKey (bucket_of (buckets p) matchKey)) ->
  new_group v p r = new_group v p r'.
Proof.
  intros H. unfold new_group. apply fold_left_pointwise.
  intros g mk Hmk. now rewrite (H mk Hmk).
Qed.

Lemma hashKey_of_labels v p r r' :
  (forall matchKey,
      In matchKey (matchKeys p) ->
      getFieldHashKey v r matchKey (bucket_of (buckets p) matchKey)
      = getFieldHashKey v r' matchKey (bucket_of (buckets p) matchKey)) ->
  hashKey_of v p r = hashKey_of v p r'.
Proof.
  intros H. unfold hashKey_of. f_equal. now apply map_ext_in.
Qed.

(** What raw records bring does not depend on the match keys of the
    request. *)
Lemma absorbed_raw_records v p p' part :
  fields p = fields p' ->
  Forall (fun r => AGG_METADATA_FIELD r = None) part ->
  METADATA_COUNT_FIELD (fold_left (absorb v p) part (empty_group p))
  = METADATA_COUNT_FIELD (fold_left (absorb v p') part (empty_group p'))
  /\ METADATA_SOURCES_FIELD (fold_left (absorb v p) part (empty_group p))
     = METADATA_SOURCES_FIELD (fold_left (absorb v p') part (empty_group p')).
Proof.
  intros Hf Hraw. rewrite !fold_left_absorb.
  cbn [METADATA_COUNT_FIELD METADATA_SOURCES_FIELD empty_group].
  rewrite <- Hf. rewrite Forall_forall in Hraw.
  assert (Hc : forall r, In r part -> classified_as_aggregate p r = false
                                      /\ classified_as_aggregate p' r = false).
  { intros r Hr. unfold classified_as_aggregate. now rewrite (Hraw r Hr). }
  split.
  - apply fold_left_pointwise. intros n r Hr. unfold count_share.
    destruct (Hc r Hr) as [-> ->]. reflexivity.
  - apply map_ext. intros kv. f_equal. apply fold_left_pointwise.
    intros st r Hr. unfold share_state, share.
    destruct (Hc r Hr) as [-> ->]. reflexivity.
Qed.

(** A request whose records all fall into one group: the one record that
    [aggregateInternal] returns has the count and the states of the
    records, and the labels of the first of them. *)
Lemma the_one_group v p x part A :
  weightedAvgFields (fields p) = [] ->
  noAggregateMetadata p = false ->
  forallb plain_key (matchKeys p) = true ->
  forallb plain_key (obj_keys (fields p)) = true ->
  (forall matchKey,
      In matchKey (matchKeys p) -> ~ In matchKey (obj_keys (fields p))) ->
  records p = x :: part ->
  aggregateInternal_value v p = Ok [A] ->
  Forall (fun r => hashKey_of v p r = hashKey_of v p x) part
  /\ AGG_METADATA_FIELD A
     = Some (fold_left (absorb v p) (x :: part) (empty_group p))
  /\ forall matchKey,
      In matchKey (matchKeys p) ->
      get_record A (Some matchKey)
      = getFieldHashKey v x matchKey (bucket_of (buckets p) matchKey).
Proof.
  intros HW Hn Hmk Hf Hdis Hrec H.
  apply aggregateInternal_value_outputs in H as (h & Hh & Hlen & Houts).
  rewrite Hrec in Hh.
  destruct (foldM_fold_record_keys v p _ [] h (NoDup_nil _) Hh) as [_ Hkeys].
  destruct h as [| [k g] [| e h']]; try discriminate Hlen.
  assert (Hall : forall r, In r (x :: part) -> hashKey_of v p r = k).
  { intros r Hr.
    assert (Hin : In (hashKey_of v p r) (map fst [(k, g)])).
    { apply Hkeys. right. apply in_map_iff. now exists r. }
    destruct Hin as [E | []]. now symmetry. }
  assert (Hpart : Forall (fun r => hashKey_of v p r = hashKey_of v p x) part).
  { apply Forall_forall. intros r Hr.
    rewrite (Hall r (or_intror Hr)), (Hall x (or_introl eq_refl)). reflexivity. }
  assert (Hproto : existsb (String.eqb (hashKey_of v p x)) Object_prototype_keys
                   = false).
  { destruct (existsb _ Object_prototype_keys) eqn:E; [| reflexivity].
    cbn [foldM] in Hh. unfold fold_record_value at 1 in Hh.
    cbn [obj_get] in Hh. rewrite E in Hh. discriminate Hh. }
  rewrite (foldM_same_key_new p HW v x part [] Hpart eq_refl Hproto) in Hh.
  cbn [obj_set] in Hh. inversion Hh; subst k g. clear Hh.
  destruct (proj1 (Houts A) (or_introl eq_refl)) as (e & [<- | []] & Hd).
  cbn [snd] in Hd.
  split; [exact Hpart |]. split.
  - now rewrite (derive_group_metadata v p _ A Hn Hd).
  - intros mk Hin. unfold derive_group in Hd.
    destruct (foldM (derive_field v p) (obj_keys (fields p)) _) as [g' |] eqn:E;
      [| discriminate Hd].
    cbn [obind] in Hd. rewrite Hn in Hd. inversion Hd; subst g'.
    destruct (derive_fields_values v p _ Hf _ _ E) as (_ & Hkeep & _).
    assert (Hplain : plain_key mk = true).
    { rewrite forallb_forall in Hmk. now apply Hmk. }
    rewrite (Hkeep mk Hplain (Hdis mk Hin)).
    rewrite (get_record_properties _ (new_group v p x)) by reflexivity.
    unfold new_group.
    rewrite (fold_set_record_plain
               (fun matchKey =>
                  getFieldHashKey v x matchKey (bucket_of (buckets p) matchKey))
               (matchKeys p) Hmk _ mk Hplain).
    assert (Ex : existsb (String.eqb mk) (matchKeys p) = true).
    { apply existsb_exists. exists mk. split; [exact Hin | apply String.eqb_refl]. }
    now rewrite Ex.
Qed.

(** Composability and augmentability of a group in part_000, for raw
    records, fields without weighted averages and match keys without
    buckets (plain keys that no output field overwrites).  When [aggregate]
    returns one grouped record for a list of raw records, that record can
    stand among the records of the request in the place of the list:
    [aggregate] gives the same outcome, result or error. *)
Theorem grouped_record_stands_for_its_records p part before after res A :
  weightedAvgFields (fields p) = [] ->
  buckets p = None ->
  respects_reserved_key p = true ->
  forallb plain_key (matchKeys p) = true ->
  forallb plain_key (obj_keys (fields p)) = true ->
  (forall matchKey,
      In matchKey (matchKeys p) -> ~ In matchKey (obj_keys (fields p))) ->
  Forall (fun r => AGG_METADATA_FIELD r = None) part ->
  fst (run (aggregate BigNumbers (grouped_request (with_records p part))))
  = Ok res ->
  aggregatedRecords res = [A] ->
  fst (run (aggregate BigNumbers (with_records p (before ++ A :: after)%list)))
  = fst (run (aggregate BigNumbers
                (with_records p (before ++ part ++ after)%list))).
Proof.
  intros HW Hb _ Hmk Hf Hdis Hraw H HA. unfold run in *.
  rewrite aggregate_fst in H. rewrite !aggregate_fst.
  apply aggregate_value_grouped in H as [Hg _]; [| reflexivity].
  rewrite HA in Hg.
  destruct part as [| x part].
  { exfalso. unfold aggregateInternal_value in Hg. cbn in Hg.
    destruct (sortBy p); cbn in Hg; discriminate Hg. }
  destruct (the_one_group BigNumbers
              (grouped_request (grouped_request (with_records p (x :: part))))
              x part A HW eq_refl Hmk Hf Hdis eq_refl Hg)
    as (Hkeys & Hmd & Hlab).
  change (Forall (fun r => hashKey_of BigNumbers p r = hashKey_of BigNumbers p x)
            part) in Hkeys.
  change (AGG_METADATA_FIELD A
          = Some (fold_left (absorb BigNumbers p) (x :: part) (empty_group p)))
    in Hmd.
  change (forall matchKey,
             In matchKey (matchKeys p) ->
             get_record A (Some matchKey)
             = getFieldHashKey BigNumbers x matchKey
                 (bucket_of (buckets p) matchKey)) in Hlab.
  assert (Hsame : forall matchKey,
             In matchKey (matchKeys p) ->
             getFieldHashKey BigNumbers A matchKey (bucket_of (buckets p) matchKey)
             = getFieldHashKey BigNumbers x matchKey
                 (bucket_of (buckets p) matchKey)).
  { intros mk Hin. rewrite <- (Hlab mk Hin). rewrite Hb. reflexivity. }
  assert (Hgrouped :
            aggregateInternal_value BigNumbers
              (grouped_request (with_records p (before ++ A :: after)%list))
            = aggregateInternal_value BigNumbers
                (grouped_request
                   (with_records p (before ++ (x :: part) ++ after)%list))).
  { apply aggregateInternal_value_same_hash; try reflexivity.
    cbn [records grouped_request with_records].
    change (fold_record_value BigNumbers (mkParams (before ++ A :: after)%list
              (matchKeys p) (buckets p) (fields p) false (sortBy p)))
      with (fold_record_value BigNumbers p).
    change (fold_record_value BigNumbers
              (mkParams (before ++ (x :: part) ++ after)%list
                 (matchKeys p) (buckets p) (fields p) false (sortBy p)))
      with (fold_record_value BigNumbers p).
    apply (hash_with_group_of_part p HW x part A _ before after Hkeys
             (hashKey_of_labels _ _ _ _ Hsame)
             (f_equal properties (new_group_labels _ _ _ _ Hsame)) Hmd);
      [| reflexivity | reflexivity].
    rewrite fold_left_absorb. cbn [METADATA_MATCH_KEYS_FIELD empty_group].
    apply isSubset_incl, incl_refl. }
  assert (Hraw' : METADATA_COUNT_FIELD
                    (fold_left (absorb BigNumbers p) (x :: part) (empty_group p))
                  = METADATA_COUNT_FIELD
                      (fold_left (absorb BigNumbers (totals_request p)) (x :: part)
                         (empty_group (totals_request p)))
                  /\ METADATA_SOURCES_FIELD
                       (fold_left (absorb BigNumbers p) (x :: part) (empty_group p))
                     = METADATA_SOURCES_FIELD
                         (fold_left (absorb BigNumbers (totals_request p))
                            (x :: part) (empty_group (totals_request p)))).
  { now apply absorbed_raw_records. }
  destruct Hraw' as [Hcount Hsources].
  assert (Htotals :
            aggregateInternal_value BigNumbers
              (totals_request (with_records p (before ++ A :: after)%list))
            = aggregateInternal_value BigNumbers
                (totals_request
                   (with_records p (before ++ (x :: part) ++ after)%list))).
  { apply aggregateInternal_value_same_hash; try reflexivity.
    cbn [records totals_request with_records].
    change (fold_record_value BigNumbers (mkParams (before ++ A :: after)%list
              [] None (fields p) false (sortBy p)))
      with (fold_record_value BigNumbers (totals_request p)).
    change (fold_record_value BigNumbers
              (mkParams (before ++ (x :: part) ++ after)%list
                 [] None (fields p) false (sortBy p)))
      with (fold_record_value BigNumbers (totals_request p)).
    apply (hash_with_group_of_part (totals_request p) HW x part A
             (fold_left (absorb BigNumbers p) (x :: part) (empty_group p))
             before after);
      try reflexivity; [| exact Hmd | exact Hcount | exact Hsources].
    apply Forall_forall. intros r _. reflexivity. }
  unfold aggregate_value. now rewrite Hgrouped, Htotals.
Qed.

Lemma grouped_record_stands_for_its_records_witness :
  fst (run (aggregate BigNumbers
              (with_records (sum_only []) (chunk2 ++ chunk1_summed :: [])%list)))
  = fst (run (aggregate BigNumbers
                (with_records (sum_only []) (chunk2 ++ chunk1 ++ [])%list))).
Proof.
  refine (grouped_record_stands_for_its_records (sum_only []) chunk1 chunk2 []
            _ chunk1_summed eq_refl eq_refl eq_refl eq_refl eq_refl _ _
            eq_refl eq_refl).
  - cbn. intros mk [<- | []] [E | []]. discriminate E.
  - repeat constructor.
Defined.

(** ** Reading the labels of the buckets back *)

Lemma scan_digits_uint d :
  forall rest acc cnt,
    scan_digits (NilEmpty.string_of_uint d ++ rest) acc cnt
    = scan_digits rest (uint_value d acc) (cnt + Decimal.nb_digits d).
Proof.
  induction d; intros rest acc cnt;
    cbn [NilEmpty.string_of_uint append uint_value Decimal.nb_digits];
    try (now rewrite Nat.add_0_r);
    (cbn [scan_digits];
     match goal with
     | |- context [is_digit ?c] => change (is_digit c) with true
     end;
     cbv iota; rewrite IHd; rewrite Nat.add_succ_r; reflexivity).
Qed.

Lemma uint_value_acc d :
  forall acc, Zpos (Pos.of_uint_acc d acc) = uint_value d (Zpos acc).
Proof.
  induction d; intros acc; cbn [Pos.of_uint_acc uint_value];
    try reflexivity; rewrite IHd; f_equal; lia.
Qed.

Lemma uint_value_of_uint d : Z.of_N (Pos.of_uint d) = uint_value d 0.
Proof.
  induction d; cbn [Pos.of_uint uint_value]; try reflexivity;
    try exact IHd; cbn [Z.of_N]; now rewrite uint_value_acc.
Qed.

Lemma all_digits_uint d : all_digits (NilEmpty.string_of_uint d) = true.
Proof. induction d; cbn; auto. Qed.

(** The numeral of a whole number that is not negative: digits, at least
    one, and [scan_digits] reads the number back. *)
Lemma Z_to_string_digits z :
  0 <= z ->
  exists c r,
    Z_to_string z = String c r
    /\ all_digits (String c r) = true
    /\ forall rest,
        scan_digits (String c r ++ rest) 0 0%nat
        = scan_digits rest z (String.length (String c r)).
Proof.
  intros Hz. unfold Z_to_string. destruct z as [| q | q]; [| | lia].
  - exists "0"%char, "". repeat split.
  - cbn [Z.to_int NilZero.string_of_int]. unfold NilZero.string_of_uint.
    pose proof (Unsigned.to_uint_nonnil q) as Hnil.
    pose proof (Unsigned.of_to q) as Hof.
    pose proof (uint_value_of_uint (Pos.to_uint q)) as Hval.
    rewrite Hof in Hval. cbn [Z.of_N] in Hval.
    pose proof (all_digits_uint (Pos.to_uint q)) as Hdig.
    pose proof (scan_digits_uint (Pos.to_uint q)) as Hscan.
    assert (Hlen : forall d, String.length (NilEmpty.string_of_uint d)
                             = Decimal.nb_digits d).
    { induction d; cbn; auto. }
    rewrite <- Hlen in Hscan.
    destruct (Pos.to_uint q) eqn:E; [now destruct Hnil | | | | | | | | | |];
      cbn [NilEmpty.string_of_uint] in *;
      (eexists; eexists; split; [reflexivity |]; split; [exact Hdig |];
       intros rest; rewrite (Hscan rest 0 0%nat), <- Hval; reflexivity).
Qed.

Lemma is_digit_cases c :
  is_digit c = true ->
  In c ["0"; "1"; "2"; "3"; "4"; "5"; "6"; "7"; "8"; "9"]%char.
Proof.
  destruct c as [[] [] [] [] [] [] [] []]; intros H;
    try discriminate H; cbn; tauto.
Qed.

Ltac digit_cases H :=
  apply is_digit_cases in H;
  repeat (destruct H as [H | H]; [subst |]); [.. | destruct H].

Lemma string_app_nil_r (s : string) : (s ++ "")%string = s.
Proof. induction s as [| c s IH]; cbn; [reflexivity | now rewrite IH]. Qed.

(** [Number] reads the numeral of a whole number that is not negative. *)
Lemma Number_Z_to_string z : 0 <= z -> Number (Z_to_string z) = ofZ z.
Proof.
  intros Hz. destruct (Z_to_string_digits z Hz) as (c & r & -> & Hd & Hscan).
  specialize (Hscan ""). rewrite string_app_nil_r in Hscan.
  cbn [scan_digits] in Hscan.
  assert (Hparse : parse_unsigned (String c r) = Some (inject_Z z)).
  { unfold parse_unsigned.
    change (scan_digits (String c r) 0 0%nat)
      with (scan_digits (String c r) 0 0%nat).
    destruct (scan_digits (String c r) 0 0%nat) as [[i ni] rest] eqn:E.
    cbn [all_digits] in Hd. apply andb_true_iff in Hd as [Hc _].
    assert (E' : (i, ni, rest) = (z, String.length (String c r), "")).
    { rewrite <- E. digit_cases Hc; exact Hscan. }
    inversion E'. reflexivity. }
  cbn [all_digits] in Hd. apply andb_true_iff in Hd as [Hc _].
  assert (HN : Number (String c r)
               = match parse_unsigned (String c r) with
                 | Some q => fin q
                 | None => NaN
                 end).
  { digit_cases Hc; reflexivity. }
  rewrite HN, Hparse. unfold fin, ofZ. f_equal. apply Qred_inject_Z.
Qed.

Lemma num_toString_ofZ z : 0 <= z -> num_toString (ofZ z) = Z_to_string z.
Proof.
  intros Hz. unfold num_toString, ofZ, inject_Z.
  cbn [Qnum Qden]. rewrite Z.abs_eq by exact Hz.
  rewrite Z.div_1_r, Z.mod_1_r.
  destruct (Z.ltb_spec z 0) as [H | _]; [lia |].
  cbn [Z.eqb append]. apply string_app_nil_r.
Qed.

Lemma last_char_cons c r :
  last_char (String c r)
  = match r with EmptyString => Some c | String _ _ => last_char r end.
Proof.
  unfold last_char. destruct r as [| c' r']; [reflexivity |].
  cbn [String.length Nat.sub]. rewrite Nat.sub_0_r. reflexivity.
Qed.

Lemma last_char_app s c r :
  last_char (s ++ String c r) = last_char (String c r).
Proof.
  induction s as [| a s IH]; [reflexivity |].
  cbn [append]. rewrite last_char_cons.
  destruct s as [| a' s']; cbn [append] in *; [reflexivity | exact IH].
Qed.

Lemma endsWith_char_app s c r x :
  endsWith_char (s ++ String c r) x = endsWith_char (String c r) x.
Proof.
  unfold endsWith_char. rewrite last_char_app. now destruct s.
Qed.

Lemma last_char_digit s :
  all_digits s = true ->
  forall c, last_char s = Some c -> is_digit c = true.
Proof.
  induction s as [| a s IH]; intros Hd c H; [discriminate H |].
  cbn [all_digits] in Hd. apply andb_true_iff in Hd as [Ha Hs].
  rewrite last_char_cons in H. destruct s as [| b s'].
  - now inversion H; subst.
  - now apply IH.
Qed.

Lemma slice_drop_last_app s c : slice_drop_last (s ++ String c "") = s.
Proof.
  unfold slice_drop_last.
  assert (H : forall s, String.substring 0 (String.length s) (s ++ String c "")
                        = s).
  { clear s. induction s as [| a s IH]; [reflexivity |].
    cbn [String.length append String.substring]. now rewrite IH. }
  replace (String.length (s ++ String c "") - 1)%nat with (String.length s);
    [apply H |].
  clear H. induction s as [| a s IH]; [reflexivity |].
  cbn [String.length append]. rewrite IH at 1.
  destruct (String.length (s ++ String c "")) eqn:E; [| cbn; lia].
  destruct s; discriminate E.
Qed.

Lemma split_on_digits sep s :
  Ascii.eqb sep "-" = true ->
  all_digits s = true ->
  forall rest cur,
    split_on sep (s ++ rest) cur = split_on sep rest (cur ++ s).
Proof.
  intros Hsep. apply Ascii.eqb_eq in Hsep. subst sep.
  induction s as [| c s IH]; intros Hd rest cur.
  - now rewrite string_app_nil_r.
  - cbn [all_digits] in Hd. apply andb_true_iff in Hd as [Hc Hs].
    cbn [append split_on].
    assert (E : Ascii.eqb c "-" = false) by (digit_cases Hc; reflexivity).
    rewrite E, (IH Hs). f_equal.
    clear. induction cur as [| a cur IH]; [reflexivity |].
    cbn [append]. now rewrite IH.
Qed.

Lemma split_on_separator sep rest cur :
  split_on sep (String sep rest) cur = cur :: split_on sep rest "".
Proof. cbn [split_on]. now rewrite Ascii.eqb_refl. Qed.

(** [parseBucketString] on the labels of breakpoints that are whole numbers
    and not negative (below 10^21, from where on JavaScript prints an
    exponent).  A range and an open last bucket give back their bounds; the
    lowest bucket gives [-Infinity] and, in src/aggregate.ts, its bound: in
    part_000 [slice(1)] keeps the [=] of ["<=b"], and the upper bound is
    not a number. *)
Theorem parseBucketString_reads_the_labels v a b :
  0 <= a < 10 ^ 21 ->
  0 <= b < 10 ^ 21 ->
  parseBucketString v (lowest_prefix v ++ num_toString (ofZ b))
  = [NegInfinity; match v with Numbers => ofZ b | BigNumbers => NaN end]
  /\ parseBucketString v (num_toString (ofZ a) ++ "-" ++ num_toString (ofZ b))
     = [ofZ a; ofZ b]
  /\ parseBucketString v (num_toString (ofZ b) ++ "+") = [ofZ b; Infinity].
Proof.
  intros [Ha _] [Hb _].
  rewrite (num_toString_ofZ a Ha), (num_toString_ofZ b Hb).
  pose proof (Number_Z_to_string a Ha) as HNa.
  pose proof (Number_Z_to_string b Hb) as HNb.
  destruct (Z_to_string_digits a Ha) as (ca & ra & Ea & Hda & _).
  destruct (Z_to_string_digits b Hb) as (cb & rb & Eb & Hdb & _).
  rewrite Ea in *. rewrite Eb in *.
  assert (Hca : is_digit ca = true).
  { cbn [all_digits] in Hda. now apply andb_true_iff in Hda as [H _]. }
  assert (Hcb : is_digit cb = true).
  { cbn [all_digits] in Hdb. now apply andb_true_iff in Hdb as [H _]. }
  assert (Hstart : forall c r rest,
             is_digit c = true ->
             startsWith (String c r ++ rest) (lowest_prefix v) = false).
  { intros c r rest Hc. destruct v; digit_cases Hc; reflexivity. }
  split; [| split].
  - unfold parseBucketString.
    assert (E : startsWith (lowest_prefix v ++ String cb rb) (lowest_prefix v)
                = true) by (destruct v; cbn; now rewrite ?Ascii.eqb_refl).
    rewrite E. destruct v; cbn [lowest_prefix append slice_from_1].
    + now rewrite HNb.
    + reflexivity.
  - unfold parseBucketString. rewrite (Hstart ca ra _ Hca).
    assert (Hend : endsWith_char (String ca ra ++ "-" ++ String cb rb) "+"
                   = false).
    { change (String ca ra ++ "-" ++ String cb rb)%string
        with (String ca ra ++ String "-" (String cb rb))%string.
      rewrite endsWith_char_app.
      change (String "-" (String cb rb))
        with (String "-" "" ++ String cb rb)%string.
      rewrite endsWith_char_app. unfold endsWith_char.
      destruct (last_char (String cb rb)) as [c |] eqn:El; [| reflexivity].
      pose proof (last_char_digit _ Hdb c El) as Hc.
      digit_cases Hc; reflexivity. }
    rewrite Hend. unfold split.
    rewrite (split_on_digits "-" _ eq_refl Hda).
    change ("-" ++ String cb rb)%string with (String "-" (String cb rb)).
    rewrite split_on_separator.
    rewrite <- (string_app_nil_r (String cb rb)) at 1.
    rewrite (split_on_digits "-" _ eq_refl Hdb).
    cbn [append split_on map].
    now rewrite HNa, HNb.
  - unfold parseBucketString. rewrite (Hstart cb rb _ Hcb).
    assert (Hend : endsWith_char (String cb rb ++ "+") "+" = true).
    { now rewrite endsWith_char_app. }
    rewrite Hend, slice_drop_last_app. now rewrite HNb.
Qed.

Lemma parseBucketString_reads_the_labels_witness :
  parseBucketString BigNumbers
    (lowest_prefix BigNumbers ++ num_toString (ofZ 20))
  = [NegInfinity; NaN]
  /\ parseBucketString BigNumbers
       (num_toString (ofZ 10) ++ "-" ++ num_toString (ofZ 20))
     = [ofZ 10; ofZ 20]
  /\ parseBucketString BigNumbers (num_toString (ofZ 20) ++ "+")
     = [ofZ 20; Infinity].
Proof.
  apply (parseBucketString_reads_the_labels BigNumbers 10 20); lia.
Defined.

(** ** Grouped records in place of their records (part_000) *)

Section Regrouping.
Variable p : IAggregationParams.
Hypothesis no_weightedAverage : weightedAvgFields (fields p) = [].

(** One turn of the loop, on a hash whose groups are settled. *)
Lemma fold_record_value_turn v r h h' :
  settled_hash p h ->
  fold_record_value v p r h = Ok h' ->
  h' = obj_set h (hashKey_of v p r)
         (group_turn v p r (obj_get h (hashKey_of v p r))).
Proof.
  intros Hh H. destruct (obj_get h (hashKey_of v p r)) as [g |] eqn:Eg.
  - destruct (obj_get_Forall _ _ _ _ Hh Eg) as (md & Hmd & Hs).
    cbn [snd] in Hmd.
    rewrite (fold_record_value_old p no_weightedAverage v r h g md Eg Hmd Hs)
      in H.
    inversion H. unfold group_turn. now rewrite Hmd.
  - destruct (existsb (String.eqb (hashKey_of v p r)) Object_prototype_keys)
      eqn:Ep.
    + unfold fold_record_value in H. rewrite Eg, Ep in H. discriminate H.
    + rewrite (fold_record_value_new p no_weightedAverage v r h Eg Ep) in H.
      now inversion H.
Qed.

(** The loop, seen from one key: the group of the key is made by the
    records that fall into it, in their order. *)
Lemma foldM_group v key rs :
  forall h h',
    settled_hash p h ->
    foldM (fold_record_value v p) rs h = Ok h' ->
    obj_get h' key
    = fold_left (fun group r => Some (group_turn v p r group))
        (records_of v p key rs) (obj_get h key).
Proof.
  induction rs as [| r rs IH]; intros h h' Hh H; cbn [foldM] in H.
  - now inversion H.
  - destruct (fold_record_value v p r h) as [h1 |] eqn:E; [| discriminate H].
    cbn [obind] in H.
    pose proof (fold_record_value_settled p no_weightedAverage v r h h1 Hh E)
      as Hh1.
    rewrite (IH h1 h' Hh1 H). unfold records_of. cbn [filter].
    rewrite (fold_record_value_turn v r h h1 Hh E).
    destruct (String.eqb_spec (hashKey_of v p r) key) as [<- | Hne].
    + cbn [fold_left]. now rewrite obj_get_set_same.
    + now rewrite obj_get_set_other.
Qed.

Lemma fold_left_group_turn v rs :
  forall g md,
    AGG_METADATA_FIELD g = Some md ->
    fold_left (fun group r => Some (group_turn v p r group)) rs (Some g)
    = Some (mkRecord (properties g) (Some (fold_left (absorb v p) rs md))).
Proof.
  induction rs as [| r rs IH]; intros g md Hmd; cbn [fold_left].
  - destruct g as [props a]. cbn in *. now rewrite Hmd.
  - unfold group_turn at 2. rewrite Hmd. now rewrite (IH _ (absorb v p md r)).
Qed.

(** The group that the records of a key make where there was none. *)
Lemma fold_left_group_turn_new v x rs :
  fold_left (fun group r => Some (group_turn v p r group)) (x :: rs) None
  = Some (mkRecord (properties (new_group v p x))
            (Some (fold_left (absorb v p) (x :: rs) (empty_group p)))).
Proof.
  cbn [fold_left]. unfold group_turn at 2.
  now rewrite (fold_left_group_turn v rs _ (absorb v p (empty_group p) x)).
Qed.

End Regrouping.

Lemma filter_Permutation {A : Type} (f : A -> bool) l l' :
  Permutation l l' -> Permutation (filter f l) (filter f l').
Proof.
  induction 1 as [| x l l' _ IH | x y l | l l' l'' _ IH1 _ IH2]; cbn [filter].
  - constructor.
  - destruct (f x); [now constructor | exact IH].
  - destruct (f x), (f y); try apply Permutation_refl. apply perm_swap.
  - now apply perm_trans with (filter f l').
Qed.

Lemma mapM_Ok_iff {A B : Type} (F : A -> outcome B) l :
  (exists ys, mapM F l = Ok ys) <-> (forall x, In x l -> exists y, F x = Ok y).
Proof.
  induction l as [| x l IH]; cbn [mapM].
  - split; [intros _ x [] | intros _; now exists []].
  - split.
    + intros (ys & H) x' Hin.
      destruct (F x) as [y |] eqn:E; [| discriminate H]. cbn [obind] in H.
      destruct (mapM F l) as [ys' |]; [| discriminate H].
      destruct Hin as [<- | Hin]; [now exists y |].
      apply (proj1 IH); [now exists ys' | exact Hin].
    + intros H. destruct (H x (or_introl eq_refl)) as (y & ->). cbn [obind].
      destruct (proj2 IH) as (ys & ->); [intros x' Hx'; apply H; now right |].
      cbn [obind]. now exists (y :: ys).
Qed.

(** [mapM] takes lists with the same members, in another order, to lists
    with the same members. *)
Lemma mapM_Permutation {A B : Type} (F : A -> outcome B) l l' :
  Permutation l l' ->
  forall ys ys', mapM F l = Ok ys -> mapM F l' = Ok ys' -> Permutation ys ys'.
Proof.
  induction 1 as [| x l l' Hp IH | x y l | l l' l'' Hp1 IH1 Hp2 IH2];
    intros ys ys' H H'; cbn [mapM] in *.
  - inversion H. inversion H'. constructor.
  - destruct (F x) as [y |]; [| discriminate H]. cbn [obind] in *.
    destruct (mapM F l) as [t |]; [| discriminate H].
    destruct (mapM F l') as [t' |]; [| discriminate H'].
    cbn [obind] in *. inversion H. inversion H'. constructor. now apply IH.
  - destruct (F x) as [fx |]; [| destruct (F y); discriminate H].
    destruct (F y) as [fy |]; [| discriminate H]. cbn [obind] in *.
    destruct (mapM F l) as [t |]; [| discriminate H]. cbn [obind] in *.
    inversion H. inversion H'. apply perm_swap.
  - destruct (proj2 (mapM_Ok_iff F l')) as (ys1 & H1).
    { intros x Hx. apply (proj1 (mapM_Ok_iff F l)); [now exists ys |].
      apply Permutation_in with (l := l'); [now apply Permutation_sym | exact Hx]. }
    apply perm_trans with ys1; [now apply IH1 | now apply IH2].
Qed.

Lemma mapM_filter {A B : Type} (F : A -> outcome B) (keep : A -> bool)
  (keep' : B -> bool) l :
  (forall x y, In x l -> F x = Ok y -> keep' y = keep x) ->
  forall ys, mapM F l = Ok ys -> mapM F (filter keep l) = Ok (filter keep' ys).
Proof.
  induction l as [| x l IH]; intros Hk ys H; cbn [mapM filter] in *.
  - now inversion H.
  - destruct (F x) as [y |] eqn:E; [| discriminate H]. cbn [obind] in H.
    destruct (mapM F l) as [t |]; [| discriminate H]. cbn [obind] in H.
    inversion H. cbn [filter]. rewrite (Hk x y (or_introl eq_refl) E).
    assert (IH' : mapM F (filter keep l) = Ok (filter keep' t)).
    { apply IH; [| reflexivity]. intros x' y' Hin. apply Hk. now right. }
    destruct (keep x); [| exact IH']. cbn [mapM]. now rewrite E, IH'.
Qed.

Lemma obj_get_None {A : Type} (o : list (string * A)) k :
  obj_get o k = None -> ~ In k (map fst o).
Proof.
  induction o as [| [k' y] o IH]; cbn; [tauto |].
  destruct (String.eqb_spec k' k) as [-> | Hne]; [discriminate |].
  intros H [E | Hin]; [congruence | now apply IH].
Qed.

Lemma obj_get_NoDup {A : Type} (o : list (string * A)) k x :
  NoDup (map fst o) -> In (k, x) o -> obj_get o k = Some x.
Proof.
  induction o as [| [k' y] o IH]; cbn; [tauto |].
  intros Hnd Hin. inversion Hnd as [| ? ? Hnot Hnd']; subst.
  destruct (String.eqb_spec k' k) as [-> | Hne].
  - destruct Hin as [E | Hin]; [congruence |].
    exfalso. apply Hnot. apply in_map_iff. now exists (k, x).
  - destruct Hin as [E | Hin]; [congruence | now apply IH].
Qed.

(** The entries of one key, in an object: one at most. *)
Lemma filter_key {A : Type} (o : list (string * A)) k :
  NoDup (map fst o) ->
  filter (fun e => (fst e =? k)%string) o
  = match obj_get o k with Some x => [(k, x)] | None => [] end.
Proof.
  induction o as [| [k' y] o IH]; cbn [filter obj_get map fst];
    [reflexivity |].
  intros Hnd. inversion Hnd as [| ? ? Hnot Hnd']; subst.
  destruct (String.eqb_spec k' k) as [-> | Hne].
  - rewrite (IH Hnd'), (obj_get_absent o k Hnot). reflexivity.
  - exact (IH Hnd').
Qed.

(** Objects with the same value under every key have the same entries. *)
Lemma same_lookups_Permutation {A : Type} (o o' : list (string * A)) :
  NoDup (map fst o) -> NoDup (map fst o') ->
  (forall k, obj_get o k = obj_get o' k) ->
  Permutation o o'.
Proof.
  intros Hnd Hnd' H.
  apply NoDup_Permutation.
  - now apply NoDup_map_inv with (f := fst).
  - now apply NoDup_map_inv with (f := fst).
  - intros [k x]. split; intros Hin.
    + apply obj_get_In_pair. rewrite <- H. now apply obj_get_NoDup.
    + apply obj_get_In_pair. rewrite H. now apply obj_get_NoDup.
Qed.

(** The record derived from a group has the metadata of the group and,
    without buckets, the labels of the record that made the group. *)
Lemma derived_group_labels v p x md A :
  noAggregateMetadata p = false ->
  buckets p = None ->
  forallb plain_key (matchKeys p) = true ->
  forallb plain_key (obj_keys (fields p)) = true ->
  (forall matchKey,
      In matchKey (matchKeys p) -> ~ In matchKey (obj_keys (fields p))) ->
  derive_group v p (mkRecord (properties (new_group v p x)) (Some md)) = Ok A ->
  AGG_METADATA_FIELD A = Some md
  /\ forall matchKey,
      In matchKey (matchKeys p) ->
      getFieldHashKey v A matchKey (bucket_of (buckets p) matchKey)
      = getFieldHashKey v x matchKey (bucket_of (buckets p) matchKey).
Proof.
  intros Hn Hb Hmk Hf Hdis Hd. split.
  - now rewrite (derive_group_metadata v p _ A Hn Hd).
  - intros mk Hin. unfold derive_group in Hd.
    destruct (foldM (derive_field v p) (obj_keys (fields p)) _) as [g' |] eqn:E;
      [| discriminate Hd].
    cbn [obind] in Hd. rewrite Hn in Hd. inversion Hd; subst g'.
    destruct (derive_fields_values v p _ Hf _ _ E) as (_ & Hkeep & _).
    assert (Hplain : plain_key mk = true).
    { rewrite forallb_forall in Hmk. now apply Hmk. }
    transitivity (get_record A (Some mk)); [now rewrite Hb |].
    rewrite (Hkeep mk Hplain (Hdis mk Hin)).
    rewrite (get_record_properties _ (new_group v p x)) by reflexivity.
    unfold new_group.
    rewrite (fold_set_record_plain
               (fun matchKey =>
                  getFieldHashKey v x matchKey (bucket_of (buckets p) matchKey))
               (matchKeys p) Hmk _ mk Hplain).
    assert (Ex : existsb (String.eqb mk) (matchKeys p) = true).
    { apply existsb_exists. exists mk. split; [exact Hin | apply String.eqb_refl]. }
    now rewrite Ex.
Qed.

Section Regrouped.
Variable p : IAggregationParams.
Hypothesis no_weightedAverage : weightedAvgFields (fields p) = [].
Hypothesis keeps_metadata : noAggregateMetadata p = false.
Hypothesis no_buckets : buckets p = None.
Hypothesis plain_matchKeys : forallb plain_key (matchKeys p) = true.
Hypothesis plain_fields : forallb plain_key (obj_keys (fields p)) = true.
Hypothesis fields_apart :
  forall matchKey,
    In matchKey (matchKeys p) -> ~ In matchKey (obj_keys (fields p)).

(** A group of the hash: made by the first record of its key, with what
    the records of its key bring. *)
Lemma group_of_key v rs h key g :
  foldM (fold_record_value v p) rs [] = Ok h ->
  In (key, g) h ->
  exists x rest,
    records_of v p key rs = x :: rest
    /\ g = mkRecord (properties (new_group v p x))
             (Some (fold_left (absorb v p) (x :: rest) (empty_group p))).
Proof.
  intros Hh Hin.
  destruct (foldM_fold_record_keys v p _ [] h (NoDup_nil _) Hh) as [Hnd _].
  pose proof (obj_get_NoDup h key g Hnd Hin) as Hg.
  rewrite (foldM_group p no_weightedAverage v key rs [] h (Forall_nil _) Hh)
    in Hg.
  cbn [obj_get] in Hg.
  destruct (records_of v p key rs) as [| x rest]; [discriminate Hg |].
  exists x, rest. split; [reflexivity |].
  rewrite (fold_left_group_turn_new p v x rest) in Hg. now inversion Hg.
Qed.

(** Among the records derived from the groups of a hash, those of one key:
    none when no record fell under the key, and else a single record with
    what the records of the key bring, and with the labels of the first. *)
Lemma derived_records_of_key v rs h derived key :
  foldM (fold_record_value v p) rs [] = Ok h ->
  mapM (fun entry => derive_group v p (snd entry)) (obj_entries h) = Ok derived ->
  match records_of v p key rs with
  | [] => records_of v p key derived = []
  | x :: rest =>
      exists A,
        records_of v p key derived = [A]
        /\ AGG_METADATA_FIELD A
           = Some (fold_left (absorb v p) (x :: rest) (empty_group p))
        /\ forall matchKey,
            In matchKey (matchKeys p) ->
            getFieldHashKey v A matchKey (bucket_of (buckets p) matchKey)
            = getFieldHashKey v x matchKey (bucket_of (buckets p) matchKey)
  end.
Proof.
  intros Hh Hm.
  destruct (foldM_fold_record_keys v p _ [] h (NoDup_nil _) Hh) as [Hnd Hkeys].
  assert (Hnd' : NoDup (map fst (obj_entries h))).
  { apply Permutation_NoDup with (l := map fst h); [| exact Hnd].
    apply Permutation_map, Permutation_sym, obj_entries_Permutation. }
  assert (Hkey : forall e A,
             In e (obj_entries h) -> derive_group v p (snd e) = Ok A ->
             (hashKey_of v p A =? key)%string = (fst e =? key)%string).
  { intros [k g] A He Hd. cbn [fst snd] in *. apply (proj1 (obj_entries_In h (k, g))) in He.
    destruct (group_of_key v rs h k g Hh He) as (x & rest & Hx & ->).
    destruct (derived_group_labels v p x _ A keeps_metadata no_buckets
                plain_matchKeys plain_fields fields_apart Hd) as [_ Hlab].
    rewrite (hashKey_of_labels v p A x Hlab).
    assert (Hxin : In x (records_of v p k rs)) by (rewrite Hx; now left).
    apply filter_In in Hxin as [_ Hxk]. apply String.eqb_eq in Hxk.
    now rewrite Hxk. }
  pose proof (mapM_filter _ (fun e => (fst e =? key)%string)
                (fun A => (hashKey_of v p A =? key)%string)
                (obj_entries h) Hkey derived Hm) as Hf.
  rewrite (filter_key (obj_entries h) key Hnd') in Hf.
  change (filter (fun A => (hashKey_of v p A =? key)%string) derived)
    with (records_of v p key derived) in Hf.
  destruct (obj_get (obj_entries h) key) as [g |] eqn:Eg.
  - apply obj_get_In_pair in Eg. apply (proj1 (obj_entries_In h (key, g))) in Eg.
    destruct (group_of_key v rs h key g Hh Eg) as (x & rest & Hx & ->).
    rewrite Hx. cbn [mapM snd] in Hf.
    destruct (derive_group v p _) as [A |] eqn:Hd; [| discriminate Hf].
    cbn [obind] in Hf. inversion Hf as [HA]. exists A.
    split; [reflexivity |].
    exact (derived_group_labels v p x _ A keeps_metadata no_buckets
             plain_matchKeys plain_fields fields_apart Hd).
  - cbn [mapM] in Hf. inversion Hf as [HA].
    destruct (records_of v p key rs) as [| x rest] eqn:Hx; [reflexivity |].
    exfalso. apply obj_get_None in Eg. apply Eg.
    assert (Hxin : In x (records_of v p key rs)) by (rewrite Hx; now left).
    apply filter_In in Hxin as [Hxin Hxk]. apply String.eqb_eq in Hxk.
    apply (Permutation_in key
             (Permutation_map fst (Permutation_sym (obj_entries_Permutation h)))).
    apply Hkeys. right. apply in_map_iff. now exists x.
Qed.

Lemma fold_left_group_turn_settled v rs :
  forall group,
    settled_turn p group ->
    settled_turn p
      (fold_left (fun group r => Some (group_turn v p r group)) rs group).
Proof.
  induction rs as [| r rs IH]; intros group Hg; cbn [fold_left];
    [exact Hg |].
  apply IH. destruct group as [g |]; cbn [settled_turn group_turn].
  - destruct Hg as (md & -> & Hs). eexists. split; [reflexivity |].
    now apply settled_group_absorb.
  - eexists. split; [reflexivity |].
    apply settled_group_absorb, settled_group_empty.
Qed.

(** The grouped records that part_000 returns for a list of records bring
    to every group what the records of the list bring. *)
Lemma regrouped_turns key part h derived out group :
  foldM (fold_record_value BigNumbers p) part [] = Ok h ->
  mapM (fun entry => derive_group BigNumbers p (snd entry)) (obj_entries h)
  = Ok derived ->
  Permutation derived out ->
  settled_turn p group ->
  fold_left (fun group r => Some (group_turn BigNumbers p r group))
    (records_of BigNumbers p key out) group
  = fold_left (fun group r => Some (group_turn BigNumbers p r group))
      (records_of BigNumbers p key part) group.
Proof.
  intros Hh Hm Hperm Hg.
  pose proof (derived_records_of_key BigNumbers part h derived key Hh Hm) as Hd.
  pose proof (filter_Permutation
                (fun r => (hashKey_of BigNumbers p r =? key)%string)
                derived out Hperm) as Hp.
  change (Permutation (records_of BigNumbers p key derived)
            (records_of BigNumbers p key out)) in Hp.
  destruct (records_of BigNumbers p key part) as [| x rest].
  - rewrite Hd in Hp. apply Permutation_nil in Hp. now rewrite Hp.
  - destruct Hd as (A & HA & Hmd & Hlab). rewrite HA in Hp.
    apply Permutation_length_1_inv in Hp. rewrite Hp.
    assert (Hsub : isSubset (matchKeys p)
                     (METADATA_MATCH_KEYS_FIELD
                        (fold_left (absorb BigNumbers p) (x :: rest)
                           (empty_group p))) = true).
    { rewrite fold_left_absorb. cbn [METADATA_MATCH_KEYS_FIELD empty_group].
      apply isSubset_incl, incl_refl. }
    destruct group as [g |].
    + destruct Hg as (md & Hgmd & Hs).
      rewrite (fold_left_group_turn p BigNumbers (x :: rest) g md Hgmd).
      cbn [fold_left group_turn]. rewrite Hgmd.
      now rewrite (absorb_group_of_part p no_weightedAverage (x :: rest) A _ md
                     Hs Hmd Hsub eq_refl eq_refl).
    + rewrite (fold_left_group_turn_new p BigNumbers x rest).
      cbn [fold_left group_turn].
      rewrite (new_group_labels BigNumbers p A x Hlab).
      now rewrite (absorb_group_of_part p no_weightedAverage (x :: rest) A _
                     (empty_group p) (settled_group_empty p) Hmd Hsub
                     eq_refl eq_refl).
Qed.

(** The hash of the loop holds the same group under every key when the
    grouped records of a list stand in the place of the list. *)
Lemma regrouped_hash part h derived out before after h1 h2 :
  foldM (fold_record_value BigNumbers p) part [] = Ok h ->
  mapM (fun entry => derive_group BigNumbers p (snd entry)) (obj_entries h)
  = Ok derived ->
  Permutation derived out ->
  foldM (fold_record_value BigNumbers p) (before ++ out ++ after)%list []
  = Ok h1 ->
  foldM (fold_record_value BigNumbers p) (before ++ part ++ after)%list []
  = Ok h2 ->
  Permutation h1 h2.
Proof.
  intros Hh Hm Hperm H1 H2.
  destruct (foldM_fold_record_keys BigNumbers p _ [] h1 (NoDup_nil _) H1)
    as [Hnd1 _].
  destruct (foldM_fold_record_keys BigNumbers p _ [] h2 (NoDup_nil _) H2)
    as [Hnd2 _].
  apply same_lookups_Permutation; [exact Hnd1 | exact Hnd2 |].
  intros key.
  rewrite (foldM_group p no_weightedAverage BigNumbers key _ [] h1
             (Forall_nil _) H1).
  rewrite (foldM_group p no_weightedAverage BigNumbers key _ [] h2
             (Forall_nil _) H2).
  unfold records_of. rewrite !filter_app, !fold_left_app. f_equal.
  apply (regrouped_turns key part h derived out _ Hh Hm Hperm).
  now apply fold_left_group_turn_settled.
Qed.

End Regrouped.

Lemma aggregateInternal_value_parts v p out :
  aggregateInternal_value v p = Ok out ->
  exists h derived,
    foldM (fold_record_value v p) (records p) [] = Ok h
    /\ mapM (fun entry => derive_group v p (snd entry)) (obj_entries h)
       = Ok derived
    /\ Permutation derived out.
Proof.
  unfold aggregateInternal_value. intros H.
  destruct (foldM _ (records p) []) as [h |] eqn:Eh; [| discriminate H].
  cbn [obind] in H.
  destruct (mapM _ (obj_entries h)) as [derived |] eqn:Em; [| discriminate H].
  cbn [obind] in H. exists h, derived. split; [reflexivity |].
  split; [exact Em |].
  destruct (sortBy p) as [keys |].
  - exact (sortBy_Permutation _ _ _ _ H).
  - inversion H. apply Permutation_refl.
Qed.

Lemma aggregate_value_records v p res :
  aggregate_value v p = Ok res ->
  exists out,
    aggregateInternal_value v (grouped_request p) = Ok out
    /\ aggregatedRecords res
       = if noAggregateMetadata p then map delete_metadata out else out.
Proof.
  unfold aggregate_value. intros H.
  destruct (aggregateInternal_value v (grouped_request p)) as [out |];
    [| discriminate H].
  cbn [obind] in H. exists out. split; [reflexivity |].
  destruct (aggregateInternal_value v (totals_request p)) as [ts |];
    [| discriminate H].
  cbn [obind] in H. destruct (noAggregateMetadata p).
  - destruct (hd_error ts); [| discriminate H]. now inversion H.
  - now inversion H.
Qed.

(** Composability and augmentability of the grouped records in part_000,
    for fields without weighted averages and match keys without buckets
    (plain keys that no output field overwrites).  The grouped records that
    [aggregate] returns for a list of records, with their metadata, can
    stand among the records of a request in the place of the list: when
    [aggregate] returns for both, the grouped records are the same, up to
    their order. *)
Theorem grouped_records_stand_for_their_records p part before after res :
  weightedAvgFields (fields p) = [] ->
  buckets p = None ->
  respects_reserved_key p = true ->
  forallb plain_key (matchKeys p) = true ->
  forallb plain_key (obj_keys (fields p)) = true ->
  (forall matchKey,
      In matchKey (matchKeys p) -> ~ In matchKey (obj_keys (fields p))) ->
  fst (run (aggregate BigNumbers (grouped_request (with_records p part))))
  = Ok res ->
  forall res1 res2,
    fst (run (aggregate BigNumbers
                (with_records p (before ++ aggregatedRecords res ++ after)%list)))
    = Ok res1 ->
    fst (run (aggregate BigNumbers
                (with_records p (before ++ part ++ after)%list)))
    = Ok res2 ->
    Permutation (aggregatedRecords res1) (aggregatedRecords res2).
Proof.
  intros HW Hb _ Hmk Hf Hdis H res1 res2 H1 H2. unfold run in *.
  rewrite aggregate_fst in H, H1, H2.
  apply aggregate_value_grouped in H as [Hg _]; [| reflexivity].
  apply aggregateInternal_value_parts in Hg as (h & derived & Hh & Hm & Hperm).
  apply aggregate_value_records in H1 as (out1 & Ho1 & ->).
  apply aggregate_value_records in H2 as (out2 & Ho2 & ->).
  apply aggregateInternal_value_parts in Ho1 as (h1 & d1 & Hh1 & Hm1 & Hp1).
  apply aggregateInternal_value_parts in Ho2 as (h2 & d2 & Hh2 & Hm2 & Hp2).
  assert (Hhash : Permutation h1 h2).
  { exact (regrouped_hash (grouped_request p) HW eq_refl Hb Hmk Hf Hdis part h derived
             (aggregatedRecords res) before after h1 h2 Hh Hm Hperm Hh1 Hh2). }
  assert (Hd : Permutation d1 d2).
  { apply (mapM_Permutation
             (fun entry => derive_group BigNumbers (grouped_request p) (snd entry))
             (obj_entries h1) (obj_entries h2)); [| exact Hm1 | exact Hm2].
    apply perm_trans with h1; [apply obj_entries_Permutation |].
    apply perm_trans with h2; [exact Hhash |].
    apply Permutation_sym, obj_entries_Permutation. }
  assert (Hout : Permutation out1 out2).
  { apply perm_trans with d1; [now apply Permutation_sym |].
    now apply perm_trans with d2. }
  cbn [noAggregateMetadata with_records].
  destruct (noAggregateMetadata p); [now apply Permutation_map | exact Hout].
Qed.


Lemma grouped_records_stand_for_their_records_witness :
  let late := [raw [("region", VStr "m"); ("revenue", int 2)]] in
  let grouped := [summed "m" 1 10 100 10 10; summed "n" 2 12 74 5 7] in
  let res := mkResult grouped (Some (summed_totals 3 22 174 5 10)) in
  let res1 :=
    mkResult [summed "m" 2 12 104 2 10; summed "n" 2 12 74 5 7]
      (Some (summed_totals 4 24 178 2 10)) in
  let res2 :=
    mkResult [summed "n" 2 12 74 5 7; summed "m" 2 12 104 2 10]
      (Some (summed_totals 4 24 178 2 10)) in
  fst (run (aggregate BigNumbers
              (grouped_request (with_records (sum_sorted []) two_regions))))
  = Ok res
  /\ fst (run (aggregate BigNumbers
                 (with_records (sum_sorted [])
                    ([] ++ aggregatedRecords res ++ late)%list)))
     = Ok res1
  /\ fst (run (aggregate BigNumbers
                 (with_records (sum_sorted [])
                    ([] ++ two_regions ++ late)%list)))
     = Ok res2
  /\ Permutation (aggregatedRecords res1) (aggregatedRecords res2).
Proof.
  intros late grouped res res1 res2.
  split; [reflexivity |]. split; [reflexivity |]. split; [reflexivity |].
  refine (grouped_records_stand_for_their_records (sum_sorted []) two_regions
            [] late res eq_refl eq_refl eq_refl eq_refl eq_refl _ eq_refl
            res1 res2 eq_refl eq_refl).
  cbn. intros mk [<- | []] [E | []]. discriminate E.
Defined.
